(** * growatt: the client of lib/growatt.js

    A shallow embedding of lib/growatt.js in two parts.  The first is the
    inverter command path: [getInverterCommunication], [getInverterSetting],
    [setInverterSetting] and [comInverter], with the promise callbacks of
    [comInverter] written as the handlers of an event-driven state machine.
    The second (module [Portal]) is the session and the reads of the portal:
    the logins, [logout], the plant and device reads, the data logger calls,
    and the collectors [getDataLoggers] and [getPlantDeviceData].
    [getAllPlantData] and [getAllPlantDeviceData] are not modelled.

    Conventions.
    - JavaScript values are [val]; objects of the schema registry
      (GROWATTTYPE) live in a [store] and are reached through [VRef], so
      that two references to one registry object alias.  Objects that are
      created by a call and handed on (the [url] object of a command, the
      map built by [getInverterCommunication]) are passed explicitly, by
      value.  Decoded payloads and caller literals are [json] trees.
    - An object is its list of own properties in enumeration order; objects
      with integer-like keys and numbers that are not integers are outside
      the model.  The objects of the registry, the decoded payloads and the
      object literals are plain objects: what they do not hold themselves
      they inherit from [Object.prototype] ([JS.inherited]), so that
      [GROWATTTYPE['constructor']] is a function and [o['__proto__']] the
      prototype.
    - An [Error] is kept as the data its message is built from. *)

From Stdlib Require Import ZArith Ascii String DecimalString List Bool Lia.
From stdpp Require Import base option list.

Import ListNotations.
Set Warnings "-register-all".
Local Open Scope string_scope.
Local Open Scope Z_scope.
Local Open Scope list_scope.

(* ===================================================================== *)
(** ** JavaScript values *)
(* ===================================================================== *)

Module JS.

Definition loc := nat.

(** A decoded JSON document, or an object literal of the caller. *)
Inductive json : Type :=
  | JNull
  | JBool (b : bool)
  | JNum (n : Z)
  | JStr (s : string)
  | JObj (fields : list (string * json)).

Inductive val : Type :=
  | VUndef
  | VNull
  | VBool (b : bool)
  | VNum (n : Z)
  | VStr (s : string)
  | VFun (f : string)                      (* a function, by name *)
  | VRef (l : loc)                         (* an object of the store *)
  | VJson (fields : list (string * json))  (* an object given by value *)
  | VProto.                                (* the object Object.prototype *)

Definition of_json (j : json) : val :=
  match j with
  | JNull => VNull
  | JBool b => VBool b
  | JNum n => VNum n
  | JStr s => VStr s
  | JObj fs => VJson fs
  end.

(** An object: own enumerable properties, in enumeration order. *)
Definition obj := list (string * val).
Definition store := list obj.

Definition of_fields (fs : list (string * json)) : obj :=
  map (fun kv => (fst kv, of_json (snd kv))) fs.

Inductive type_tag :=
  TUndefined | TObject | TBoolean | TNumber | TString | TFunction.

(** [typeof v]; note [typeof null === 'object']. *)
Definition typeof (v : val) : type_tag :=
  match v with
  | VUndef => TUndefined
  | VNull => TObject
  | VBool _ => TBoolean
  | VNum _ => TNumber
  | VStr _ => TString
  | VFun _ => TFunction
  | VRef _ => TObject
  | VJson _ => TObject
  | VProto => TObject
  end.

Definition is_tag (t : type_tag) (v : val) : bool :=
  match t, typeof v with
  | TUndefined, TUndefined | TObject, TObject | TBoolean, TBoolean
  | TNumber, TNumber | TString, TString | TFunction, TFunction => true
  | _, _ => false
  end.

(** ToBoolean. *)
Definition truthy (v : val) : bool :=
  match v with
  | VUndef | VNull => false
  | VBool b => b
  | VNum n => negb (n =? 0)
  | VStr s => negb (String.eqb s "")
  | VFun _ | VRef _ | VJson _ | VProto => true
  end.

(** First binding of a key in a property list. *)
Fixpoint assoc {A : Type} (k : string) (o : list (string * A)) : option A :=
  match o with
  | [] => None
  | (k', v) :: r => if String.eqb k k' then Some v else assoc k r
  end.

(** [o[k] = v] on a property list: an existing key keeps its place, a new
    one goes last. *)
Fixpoint assign {A : Type} (k : string) (v : A) (o : list (string * A))
    : list (string * A) :=
  match o with
  | [] => [(k, v)]
  | (k', v') :: r =>
      if String.eqb k k' then (k, v) :: r else (k', v') :: assign k v r
  end.

Definition keys {A : Type} (o : list (string * A)) : list string := map fst o.

(** [o.k] read from a property list: a missing key reads [undefined]. *)
Definition field (k : string) (o : obj) : val :=
  match assoc k o with Some v => v | None => VUndef end.

Inductive exn : Type :=
  | UnknownAction (action type : string)
    (* `The action ${action} is unknown for invertertype ${type}` *)
  | UnknownFunction (func type : string)
    (* `The function ${func} is unknown for invertertype ${type}` *)
  | IncorrectValue (name ty : val) (func type : string)
    (* `The value ${name} is incorrect for ${ty} for function ${func} on
       invertertype ${type}` *)
  | MissingValue (name : val) (func type : string)
    (* `The value ${name} is missing for send function ${func} on
       invertertype ${type}` *)
  | NotConnected
    (* `The server is not connected` *)
  | Payload (data : json)
    (* new Error(JSON.stringify(res.data, ...)) *)
  | Unexpected (path : string)
    (* `The server sent an unexpected response: ${path}` *)
  | UnexpectedFatal
    (* 'The server sent an unexpected response, a fatal error has occurred' *)
  | TypeError
    (* raised by the engine: property of undefined or null, call of a
       non-function *)
  | Thrown (v : val).
    (* a value thrown by a collaborator *)

Inductive result (A : Type) : Type :=
  | Ok (a : A)
  | Throw (e : exn).
Arguments Ok {A} a.
Arguments Throw {A} e.

(** The own properties of [Object.prototype]: the constructor and ten
    methods, each a function, and the accessor [__proto__], which gives
    the prototype of the object it is read from - for [Object.prototype]
    itself that is [null]. *)
Definition Object_prototype : obj :=
  [("constructor", VFun "Object");
   ("hasOwnProperty", VFun "hasOwnProperty");
   ("isPrototypeOf", VFun "isPrototypeOf");
   ("propertyIsEnumerable", VFun "propertyIsEnumerable");
   ("toLocaleString", VFun "toLocaleString");
   ("toString", VFun "toString");
   ("valueOf", VFun "valueOf");
   ("__defineGetter__", VFun "__defineGetter__");
   ("__defineSetter__", VFun "__defineSetter__");
   ("__lookupGetter__", VFun "__lookupGetter__");
   ("__lookupSetter__", VFun "__lookupSetter__");
   ("__proto__", VNull)].

(** What a plain object - an object of the registry, a decoded payload,
    an object literal - finds under a name that is not its own: the
    member of its prototype [Object.prototype], and that prototype itself
    under [__proto__]. *)
Definition inherited (k : string) : val :=
  if String.eqb k "__proto__" then VProto else field k Object_prototype.

(** [v[k]] for a value [v] against the store [r]: an own property first,
    then the prototype.  Of a function only the [name] is known: the
    other members of functions, and those of booleans, numbers and
    strings, are not modelled and read as [undefined].  The source reads
    such a value under a name of the caller's choice in one place only,
    [gt[paramorgi.base]] of line 853 for a [gt] that is no object, which
    takes a call of [comInverter] whose [action] is no string; under the
    fixed names that it reads elsewhere ([comInverter], [snParam],
    [type], ...) these values do have nothing.  A reference to no object
    of the store reads [undefined]. *)
Definition get (r : store) (v : val) (k : string) : result val :=
  match v with
  | VUndef | VNull => Throw TypeError
  | VRef l =>
      match r !! l with
      | Some o =>
          match assoc k o with
          | Some x => Ok x
          | None => Ok (inherited k)
          end
      | None => Ok VUndef
      end
  | VJson fs =>
      match assoc k fs with
      | Some j => Ok (of_json j)
      | None => Ok (inherited k)
      end
  | VProto => Ok (field k Object_prototype)
  | VFun f => if String.eqb k "name" then Ok (VStr f) else Ok VUndef
  | VBool _ | VNum _ | VStr _ => Ok VUndef
  end.

(** [Object.keys(v)]: the own enumerable properties; those of
    [Object.prototype] are not enumerable. *)
Definition object_keys (r : store) (v : val) : result (list string) :=
  match v with
  | VUndef | VNull => Throw TypeError
  | VRef l =>
      match r !! l with
      | Some o => Ok (keys o)
      | None => Ok []
      end
  | VJson fs => Ok (keys fs)
  | VBool _ | VNum _ | VStr _ | VFun _ | VProto => Ok []
  end.

(** The own properties that [Object.assign(target, v)] copies from [v]. *)
Definition own_props (r : store) (v : val) : obj :=
  match v with
  | VRef l =>
      match r !! l with
      | Some o => o
      | None => []
      end
  | VJson fs => of_fields fs
  | _ => []
  end.

(** [Object.assign(target, v)]: every own property of [v] is assigned to
    [target], in order; the assigned values are the property values
    themselves, so a reference is copied as a reference. *)
Definition object_assign (r : store) (target : obj) (v : val) : obj :=
  fold_left (fun t kv => assign (fst kv) (snd kv) t) (own_props r v) target.

(** [o[k] = v] on an object of the store. *)
Definition put (r : store) (l : loc) (k : string) (v : val) : store :=
  match r !! l with
  | Some o => <[l := assign k v o]> r
  | None => r
  end.

(** [s.match(needle)] for a needle without regular-expression syntax:
    is [needle] a substring of [s]. *)
Fixpoint includes (needle s : string) : bool :=
  if String.prefix needle s then true
  else match s with
       | EmptyString => false
       | String _ s' => includes needle s'
       end.

End JS.
Import JS.

(* ===================================================================== *)
(** ** A command being shaped: the object [paramorgi] *)
(* ===================================================================== *)

(** [{ url, val, action, base, func }] as built by [getInverterSetting] and
    [setInverterSetting].  [p_url] is the object that [comInverter] fills in
    (its [param]); it is the one object of a command that is mutated, and it
    is shared by every re-issue of the command. *)
Record paramorgi : Type := {
  p_url : obj;
  p_val : val;
  p_action : val;
  p_base : val;
  p_func : string;
}.

Definition with_url (po : paramorgi) (u : obj) : paramorgi :=
  {| p_url := u; p_val := p_val po; p_action := p_action po;
     p_base := p_base po; p_func := p_func po |}.

(** The module object [GROWATTTYPE] (lib/growatttype.js is not part of the
    sources at hand): the first object of the registry store. *)
Definition GROWATTTYPE : val := VRef 0%nat.

(* ===================================================================== *)
(** ** Shaping and checking a command (comInverter, lines 841-887) *)
(* ===================================================================== *)

(** Computations on [param] that may throw. *)
Module Shape.

Definition M (A : Type) : Type := obj -> obj * result A.

Definition ret {A : Type} (a : A) : M A := fun o => (o, Ok a).
Definition throw {A : Type} (e : exn) : M A := fun o => (o, Throw e).
Definition lift {A : Type} (r : result A) : M A := fun o => (o, r).

Definition bind {A B : Type} (m : M A) (k : A -> M B) : M B :=
  fun o =>
    match m o with
    | (o', Ok a) => k a o'
    | (o', Throw e) => (o', Throw e)
    end.

(** [param.k] and [param[k] = v]. *)
Definition read (k : string) : M val := fun o => (o, Ok (field k o)).
Definition write (k : string) (v : val) : M unit :=
  fun o => (assign k v o, Ok tt).

(** [l.forEach(f)]: a throw leaves the loop. *)
Fixpoint forEach {A : Type} (l : list A) (f : A -> M unit) : M unit :=
  match l with
  | [] => ret tt
  | x :: l' => bind (f x) (fun _ => forEach l' f)
  end.

End Shape.
Import Shape.

Notation "'let!' x ':=' m 'in' k" := (bind m (fun x => k))
  (at level 10, x name, m at level 100, k at level 200,
   format "'[v' 'let!'  x  ':='  m  'in' '/' k ']'").

Section Codec.

(** The converter table of lib/parsein.js, which is not part of the
    sources at hand: [PARSEIN t] is the entry of [PARSEIN] under the key
    [t], if it is a function; the function returns the pair
    [[value, ok]]. *)
Variable PARSEIN : val -> option (val -> val * val).

(** The body of [Object.keys(p).forEach(name => ...)], lines 864-874. *)
Definition check_param (r : store) (type : string) (po : paramorgi)
    (p : val) (name : string) : M unit :=
  let! given := lift (get r (p_val po) name) in
  if negb (is_tag TUndefined given) then
    let! d := lift (get r p name) in
    let! t := lift (get r d "type") in
    match PARSEIN t with
    | None => throw TypeError
    | Some parse =>
        let '(v, ok) := parse given in
        let! _ := write name v in
        if negb (truthy ok) then
          let! dname := lift (get r d "name") in
          let! dtype := lift (get r d "type") in
          throw (IncorrectValue dname dtype (p_func po) type)
        else ret tt
    end
  else
    let! d := lift (get r p name) in
    let! dname := lift (get r d "name") in
    throw (MissingValue dname (p_func po) type).

(** Lines 855-858, for the descriptor [b]: the result is [checkRet]. *)
Definition take_paramId (r : store) (b : val) : M val :=
  let! paramId := read "paramId" in
  if negb (is_tag TUndefined paramId) then
    let! bid := lift (get r b "paramId") in
    if is_tag TString bid then
      let! _ := write "paramId" bid in
      let! parseRet := lift (get r b "parseRet") in
      ret parseRet
    else ret VNull
  else ret VNull.

(** Lines 859-877, for the descriptor [b]. *)
Definition take_type (r : store) (type : string) (po : paramorgi)
    (b : val) : M unit :=
  let! ty := read "type" in
  if negb (is_tag TUndefined ty) then
    let! bty := lift (get r b "type") in
    if is_tag TString bty then
      let! _ := write "type" bty in
      if is_tag TObject (p_val po) then
        let! p := lift (get r b "param") in
        if is_tag TObject p then
          let! names := lift (object_keys r p) in
          forEach names (check_param r type po p)
        else ret tt
      else ret tt
    else ret tt
  else ret tt.

(** Lines 854-877, for the descriptor [b]; the result is [checkRet]. *)
Definition shape_function (r : store) (type : string) (po : paramorgi)
    (b : val) : M val :=
  let! checkRet := take_paramId r b in
  let! _ := take_type r type po b in
  ret checkRet.

(** Lines 846-852, for [gt = GROWATTTYPE[type]]. *)
Definition take_action (r : store) (type : string) (po : paramorgi)
    (gt : val) : M unit :=
  match p_action po with
  | VStr a =>
      if is_tag TObject gt then
        let! act := lift (get r gt a) in
        if is_tag TString act then write "action" act
        else throw (UnknownAction a type)
      else throw (UnknownAction a type)
  | _ => ret tt
  end.

(** The [try] block of [comInverter], lines 845-880, run on [param]; the
    result is [checkRet], a [Throw] is what the [catch] rejects with. *)
Definition shape (r : store) (type : string) (po : paramorgi) : M val :=
  let! gt := lift (get r GROWATTTYPE type) in
  let! _ := take_action r type po gt in
  match p_base po with
  | VStr bs =>
      let! base := lift (get r gt bs) in
      if is_tag TObject base then
        let! b := lift (get r base (p_func po)) in
        if is_tag TObject b then shape_function r type po b
        else throw (UnknownFunction (p_func po) type)
      else throw (UnknownFunction (p_func po) type)
  | _ => throw (UnknownFunction (p_func po) type)
  end.

(** The supplied object [fs] holds, under the declared name [n] of the
    parameter map [p], a value that its converter accepts. *)
Definition converts (r : store) (p : val) (fs : list (string * json))
    (n : string) : Prop :=
  exists given d t parse,
    get r (VJson fs) n = Ok given /\ is_tag TUndefined given = false /\
    get r p n = Ok d /\ get r d "type" = Ok t /\
    PARSEIN t = Some parse /\ truthy (snd (parse given)) = true.

(** It holds a value that the converter of [n] refuses; [dname] and
    [dtype] are the name and the type that the map gives for [n]. *)
Definition refused (r : store) (p : val) (fs : list (string * json))
    (n : string) (dname dtype : val) : Prop :=
  exists given d parse,
    get r (VJson fs) n = Ok given /\ is_tag TUndefined given = false /\
    get r p n = Ok d /\ get r d "type" = Ok dtype /\
    get r d "name" = Ok dname /\
    PARSEIN dtype = Some parse /\ truthy (snd (parse given)) = false.

(** It holds nothing under [n], nor does it inherit anything under that
    name. *)
Definition missing (r : store) (p : val) (fs : list (string * json))
    (n : string) (dname : val) : Prop :=
  exists d,
    get r (VJson fs) n = Ok VUndef /\ get r p n = Ok d /\
    get r d "name" = Ok dname.

End Codec.

(** [type] is a device type of the registry with the action of the
    command, [act]. *)
Definition known_type (r : store) (type : string) (po : paramorgi)
    (gt act : val) : Prop :=
  exists a,
    get r GROWATTTYPE type = Ok gt /\ is_tag TObject gt = true /\
    p_action po = VStr a /\ get r gt a = Ok act /\ is_tag TString act = true.

(** [b] is the descriptor of a function of the command's base that can be
    written: it has a wire [type] and the parameter map [p], whose keys are
    [names]. *)
Definition write_descriptor (r : store) (po : paramorgi) (gt b p : val)
    (names : list string) : Prop :=
  exists bs base bty,
    p_base po = VStr bs /\
    get r gt bs = Ok base /\ is_tag TObject base = true /\
    get r base (p_func po) = Ok b /\ is_tag TObject b = true /\
    get r b "type" = Ok bty /\ is_tag TString bty = true /\
    get r b "param" = Ok p /\ is_tag TObject p = true /\
    object_keys r p = Ok names.

(** The names of the parameters that a descriptor [b] declares, that is
    [Object.keys(b.param)]; empty when there is no such map. *)
Definition names_of (r : store) (b : val) : list string :=
  match get r b "param" with
  | Ok p =>
      match object_keys r p with
      | Ok names => names
      | Throw _ => []
      end
  | Throw _ => []
  end.

(** The descriptor [GROWATTTYPE[type][base][func]] of a command, where
    there is one. *)
Definition descriptor_of (r : store) (type : string) (po : paramorgi)
    : option val :=
  match get r GROWATTTYPE type, p_base po with
  | Ok gt, VStr bs =>
      match get r gt bs with
      | Ok base =>
          match get r base (p_func po) with
          | Ok b => Some b
          | Throw _ => None
          end
      | Throw _ => None
      end
  | _, _ => None
  end.

(** The names of the parameters that the function of a command declares. *)
Definition declared (r : store) (type : string) (po : paramorgi)
    : list string :=
  match descriptor_of r type po with
  | Some b => names_of r b
  | None => []
  end.

(** The argument that [getInverterSetting] builds, line 827. *)
Definition read_command (func : string) (serialNum : val) : paramorgi :=
  {| p_url := [("action", VStr ""); ("paramId", VStr "");
               ("serialNum", serialNum); ("startAddr", VNum (-1));
               ("endAddr", VNum (-1))];
     p_val := VUndef; p_action := VStr "readParam";
     p_base := VStr "comInverter"; p_func := func |}.

(** The argument that [setInverterSetting] builds, line 833. *)
Definition write_command (func : string) (serialNum v : val) : paramorgi :=
  {| p_url := [("action", VStr ""); ("serialNum", serialNum);
               ("type", VStr "")];
     p_val := v; p_action := VStr "writeParam";
     p_base := VStr "comInverter"; p_func := func |}.

(* ===================================================================== *)
(** ** getInverterCommunication (lines 806-823) *)
(* ===================================================================== *)

(** One entry [ret[key]] of the map that is returned: the object
    [{ name, param }] with the optional [isSubread] and [subRead]. *)
Record descriptor : Type := {
  d_name : val;
  d_param : obj;
  d_isSubread : option val;
  d_subRead : option obj;
}.

(** The body of [Object.keys(...).forEach(key => ...)], lines 811-819, for
    [c = GROWATTTYPE[type].comInverter]. *)
Definition describe (r : store) (c : val) (key : string) : result descriptor :=
  match get r c key with
  | Throw e => Throw e
  | Ok f =>
      match get r f "name", get r f "param", get r f "isSubread",
            get r f "subRead" with
      | Ok name, Ok param, Ok isSubread, Ok subRead =>
          Ok {| d_name := name;
                d_param := object_assign r [] param;
                d_isSubread := if truthy isSubread then Some isSubread else None;
                d_subRead :=
                  if truthy subRead then Some (object_assign r [] subRead)
                  else None |}
      | Throw e, _, _, _ | _, Throw e, _, _ | _, _, Throw e, _
      | _, _, _, Throw e => Throw e
      end
  end.

Fixpoint describe_all (r : store) (c : val) (ks : list string)
    (ret : list (string * descriptor)) : result (list (string * descriptor)) :=
  match ks with
  | [] => Ok ret
  | key :: ks' =>
      match describe r c key with
      | Throw e => Throw e
      | Ok d => describe_all r c ks' (assign key d ret)
      end
  end.

(** [getInverterCommunication(type)]; a [Throw] is an exception of the call
    itself. *)
Definition getInverterCommunication (r : store) (type : string)
    : result (list (string * descriptor)) :=
  match get r GROWATTTYPE type with
  | Throw e => Throw e
  | Ok gt =>
      match get r gt "comInverter" with
      | Throw e => Throw e
      | Ok c =>
          if is_tag TObject c then
            match object_keys r c with
            | Throw e => Throw e
            | Ok ks => describe_all r c ks []
            end
          else Ok []
      end
  end.

(* ===================================================================== *)
(** ** The command queue *)
(* ===================================================================== *)

Module Queue.

(** Modelled from the spec: lib/queue.js is not part of the sources at
    hand.  Section 4.3 of the specification: the queue is an ordered
    waiting list whose head entry holds the execution slot.
    [enqueue] "appends to the tail of an ordered waiting list.  If nothing
    is currently executing, immediately grants the head entry the
    execution slot."  [complete()] "removes the head entry and, if the
    list is non-empty, grants the new head the slot."  An entry is the
    number of the [comInverter] call that waits; the second component of
    a result is the entry that is granted the slot by the operation. *)
Definition t := list nat.

(** Modelled from the spec: "If nothing is currently executing" -- an
    entry executes exactly while it is the head of the list. *)
Definition executing (q : t) : bool :=
  match q with
  | [] => false
  | _ :: _ => true
  end.

(** Modelled from the spec: [enqueue], called [addTask] by
    lib/growatt.js. *)
Definition addTask (id : nat) (q : t) : t * option nat :=
  let q' := q ++ [id] in
  (q', if executing q then None else head q').

(** Modelled from the spec: [complete()], called [taskFinished] by
    lib/growatt.js. *)
Definition taskFinished (q : t) : t * option nat :=
  match q with
  | [] => ([], None)
  | _ :: q' => (q', head q')
  end.

End Queue.

(* ===================================================================== *)
(** ** The client: state, promises and jobs *)
(* ===================================================================== *)

Inductive outcome : Type :=
  | Resolve (v : val)
  | Reject (e : exn).

(** What an observer of the client sees, in order. *)
Inductive event : Type :=
  | Posted (id : nat) (fields : obj)
    (* call [id] posts [URLSearchParams(param)] to /tcpSet.do *)
  | Parsed (id : nat) (checkRet : val) (data : json)
    (* call [id] runs [checkRet(res.data, qresolve)] *)
  | Settled (id : nat) (o : outcome)
    (* [resolve] or [reject] of the promise of call [id] is called *)
  | Released.
    (* [queue.taskFinished()] is called *)

(** A continuation that waits in the job queue of the engine. *)
Inductive job : Type :=
  | Grant (id : nat)
    (* the rest of call [id] after [await this.queue.addTask(...)],
       line 889 onwards *)
  | Forward (id : nat) (o : outcome).
    (* [r => qresolve(r)] or [e => qreject(e)] of call [id], lines 904-909 *)

(** One call of [comInverter]: its arguments, with [url] as the [try] block
    left it, and its [checkRet]. *)
Record call : Type := {
  c_type : string;
  c_paramorgi : paramorgi;
  c_checkRet : val;
}.

(** The axios response: [res.data] and [res.request.path]. *)
Record response : Type := {
  data : json;
  path : string;
}.

(** An instance of the class, with the registry it reads and the promises
    it has handed out.  Call [id] is [calls !! id] and owns promise
    [promises !! id]; [reactions] holds [(c, p)] while call [p] waits, by
    [then]/[catch], for the still pending promise of call [c]; [inflight]
    holds the calls whose POST is unanswered. *)
Record growatt : Type := {
  connected : bool;
  registry : store;
  queue : Queue.t;
  calls : list call;
  promises : list (option outcome);
  reactions : list (nat * nat);
  inflight : list nat;
  jobs : list job;
  trace : list event;
}.

Definition set_connected (b : bool) (s : growatt) : growatt :=
  {| connected := b; registry := registry s; queue := queue s;
     calls := calls s; promises := promises s; reactions := reactions s;
     inflight := inflight s; jobs := jobs s; trace := trace s |}.

Definition set_queue (q : Queue.t) (s : growatt) : growatt :=
  {| connected := connected s; registry := registry s; queue := q;
     calls := calls s; promises := promises s; reactions := reactions s;
     inflight := inflight s; jobs := jobs s; trace := trace s |}.

Definition new_call (c : call) (s : growatt) : growatt :=
  {| connected := connected s; registry := registry s; queue := queue s;
     calls := calls s ++ [c]; promises := promises s ++ [None];
     reactions := reactions s; inflight := inflight s; jobs := jobs s;
     trace := trace s |}.

Definition set_promises (ps : list (option outcome)) (s : growatt) : growatt :=
  {| connected := connected s; registry := registry s; queue := queue s;
     calls := calls s; promises := ps; reactions := reactions s;
     inflight := inflight s; jobs := jobs s; trace := trace s |}.

Definition set_reactions (rs : list (nat * nat)) (s : growatt) : growatt :=
  {| connected := connected s; registry := registry s; queue := queue s;
     calls := calls s; promises := promises s; reactions := rs;
     inflight := inflight s; jobs := jobs s; trace := trace s |}.

Definition set_inflight (l : list nat) (s : growatt) : growatt :=
  {| connected := connected s; registry := registry s; queue := queue s;
     calls := calls s; promises := promises s; reactions := reactions s;
     inflight := l; jobs := jobs s; trace := trace s |}.

Definition set_jobs (js : list job) (s : growatt) : growatt :=
  {| connected := connected s; registry := registry s; queue := queue s;
     calls := calls s; promises := promises s; reactions := reactions s;
     inflight := inflight s; jobs := js; trace := trace s |}.

Definition log (e : event) (s : growatt) : growatt :=
  {| connected := connected s; registry := registry s; queue := queue s;
     calls := calls s; promises := promises s; reactions := reactions s;
     inflight := inflight s; jobs := jobs s; trace := trace s ++ [e] |}.

Definition spawn (js : list job) (s : growatt) : growatt :=
  set_jobs (jobs s ++ js) s.

(** [new growatt(conf)], lines 63-83, over a registry. *)
Definition constructor (r : store) : growatt :=
  {| connected := false; registry := r; queue := []; calls := [];
     promises := []; reactions := []; inflight := []; jobs := [];
     trace := [] |}.

Definition waits_for (c : nat) (cp : nat * nat) : bool := Nat.eqb (fst cp) c.

(** [resolve(v)] or [reject(e)] of the promise of call [id].  Only the first
    call settles the promise; the reactions that wait for it become jobs. *)
Definition settle (id : nat) (o : outcome) (s : growatt) : growatt :=
  let s := log (Settled id o) s in
  match promises s !! id with
  | Some None =>
      let woken := filter (fun cp => waits_for id cp = true) (reactions s) in
      let rest := filter (fun cp => waits_for id cp <> true) (reactions s) in
      spawn (map (fun cp => Forward (snd cp) o) woken)
        (set_reactions rest (set_promises (<[id := Some o]> (promises s)) s))
  | _ => s
  end.

(** [c.then(r => qresolve(r)).catch(e => qreject(e))] where [qresolve] and
    [qreject] are those of call [p], lines 903-909. *)
Definition forward (c p : nat) (s : growatt) : growatt :=
  match promises s !! c with
  | Some (Some o) => spawn [Forward p o] s
  | _ => set_reactions (reactions s ++ [(c, p)]) s
  end.

Definition granted (g : option nat) : list job :=
  match g with
  | Some id => [Grant id]
  | None => []
  end.

(** [this.queue.taskFinished()]. *)
Definition taskFinished (s : growatt) : growatt :=
  let '(q, g) := Queue.taskFinished (queue s) in
  spawn (granted g) (set_queue q (log Released s)).

(** [this.queue.addTask(resolve, reject)] by call [id]; the promise it
    returns is fulfilled when the call is granted the slot. *)
Definition addTask (id : nat) (s : growatt) : growatt :=
  let '(q, g) := Queue.addTask id (queue s) in
  spawn (granted g) (set_queue q s).

(** Modelled from the spec: [qresolve] and [qreject], the pair that the
    promise of [addTask] is fulfilled with (lib/queue.js is not part of the
    sources at hand).  Sections 4.3 and 4.4 of the specification have every
    terminal branch deliver the outcome and "call [complete()]", where
    lib/growatt.js calls [qresolve] or [qreject] only: the pair delivers the
    outcome to [resolve] or [reject] of the call and completes the task. *)
Definition qsettle (id : nat) (o : outcome) (s : growatt) : growatt :=
  taskFinished (settle id o s).

(* ===================================================================== *)
(** ** comInverter and its callbacks (lines 825-932) *)
(* ===================================================================== *)

(** [res.data.k] for a payload that passed [res.data &&]. *)
Definition member (j : json) (k : string) : val :=
  match j with
  | JObj fs =>
      match assoc k fs with
      | Some x => of_json x
      | None => VUndef
      end
  | _ => VUndef
  end.

(** [v === ''] and [v !== null]. *)
Definition is_empty_string (v : val) : bool :=
  match v with
  | VStr s => String.eqb s ""
  | _ => false
  end.

Definition is_null (v : val) : bool :=
  match v with
  | VNull => true
  | _ => false
  end.

(** Line 899: [res.data && typeof res.data.success !== 'undefined']. *)
Definition acknowledged (d : json) : bool :=
  truthy (of_json d) && negb (is_tag TUndefined (member d "success")).

(** Line 901: [typeof res.data.msg !== 'undefined' && res.data.msg === '']. *)
Definition unfinished (d : json) : bool :=
  negb (is_tag TUndefined (member d "msg")) && is_empty_string (member d "msg").

(** Line 910: [typeof checkRet !== 'undefined' && checkRet !== null]. *)
Definition has_parser (checkRet : val) : bool :=
  negb (is_tag TUndefined checkRet) && negb (is_null checkRet).

(** Removes the first occurrence of [id]; [None] when there is none. *)
Fixpoint take_out (id : nat) (l : list nat) : option (list nat) :=
  match l with
  | [] => None
  | x :: l' =>
      if Nat.eqb x id then Some l'
      else match take_out id l' with
           | Some l'' => Some (x :: l'')
           | None => None
           end
  end.

(** What drives the client: calls of its methods, the answers of the
    transport, the session flag as login and logout leave it, and the
    engine running the next job. *)
Inductive input : Type :=
  | CallGet (type func : string) (serialNum : val)
  | CallSet (type func : string) (serialNum : val) (v : val)
  | Answer (id : nat) (res : response)
  | Fail (id : nat) (e : val)
  | Session (b : bool)
  | Tick.

Section Client.

Variable PARSEIN : val -> option (val -> val * val).

(** Modelled from the spec: the result parsers that descriptors name in
    [parseRet] are not part of the sources at hand.  Section 9 of the
    specification: a parser is "a pure function value attached to each
    schema descriptor: rawPayload -> Result | Error"; called as
    [checkRet(res.data, qresolve)] it passes its result to [qresolve], or
    throws its error.  [PARSERET f] is the function named [f]. *)
Variable PARSERET : string -> json -> result val.

(** [comInverter(type, paramorgi)], lines 837-888: the new call is
    number [length (calls s)]; it is rejected by the [catch], or asks the
    queue for the slot. *)
Definition comInverter (type : string) (po : paramorgi) (s : growatt)
    : growatt :=
  let id := length (calls s) in
  let '(u, checked) := shape PARSEIN (registry s) type po (p_url po) in
  match checked with
  | Throw e =>
      settle id (Reject e)
        (new_call {| c_type := type; c_paramorgi := with_url po u;
                     c_checkRet := VNull |} s)
  | Ok checkRet =>
      addTask id
        (new_call {| c_type := type; c_paramorgi := with_url po u;
                     c_checkRet := checkRet |} s)
  end.

(** Lines 825-829. *)
Definition getInverterSetting (type func : string) (serialNum : val)
    (s : growatt) : growatt :=
  comInverter type (read_command func serialNum) s.

(** Lines 831-835. *)
Definition setInverterSetting (type func : string) (serialNum v : val)
    (s : growatt) : growatt :=
  comInverter type (write_command func serialNum v) s.

(** Lines 893-896: the request leaves. *)
Definition post (id : nat) (s : growatt) : growatt :=
  match calls s !! id with
  | Some c =>
      set_inflight (inflight s ++ [id])
        (log (Posted id (p_url (c_paramorgi c))) s)
  | None => s
  end.

Definition run (j : job) (s : growatt) : growatt :=
  match j with
  | Grant id =>
      (* lines 889-896 *)
      if connected s then post id s
      else qsettle id (Reject NotConnected) s
  | Forward id o =>
      (* lines 904-909 *)
      qsettle id o s
  end.

(** The [then] callback of the POST of call [id], lines 897-926; what the
    callback throws goes to the [catch] callback, that is to [qreject]. *)
Definition on_answer (id : nat) (c : call) (res : response) (s : growatt)
    : growatt :=
  let d := data res in
  if acknowledged d then
    if unfinished d then
      let s := taskFinished s in
      let inner := length (calls s) in
      forward inner id (comInverter (c_type c) (c_paramorgi c) s)
    else if has_parser (c_checkRet c) then
      match c_checkRet c with
      | VFun f =>
          let s := log (Parsed id (c_checkRet c) d) s in
          match PARSERET f d with
          | Ok v => qsettle id (Resolve v) s
          | Throw e => qsettle id (Reject e) s
          end
      | _ => qsettle id (Reject TypeError) s
      end
    else qsettle id (Resolve (of_json d)) s
  else if truthy (of_json d) then qsettle id (Reject (Payload d)) s
  else if includes "errorMess" (path res) then
    qsettle id (Reject (Unexpected (path res))) s
  else qsettle id (Reject UnexpectedFatal) s.

(** The [catch] callback for a failure of the transport, lines 927-930. *)
Definition on_failure (id : nat) (e : val) (s : growatt) : growatt :=
  qsettle id (Reject (Thrown e)) s.

Definition handle (i : input) (s : growatt) : growatt :=
  match i with
  | CallGet type func serialNum => getInverterSetting type func serialNum s
  | CallSet type func serialNum v => setInverterSetting type func serialNum v s
  | Answer id res =>
      match take_out id (inflight s), calls s !! id with
      | Some rest, Some c => on_answer id c res (set_inflight rest s)
      | _, _ => s
      end
  | Fail id e =>
      match take_out id (inflight s) with
      | Some rest => on_failure id e (set_inflight rest s)
      | None => s
      end
  | Session b => set_connected b s
  | Tick =>
      match jobs s with
      | [] => s
      | j :: js => run j (set_jobs js s)
      end
  end.

Definition run_inputs (inputs : list input) (s : growatt) : growatt :=
  fold_left (fun s i => handle i s) inputs s.

(** The states the client can be in over the registry [r]. *)
Inductive reachable (r : store) : growatt -> Prop :=
  | reachable_new : reachable r (constructor r)
  | reachable_step (i : input) (s : growatt) :
      reachable r s -> reachable r (handle i s).

(** [terminal s i id]: in state [s] the input [i] takes call [id] into a
    branch of [comInverter] that ends the call - the [catch] of the [try]
    block, the slot granted without a session, the transport failing, an
    answer that is not "accepted, not yet finished", or the outcome of
    the re-issued request coming back. *)
Inductive terminal (s : growatt) : input -> nat -> Prop :=
  | terminal_get type func serialNum u e :
      shape PARSEIN (registry s) type (read_command func serialNum)
        (p_url (read_command func serialNum)) = (u, Throw e) ->
      terminal s (CallGet type func serialNum) (length (calls s))
  | terminal_set type func serialNum v u e :
      shape PARSEIN (registry s) type (write_command func serialNum v)
        (p_url (write_command func serialNum v)) = (u, Throw e) ->
      terminal s (CallSet type func serialNum v) (length (calls s))
  | terminal_not_connected id js :
      jobs s = Grant id :: js -> connected s = false ->
      terminal s Tick id
  | terminal_forward id o js :
      jobs s = Forward id o :: js ->
      terminal s Tick id
  | terminal_fail id e :
      In id (inflight s) ->
      terminal s (Fail id e) id
  | terminal_answer id res :
      In id (inflight s) -> (id < length (calls s))%nat ->
      acknowledged (data res) && unfinished (data res) = false ->
      terminal s (Answer id res) id.

End Client.

(* ===================================================================== *)
(** ** Notions used in the statements *)
(* ===================================================================== *)

(** A write that may not happen. *)
Definition write_opt (k : string) (w : option val) (o : obj) : obj :=
  match w with
  | Some v => assign k v o
  | None => o
  end.

(** How often [id] occurs in a list of calls. *)
Definition occ (id : nat) (l : list nat) : nat := count_occ Nat.eq_dec l id.

(** The calls whose continuation waits in the job queue. *)
Definition grants (js : list job) : list nat :=
  flat_map (fun j => match j with Grant id => [id] | Forward _ _ => [] end) js.

Definition forwards (js : list job) : list nat :=
  flat_map (fun j => match j with Forward id _ => [id] | Grant _ => [] end) js.

Definition is_settled (ps : list (option outcome)) (id : nat) : bool :=
  match ps !! id with
  | Some (Some _) => true
  | _ => false
  end.

(** Where call [id] stands: once for each place that holds it - behind the
    head of the queue, in the job queue as a granted call or as a reaction
    that is due, with the transport, in wait for a re-issue - and once if its
    promise is settled. *)
Definition tokens (s : growatt) (id : nat) : nat :=
  (occ id (tail (queue s)) + occ id (grants (jobs s))
   + occ id (forwards (jobs s)) + occ id (inflight s)
   + occ id (map snd (reactions s))
   + (if is_settled (promises s) id then 1 else 0))%nat.

(** The outcomes that [resolve] and [reject] of call [id] were called with,
    in order. *)
Fixpoint settlements (id : nat) (t : list event) : list outcome :=
  match t with
  | [] => []
  | Settled i o :: t' =>
      if Nat.eqb i id then o :: settlements id t' else settlements id t'
  | _ :: t' => settlements id t'
  end.

(** The invariant of the client, while the calls of [hand] are being
    handled: every call stands in exactly one place, a reaction waits for a
    pending promise only, and the promise of a call records the one
    settlement that the call has had. *)
Definition Inv (hand : list nat) (s : growatt) : Prop :=
  length (promises s) = length (calls s) /\
  (forall id, (occ id hand + tokens s id)%nat
              = if Nat.ltb id (length (calls s)) then 1%nat else 0%nat) /\
  (forall c p, In (c, p) (reactions s) -> promises s !! c = Some None) /\
  (forall id, settlements id (trace s)
              = match promises s !! id with
                | Some (Some o) => [o]
                | _ => []
                end).


(** Call [a] has posted its request and is still pending, and call [b] has
    posted its request after [a] did. *)
Definition overtakes (s : growatt) (a b : nat) : Prop :=
  promises s !! a = Some None /\
  exists fa fb t1 t2 t3,
    trace s = t1 ++ Posted a fa :: t2 ++ Posted b fb :: t3.


(** The call of a job. *)
Definition job_call (j : job) : nat :=
  match j with
  | Grant id => id
  | Forward id _ => id
  end.

(* ===================================================================== *)
(** ** Tactics *)
(* ===================================================================== *)

Ltac break_match :=
  repeat match goal with
         | |- context [match ?x with _ => _ end] => destruct x eqn:?
         end.

(** Unfolds the computations on [param]. *)
Ltac run_shape := unfold bind, lift, read, write, throw, ret in *.

(** Runs the client on a state that is given field by field; the lists in
    the fields are left as they are. *)
Ltac run_client :=
  cbv beta iota zeta delta
    [handle run_inputs fold_left getInverterSetting setInverterSetting
     comInverter addTask Queue.addTask Queue.executing Queue.taskFinished
     new_call settle forward qsettle taskFinished spawn set_jobs set_queue
     set_reactions set_promises set_inflight set_connected log granted run
     post on_answer on_failure connected registry queue calls promises
     reactions inflight jobs trace];
  cbn [head tail app map].

(** Handles the innermost input of the goal, whose state is given field by
    field: [tac] has to bring the new state into that form. *)
Ltac next_input tac :=
  lazymatch goal with
  | |- context [handle ?pi ?pr ?i (Build_growatt ?a ?b ?c ?d ?e ?f ?g ?h ?k)] =>
      let E := fresh "E" in
      eassert (E : handle pi pr i (Build_growatt a b c d e f g h k) = _);
      [ tac; reflexivity | rewrite E; clear E ]
  end.

(** The same for the innermost call of [comInverter]. *)
Ltac next_call tac :=
  lazymatch goal with
  | |- context [comInverter ?pi ?t ?po (Build_growatt ?a ?b ?c ?d ?e ?f ?g ?h ?k)] =>
      let E := fresh "E" in
      eassert (E : comInverter pi t po (Build_growatt a b c d e f g h k) = _);
      [ tac; reflexivity | rewrite E; clear E ]
  end.

(* ===================================================================== *)
(** ** A small registry to run the client on *)
(* ===================================================================== *)

Module Sample.

(** A registry with one device type, [tlx], and three functions:
    [time] (read with a parser, one declared parameter), [power] (two
    declared parameters, an hour each) and [plain] (no parameter, no
    parser). *)
Definition registry : store :=
  [ (* 0: GROWATTTYPE *)
    [("tlx", VRef 1%nat)];
    (* 1: GROWATTTYPE.tlx *)
    [("readParam", VStr "readTLXParam"); ("writeParam", VStr "tlxSet");
     ("comInverter", VRef 2%nat)];
    (* 2: GROWATTTYPE.tlx.comInverter *)
    [("time", VRef 3%nat); ("power", VRef 6%nat); ("plain", VRef 10%nat)];
    (* 3: the function time *)
    [("name", VStr "Time"); ("type", VStr "pf_sys_year");
     ("paramId", VStr "pf_sys_time_mutli"); ("parseRet", VFun "parseRetDate");
     ("param", VRef 4%nat)];
    (* 4: time.param *)
    [("param1", VRef 5%nat)];
    (* 5: time.param.param1 *)
    [("name", VStr "Time"); ("type", VStr "DATETIME")];
    (* 6: the function power *)
    [("name", VStr "Grid first"); ("type", VStr "tlx_grid_first");
     ("param", VRef 7%nat)];
    (* 7: power.param *)
    [("startHour", VRef 8%nat); ("endHour", VRef 9%nat)];
    (* 8: power.param.startHour *)
    [("name", VStr "Start hour"); ("type", VStr "INUM_0_23")];
    (* 9: power.param.endHour *)
    [("name", VStr "End hour"); ("type", VStr "INUM_0_23")];
    (* 10: the function plain *)
    [("name", VStr "Plain"); ("type", VStr "tlx_plain")] ].

(** Two converters: an integer from 0 to 23, and a text taken as it is. *)
Definition PARSEIN (t : val) : option (val -> val * val) :=
  match t with
  | VStr "INUM_0_23" =>
      Some (fun v =>
              match v with
              | VNum n => (VNum n, VBool ((0 <=? n) && (n <=? 23)))
              | _ => (v, VBool false)
              end)
  | VStr "DATETIME" => Some (fun v => (v, VBool (is_tag TString v)))
  | _ => None
  end.

(** One parser: the field [msg] of the payload. *)
Definition PARSERET (f : string) (d : json) : result val :=
  if String.eqb f "parseRetDate" then Ok (member d "msg")
  else Throw TypeError.

Definition start : growatt := constructor registry.
Definition go (inputs : list input) : growatt :=
  run_inputs PARSEIN PARSERET inputs start.

Definition SN : val := VStr "SN1".

(** The values of a write of [power]. *)
Definition hours (a b : json) : val :=
  VJson [("startHour", a); ("endHour", b)].

Definition power_command : paramorgi :=
  write_command "power" SN (hours (JNum 1) (JNum 2)).

(** The [param] that the [try] block leaves for [power_command]. *)
Definition power_url : obj :=
  [("action", VStr "tlxSet"); ("serialNum", SN);
   ("type", VStr "tlx_grid_first"); ("startHour", VNum 1);
   ("endHour", VNum 2)].

Definition power_call : call :=
  {| c_type := "tlx"; c_paramorgi := with_url power_command power_url;
     c_checkRet := VNull |}.

Definition plain_url : obj :=
  [("action", VStr "tlxSet"); ("serialNum", SN); ("type", VStr "tlx_plain")].

(** A payload without the field [success]. *)
Definition refusal : response :=
  {| data := JObj [("msg", JStr "inverter offline")];
     path := "/tcpSet.do" |}.

(** An explicit failure of the server: [success] is there, and false. *)
Definition failure_ack : response :=
  {| data := JObj [("success", JBool false); ("msg", JStr "501")];
     path := "/tcpSet.do" |}.

(** One write of [power], granted and posted. *)
Definition power_in_flight : growatt :=
  go [Session true;
      CallSet "tlx" "power" SN (hours (JNum 1) (JNum 2)); Tick].

(** A write of [power] posted, a write of [plain] behind it. *)
Definition two_commands : growatt :=
  go [Session true;
      CallSet "tlx" "power" SN (hours (JNum 1) (JNum 2));
      CallSet "tlx" "plain" SN VUndef; Tick].




(** A write of [power] with an end hour out of range. *)
Definition late_command : paramorgi :=
  write_command "power" SN (hours (JNum 1) (JNum 30)).

Definition pending_ack : response :=
  {| data := JObj [("success", JBool true); ("msg", JStr "")];
     path := "/tcpSet.do" |}.

End Sample.


(* ===================================================================== *)
(** ** The session and the plain calls of the portal
       (lines 85-803 and 968-1018) *)
(* ===================================================================== *)

(** The methods of the class that do not go through the command queue:
    the session ([login], [demoLogin], [sharePlantLogin], [logout]), the
    reads of plant and device data, and the commands to a data logger.
    Each of them is [new Promise(executor)] around one request with a
    [then] and a [catch] callback; the three parts are kept apart, since
    other calls may run between the request and its answer.

    Conventions of this part.
    - A decoded response body is a [doc], JSON with arrays.
    - [config.server] is a string, as the constructor leaves it when the
      caller gives none; a [Date] argument is kept as the string that its
      [toISOString()] gives.
    - A function printed as a string (its source text) is outside the
      model: [to_string] is meant for values that are not functions.
    - The callback [lifeSignCallback] is taken to return without touching
      the client. *)

Module Portal.

(** *** Strings *)

(** [s.split(sep)] for a separator of one character. *)
Fixpoint split (sep : ascii) (s : string) : list string :=
  match s with
  | EmptyString => [EmptyString]
  | String c s' =>
      if Ascii.eqb c sep then EmptyString :: split sep s'
      else match split sep s' with
           | h :: t => String c h :: t
           | [] => [String c EmptyString]
           end
  end.

(** No character of [s] is [ch]. *)
Fixpoint free_of (ch : ascii) (s : string) : bool :=
  match s with
  | EmptyString => true
  | String c s' => negb (Ascii.eqb c ch) && free_of ch s'
  end.

(** ToString, as a template literal, a computed property key and [+] with a
    string apply it.  Numbers are integers below 10^21 in magnitude. *)
Definition to_string (v : val) : string :=
  match v with
  | VUndef => "undefined"
  | VNull => "null"
  | VBool true => "true"
  | VBool false => "false"
  | VNum n => NilZero.string_of_int (Z.to_int n)
  | VStr s => s
  | VFun f => f
  | VRef _ | VJson _ | VProto => "[object Object]"
  end.

(** [v.toString()]: there is no such method on [undefined] and [null]. *)
Definition toString (v : val) : result string :=
  match v with
  | VUndef | VNull => Throw TypeError
  | _ => Ok (to_string v)
  end.

(** [v.split(sep)]: only a string has the method. *)
Definition split_of (sep : ascii) (v : val) : result (list string) :=
  match v with
  | VStr s => Ok (split sep s)
  | _ => Throw TypeError
  end.

(** [l[i]] for an array of strings. *)
Definition item (i : nat) (l : list string) : val :=
  match l !! i with
  | Some s => VStr s
  | None => VUndef
  end.

(** [a === b].  An object given by value is a fresh object: it is
    identical to nothing else. *)
Definition strict_eq (a b : val) : bool :=
  match a, b with
  | VUndef, VUndef | VNull, VNull => true
  | VBool x, VBool y => Bool.eqb x y
  | VNum x, VNum y => x =? y
  | VStr x, VStr y => String.eqb x y
  | VFun x, VFun y => String.eqb x y
  | VRef x, VRef y => Nat.eqb x y
  | VProto, VProto => true
  | _, _ => false
  end.

(** A parameter with a default value, [p = d]. *)
Definition or_default (d v : val) : val :=
  if is_tag TUndefined v then d else v.

(** An object literal: its properties are defined in order, a key that
    comes again takes the new value at its first place. *)
Definition literal (l : list (string * val)) : obj :=
  fold_left (fun o kv => assign (fst kv) (snd kv) o) l [].

(** *** Response bodies *)

Inductive doc : Type :=
  | DNull
  | DBool (b : bool)
  | DNum (n : Z)
  | DStr (s : string)
  | DArr (items : list doc)
  | DObj (fields : list (string * doc)).

Definition truthy_doc (d : doc) : bool :=
  match d with
  | DNull => false
  | DBool b => b
  | DNum n => negb (n =? 0)
  | DStr s => negb (String.eqb s "")
  | DArr _ | DObj _ => true
  end.

(** [d.k] for a [d] that is not null and a key [k] that is neither
    [length] nor an index; [None] is [undefined]. *)
Definition prop (k : string) (d : doc) : option doc :=
  match d with
  | DObj fs => assoc k fs
  | _ => None
  end.

(** [d[0]]. *)
Definition index0 (d : doc) : option doc :=
  match d with
  | DArr (x :: _) => Some x
  | DStr (String c _) => Some (DStr (String c EmptyString))
  | DObj fs => assoc "0" fs
  | _ => None
  end.

(** ToBoolean of a property that may be [undefined]. *)
Definition truthy_prop (p : option doc) : bool :=
  match p with
  | Some d => truthy_doc d
  | None => false
  end.

(** [typeof p !== 'undefined']. *)
Definition defined (p : option doc) : bool :=
  match p with
  | Some _ => true
  | None => false
  end.

(** [p === 1]. *)
Definition is_one (p : option doc) : bool :=
  match p with
  | Some (DNum 1) => true
  | _ => false
  end.

(** [Array.isArray(d)] and [typeof d === 'object']. *)
Definition isArray (d : doc) : bool :=
  match d with
  | DArr _ => true
  | _ => false
  end.

Definition is_object (d : doc) : bool :=
  match d with
  | DNull | DArr _ | DObj _ => true
  | _ => false
  end.

(** The axios response: [res.data], [res.request.path] and
    [res.headers['set-cookie']]. *)
Record reply : Type := {
  body : doc;
  request_path : string;
  set_cookie : option (list string);
}.

(** What the transport makes of a request. *)
Inductive arrival : Type :=
  | Arrived (res : reply)
  | Failed (e : val).

(** *** The client *)

(** The fields of the instance that these methods read and write. *)
Record client : Type := {
  server : string;          (* this.config.server *)
  indexCandI : val;         (* this.config.indexCandI *)
  lifeSignCallback : val;
  connected : bool;
  cookie : string;
}.

Definition with_connected (b : bool) (c : client) : client :=
  {| server := server c; indexCandI := indexCandI c;
     lifeSignCallback := lifeSignCallback c; connected := b;
     cookie := cookie c |}.

Definition with_cookie (s : string) (c : client) : client :=
  {| server := server c; indexCandI := indexCandI c;
     lifeSignCallback := lifeSignCallback c; connected := connected c;
     cookie := s |}.

(** The life sign of [c] can be given: the callback is missing, or it is
    a function. *)
Definition signs (c : client) : Prop :=
  truthy (lifeSignCallback c) = false \/ exists f, lifeSignCallback c = VFun f.

Inductive verb : Type := GET | POST.

(** A request handed to axios: the body is [URLSearchParams(form)], kept as
    the object [form] it is built from. *)
Record request : Type := {
  how : verb;
  url : string;
  form : option obj;
  headers : obj;
}.

(** How a promise is settled: [resolve(d)], [reject(new
    Error(JSON.stringify(d, ...)))] and [reject(e)]. *)
Inductive verdict : Type :=
  | Resolved (d : doc)
  | Refused (d : doc)
  | Rejected (e : exn).

(** What a call does beside changing the client, in order. *)
Inductive effect : Type :=
  | LifeSign (f : string)
  | Sent (q : request)
  | Called (v : verdict).

(** Lines 85-87. *)
Definition getUrl (path : val) (c : client) : string :=
  (server c ++ to_string path)%string.

(** Lines 89-91. *)
Definition getIndex (c : client) : string :=
  if truthy (indexCandI c) then "indexbC" else "index".

(** Lines 97-108; [[, session] = val.split('=')] takes the second part, or
    [undefined]. *)
Definition extractSession (c : client) : val :=
  if truthy (VStr (cookie c)) then
    fold_left
      (fun session v =>
         if String.prefix "JSESSIONID" v then item 1 (split "=" v)
         else session)
      (split ";" (cookie c)) (VStr "")
  else VStr "".

(** Lines 115-127. *)
Definition makeCallHeader (login : val) (c : client) : obj :=
  let head :=
    [("User-Agent",
      VStr "Mozilla/5.0 (Windows NT 10.0; Win64; x64) AppleWebKit/537.36 (KHTML, like Gecko) Chrome/104.0.0.0 Safari/537.36");
     ("Connection", VStr "keep-alive")] in
  if truthy login then head
  else
    assign "Referer"
      (VStr (server c ++ "/" ++ getIndex c ++ ";jsessionid="
             ++ to_string (extractSession c))%string)
      (assign "cookie" (VStr (cookie c)) head).

(** *** Computations of a call *)

(** A piece of an executor or of a callback: it changes the client, has
    effects, and returns or throws. *)
Definition E (A : Type) : Type := client -> client * list effect * result A.

Definition ret {A : Type} (a : A) : E A := fun c => (c, [], Ok a).
Definition throw {A : Type} (e : exn) : E A := fun c => (c, [], Throw e).
Definition lift {A : Type} (x : result A) : E A := fun c => (c, [], x).

Definition bind {A B : Type} (m : E A) (k : A -> E B) : E B :=
  fun c =>
    match m c with
    | (c', t, Ok a) =>
        match k a c' with
        | (c'', t', x) => (c'', t ++ t', x)
        end
    | (c', t, Throw e) => (c', t, Throw e)
    end.

Notation "'do!' x ':=' m 'in' k" := (bind m (fun x => k))
  (at level 10, x name, m at level 100, k at level 200,
   format "'[v' 'do!'  x  ':='  m  'in' '/' k ']'").

Notation "m ';;' k" := (bind m (fun _ => k))
  (at level 100, k at level 200, right associativity,
   format "'[v' m  ';;' '/' k ']'").

Definition this : E client := fun c => (c, [], Ok c).
Definition emit (e : effect) : E unit := fun c => (c, [e], Ok tt).
Definition set_connected (b : bool) : E unit :=
  fun c => (with_connected b c, [], Ok tt).
Definition set_cookie_to (s : string) : E unit :=
  fun c => (with_cookie s c, [], Ok tt).

Definition resolve (d : doc) : E unit := emit (Called (Resolved d)).
Definition refuse (d : doc) : E unit := emit (Called (Refused d)).
Definition reject (e : exn) : E unit := emit (Called (Rejected e)).

(** [if (this.lifeSignCallback) this.lifeSignCallback();] *)
Definition lifeSign : E unit :=
  do! c := this in
  if truthy (lifeSignCallback c) then
    match lifeSignCallback c with
    | VFun f => emit (LifeSign f)
    | _ => throw TypeError
    end
  else ret tt.

(** [this.axios.post(this.#getUrl(path), params.toString(),
    { headers: this.makeCallHeader(login) })] and the same for [get]. *)
Definition send (m : verb) (path : val) (params : option obj) (login : val)
    : E unit :=
  do! c := this in
  emit (Sent {| how := m; url := getUrl path c; form := params;
                headers := makeCallHeader login c |}).

(** The last branch of every [then] callback, as lines 155-159. *)
Definition unexpected (res : reply) : E unit :=
  if includes "errorMess" (request_path res) then
    reject (Unexpected (request_path res))
  else reject UnexpectedFatal.

(** The branches of a [then] callback on [res.data.result], as lines
    309-322: [success] is what the first branch does. *)
Definition by_result (success : E unit) (res : reply) : E unit :=
  let d := body res in
  if truthy_doc d && truthy_prop (prop "result" d) && is_one (prop "result" d)
  then success
  else if truthy_doc d && truthy_prop (prop "result" d) then refuse d
  else unexpected res.

(** The [catch] callback of the reads and of the data logger commands, as
    lines 324-328, and that of the session methods, as lines 162-165. *)
Definition disconnect (e : exn) : E unit :=
  set_connected false ;; reject e.

(** One method: the executor of its promise and the callbacks of its
    request. *)
Record method : Type := {
  executor : E unit;
  on_then : reply -> E unit;
  on_catch : exn -> E unit;
}.

(** [new Promise(executor)]: what the executor throws rejects the
    promise. *)
Definition begin (m : method) (c : client) : client * list effect :=
  match executor m c with
  | (c', t, Ok _) => (c', t)
  | (c', t, Throw e) => (c', t ++ [Called (Rejected e)])
  end.

(** [.then(on_then).catch(on_catch)] when the request comes back: what
    [on_then] throws goes to [on_catch]. *)
Definition complete (m : method) (a : arrival) (c : client)
    : client * list effect :=
  match a with
  | Failed e =>
      match on_catch m (Thrown e) c with
      | (c', t, _) => (c', t)
      end
  | Arrived res =>
      match on_then m res c with
      | (c', t, Ok _) => (c', t)
      | (c', t, Throw e) =>
          match on_catch m e c' with
          | (c'', t', _) => (c'', t ++ t')
          end
      end
  end.

(** The requests among the effects. *)
Fixpoint requests (t : list effect) : list request :=
  match t with
  | [] => []
  | Sent q :: t' => q :: requests t'
  | _ :: t' => requests t'
  end.

(** The state of the promise after the effects [t]: the first call of
    [resolve] or [reject] settles it. *)
Fixpoint settled (t : list effect) : option verdict :=
  match t with
  | [] => None
  | Called v :: _ => Some v
  | _ :: t' => settled t'
  end.

(** *** The session (lines 135-259) *)

Definition OK : doc := DObj [("result", DNum 1); ("msg", DStr "OK")].

(** [res.headers['set-cookie'].toString()]. *)
Definition cookies_of (res : reply) : result string :=
  match set_cookie res with
  | Some l => Ok (String.concat "," l)
  | None => Throw TypeError
  end.

(** Lines 135-167. *)
Definition login (user password : val) : method :=
  {| executor :=
       let params :=
         literal [("account", user); ("password", password);
                  ("validateCode", VStr "")] in
       set_connected false ;;
       lifeSign ;;
       send POST (VStr "/login") (Some params) (VBool true);
     on_then := fun res =>
       by_result
         (do! ck := lift (cookies_of res) in
          set_cookie_to ck ;;
          set_connected true ;;
          resolve (body res))
         res;
     on_catch := reject |}.

(** The [then] callback of [demoLogin] and [sharePlantLogin], lines
    176-192 and 213-228. *)
Definition session_from_cookie (res : reply) : E unit :=
  do! ck := lift (cookies_of res) in
  set_cookie_to ck ;;
  if includes "JSESSIONID" ck then
    set_connected true ;;
    resolve OK
  else unexpected res.

(** Lines 169-198. *)
Definition demoLogin : method :=
  {| executor :=
       set_connected false ;;
       lifeSign ;;
       send GET (VStr "/login/toViewExamlePlant") None (VBool true);
     on_then := session_from_cookie;
     on_catch := reject |}.

(** Lines 200-234; the options [validateStatus] and [maxRedirects] of the
    request are not kept. *)
Definition sharePlantLogin (key : val) : method :=
  {| executor :=
       set_connected false ;;
       lifeSign ;;
       send GET (VStr ("/login/toSharePlant/" ++ to_string key)%string) None
         (VBool true);
     on_then := session_from_cookie;
     on_catch := reject |}.

(** Lines 241-259. *)
Definition logout : method :=
  {| executor :=
       lifeSign ;;
       send GET (VStr "/logout") None VUndef;
     on_then := fun _ =>
       set_cookie_to "" ;;
       set_connected false ;;
       resolve OK;
     on_catch := reject |}.

(** *** Plants and devices (lines 265-486) *)

(** The executor of a read: the life sign, then the POST. *)
Definition plain_post (path : string) (params : option obj) : E unit :=
  lifeSign ;;
  send POST (VStr path) params VUndef.

(** Lines 265-292. *)
Definition getPlantList : method :=
  {| executor :=
       do! c := this in
       plain_post ("/" ++ getIndex c ++ "/getPlantListTitle")%string None;
     on_then := fun res =>
       if isArray (body res) then resolve (body res)
       else set_connected false ;; unexpected res;
     on_catch := disconnect |}.

(** Lines 300-330. *)
Definition getDevicesByPlantList (plantId currPage : val) : method :=
  {| executor :=
       plain_post "/panel/getDevicesByPlantList"
         (Some (literal [("plantId", plantId);
                         ("currPage", or_default (VNum 1) currPage)]));
     on_then := fun res => by_result (resolve (body res)) res;
     on_catch := disconnect |}.

(** Lines 337-367. *)
Definition getPlantData (plantId : val) : method :=
  {| executor :=
       plain_post "/panel/getPlantData" (Some (literal [("plantId", plantId)]));
     on_then := fun res => by_result (resolve (body res)) res;
     on_catch := disconnect |}.

(** Line 378: [4 - date.toString().split("-").length]. *)
Definition fault_log_type (date : val) : result Z :=
  match toString date with
  | Ok s => Ok (4 - Z.of_nat (length (split "-" s)))
  | Throw e => Throw e
  end.

(** Lines 376-412. *)
Definition getPlantFaultLog (plantId date deviceSn : val) : method :=
  {| executor :=
       do! type := lift (fault_log_type date) in
       plain_post "/log/getNewPlantFaultLog"
         (Some (literal [("plantId", plantId); ("date", date);
                         ("deviceSn", or_default (VStr "") deviceSn);
                         ("toPageNum", VNum 1); ("type", VNum type)]));
     on_then := fun res => by_result (resolve (body res)) res;
     on_catch := disconnect |}.

(** Lines 419-449. *)
Definition getWeatherByPlantId (plantId : val) : method :=
  {| executor :=
       let params := literal [("plantId", plantId)] in
       do! c := this in
       plain_post ("/" ++ getIndex c ++ "/getWeatherByPlantId")%string (Some params);
     on_then := fun res => by_result (resolve (body res)) res;
     on_catch := disconnect |}.

(** Lines 456-486. *)
Definition getDevicesByPlant (plantId : val) : method :=
  {| executor :=
       plain_post "/panel/getDevicesByPlant" (Some (literal [("plantId", plantId)]));
     on_then := fun res => by_result (resolve (body res)) res;
     on_catch := disconnect |}.

(** *** Data of a device (lines 496-746) *)

Section Devices.

(** The registry [GROWATTTYPE] lives in the store [r]. *)
Variable r : store.

(** [new Date().toISOString()], the [n]-th time that a callback evaluates
    it, and [new Date(year, month, dayOfMonth, hourOfDay, minute,
    second).toISOString()], which throws for a date that is not valid. *)
Variable clock : nat -> string.
Variable Date_toISOString : doc -> doc -> doc -> doc -> doc -> doc -> result string.

(** [JSON.stringify] of an array of objects. *)
Variable JSON_stringify : list obj -> string.

(** [GROWATTTYPE[type].k]. *)
Definition entry (type k : string) : result val :=
  match get r GROWATTTYPE type with
  | Ok gt => get r gt k
  | Throw e => Throw e
  end.

(** The executor of [getTotalData], lines 498-511. *)
Definition getTotalData_executor (type : string) (plantId sn invId : val)
    : E unit :=
  do! splitID := lift (split_of "_" sn) in
  do! addrParam := lift (entry type "addrParam") in
  do! both :=
    (if truthy addrParam then
       do! invIdParam := lift (entry type "invIdParam") in
       ret (truthy invIdParam)
     else ret false) in
  do! params :=
    (if both then
       do! snParam := lift (entry type "snParam") in
       do! addrParam := lift (entry type "addrParam") in
       do! invIdParam := lift (entry type "invIdParam") in
       ret (literal [("plantId", plantId);
                     (to_string snParam, item 0 splitID);
                     (to_string addrParam, item 1 splitID);
                     (to_string invIdParam, or_default (VStr "") invId)])
     else
       do! snParam := lift (entry type "snParam") in
       ret (literal [("plantId", plantId); (to_string snParam, sn)])) in
  lifeSign ;;
  do! path := lift (entry type "getTotalData") in
  send POST path (Some params) VUndef.

(** Lines 496-535. *)
Definition getTotalData (type : string) (plantId sn invId : val) : method :=
  {| executor := getTotalData_executor type plantId sn invId;
     on_then := fun res => by_result (resolve (body res)) res;
     on_catch := disconnect |}.

(** The function [makeTime] of [correctTime], lines 999-1011; [n] counts
    the readings of the clock. *)
Definition makeTime (n : nat) (time : doc) : result (nat * string) :=
  match time with
  | DNull => Throw TypeError
  | _ =>
      match prop "year" time, prop "month" time, prop "dayOfMonth" time,
            prop "hourOfDay" time, prop "minute" time, prop "second" time with
      | Some y, Some m, Some d, Some h, Some mi, Some s =>
          match Date_toISOString y m d h mi s with
          | Ok iso => Ok (n, iso)
          | Throw e => Throw e
          end
      | _, _, _, _, _, _ => Ok (S n, clock n)
      end
  end.

(** [if (typeof struct.k !== 'undefined') struct.k = makeTime(struct.k)]
    on the properties [fs] of [struct]. *)
Definition correct (k : string) (n : nat) (fs : list (string * doc))
    : result (nat * list (string * doc)) :=
  match assoc k fs with
  | Some time =>
      match makeTime n time with
      | Ok (n', iso) => Ok (n', assign k (DStr iso) fs)
      | Throw e => Throw e
      end
  | None => Ok (n, fs)
  end.

(** Lines 998-1018. *)
Definition correctTime (n : nat) (struct : doc) : result (nat * doc) :=
  match struct with
  | DNull => Throw TypeError
  | DObj fs =>
      match correct "time" n fs with
      | Ok (n1, fs1) =>
          match correct "calendar" n1 fs1 with
          | Ok (n2, fs2) => Ok (n2, DObj fs2)
          | Throw e => Throw e
          end
      | Throw e => Throw e
      end
  | _ => Ok (n, struct)
  end.

(** [datas.forEach(data => this.correctTime(data))] on the items of an
    array. *)
Fixpoint correctTimes (n : nat) (items : list doc) : result (list doc) :=
  match items with
  | [] => Ok []
  | x :: items' =>
      match correctTime n x with
      | Ok (n', x') =>
          match correctTimes n' items' with
          | Ok l => Ok (x' :: l)
          | Throw e => Throw e
          end
      | Throw e => Throw e
      end
  end.

(** Lines 566-581, the branch of [res.data.result === 1]. *)
Definition history_datas (allDatasets : val) (res : reply) : E unit :=
  let obj := prop "obj" (body res) in
  let datas :=
    match obj with
    | Some o => if truthy_doc o then prop "datas" o else None
    | None => None
    end in
  match datas with
  | Some ds =>
      if truthy_doc ds && truthy_prop (index0 ds) then
        if truthy allDatasets then
          match ds with
          | DArr items =>
              do! l := lift (correctTimes 0 items) in
              resolve (DArr l)
          | _ => throw TypeError
          end
        else
          match index0 ds with
          | Some d0 =>
              do! d := lift (correctTime 0 d0) in
              resolve (snd d)
          | None => resolve (DObj [])
          end
      else resolve (DObj [])
  | None => resolve (DObj [])
  end.

(** The executor of [getHistory], lines 550-563. *)
Definition getHistory_executor (type : string) (sn : val)
    (startDate endDate : string) (start : val) : E unit :=
  do! supported := lift (entry type "getHistory") in
  if negb (truthy supported) then
    reject (Thrown (VStr "This device type doesn't support history"))
  else
    do! snParam := lift (entry type "snParam") in
    let params :=
      literal [(to_string snParam, sn);
               ("startDate", VStr (substring 0 10 startDate));
               ("endDate", VStr (substring 0 10 endDate));
               ("start", start)] in
    lifeSign ;;
    do! path := lift (entry type "getHistory") in
    send POST path (Some params) VUndef.

(** Lines 547-601. *)
Definition getHistory (type : string) (sn : val) (startDate endDate : string)
    (start allDatasets : val) : method :=
  {| executor := getHistory_executor type sn startDate endDate start;
     on_then := fun res => by_result (history_datas allDatasets res) res;
     on_catch := disconnect |}.

(** Lines 625-663. *)
Definition getDeviceDayChart (plantId deviceSn : val) (date : string)
    (param : val) : method :=
  {| executor :=
       plain_post "/energy/compare/getDevicesDayChart"
         (Some (literal
                  [("plantId", plantId); ("date", VStr date);
                   ("jsonData",
                    VStr (JSON_stringify
                            [literal [("type", VStr "plant"); ("sn", deviceSn);
                                      ("params", param)]]))]));
     on_then := fun res => by_result (resolve (body res)) res;
     on_catch := disconnect |}.

(** The executor of [getStatusData], lines 670-677. *)
Definition getStatusData_executor (type : string) (plantId sn : val)
    : E unit :=
  do! splitSn := lift (split_of "_" sn) in
  do! addrParam := lift (entry type "addrParam") in
  do! params :=
    (if truthy addrParam then
       do! snParam := lift (entry type "snParam") in
       do! addrParam := lift (entry type "addrParam") in
       ret (literal [("plantId", plantId);
                     (to_string snParam, item 0 splitSn);
                     (to_string addrParam, item 1 splitSn)])
     else
       do! snParam := lift (entry type "snParam") in
       ret (literal [("plantId", plantId); (to_string snParam, sn)])) in
  lifeSign ;;
  do! path := lift (entry type "getStatusData") in
  send POST path (Some params) VUndef.

(** Lines 668-701. *)
Definition getStatusData (type : string) (plantId sn : val) : method :=
  {| executor := getStatusData_executor type plantId sn;
     on_then := fun res => by_result (resolve (body res)) res;
     on_catch := disconnect |}.

(** The executor of [getEnergyDay], lines 713-722: the [if] of line 713
    has no [else] and does not return. *)
Definition getEnergyDay_executor (type : string) (date plantId deviceSn : val)
    : E unit :=
  do! supported := lift (entry type "getEnergyDay") in
  (if negb (truthy supported) then
     reject (Thrown (VStr "Not implmented yet or not available for this type of device"))
   else ret tt) ;;
  let params :=
    literal [("date", date); ("plantId", plantId); ("mixSn", deviceSn)] in
  lifeSign ;;
  do! path := lift (entry type "getEnergyDay") in
  send POST path (Some params) VUndef.

(** Lines 711-746. *)
Definition getEnergyDay (type : string) (date plantId deviceSn : val) : method :=
  {| executor := getEnergyDay_executor type date plantId deviceSn;
     on_then := fun res => by_result (resolve (body res)) res;
     on_catch := disconnect |}.

(** *** The chart of a device (lines 603-623) *)

(** [encodeURIComponent(JSON.stringify(v))] for the values that
    [getDeviceChart] puts into cookies: an array of objects, or a value. *)
Inductive crumb : Type :=
  | Pairs (l : list obj)
  | Plain (v : val).

Variable encodeURIComponent_JSON : crumb -> string.

(** Lines 609-612: the body of the loop over [extraCookies]. *)
Definition add_cookie (ck : string) (kv : string * crumb) : string :=
  if includes (fst kv) ck then ck
  else (ck ++ "," ++ fst kv ++ "=" ++ encodeURIComponent_JSON (snd kv)
        ++ "; Path=/")%string.

(** The cookie after the loop of lines 609-612 over the three entries of
    [extraCookies]. *)
Definition baked (ck : string) (a b d : crumb) : string :=
  fold_left add_cookie
    [("memoryDeviceType", a); ("memoryDeviceSn", b); ("selectedPlantId", d)]
    ck.

(** [GROWATTTYPE.CHART_TIMEFRAME.k] and [GROWATTTYPE.CHART_PARAM.k]. *)
Definition constant (table k : string) : result val :=
  match get r GROWATTTYPE table with
  | Ok t => get r t k
  | Throw e => Throw e
  end.

(** [p = d] for a default [d] that is evaluated when it is needed. *)
Definition or_default_of (d : result val) (v : val) : result val :=
  if is_tag TUndefined v then d else Ok v.

(** Lines 603-623.  What the function throws is thrown to its caller; it
    returns the promise of [#getDeviceDayChart], or [undefined]: the
    methods [#getDeviceMonthChart], [#getDeviceYearChart] and
    [#getDeviceTotalChart] (lines 664-666) have empty bodies. *)
Definition getDeviceChart (device : val) (date : string)
    (timeframe param : val) : E (option method) :=
  do! timeframe :=
    lift (or_default_of (constant "CHART_TIMEFRAME" "DAY") timeframe) in
  do! param := lift (or_default_of (constant "CHART_PARAM" "ENERGY") param) in
  do! plantId := lift (get r device "plantId") in
  do! deviceTypeName := lift (get r device "deviceTypeName") in
  do! sn := lift (get r device "sn") in
  let extraCookies :=
    [("memoryDeviceType",
      Pairs [literal [("key", plantId); ("value", deviceTypeName)]]);
     ("memoryDeviceSn",
      Pairs [literal
               [("key", plantId);
                ("value",
                 VStr (to_string deviceTypeName ++ "%" ++ to_string sn)%string)]]);
     ("selectedPlantId", Plain plantId)] in
  do! c := this in
  set_cookie_to (fold_left add_cookie extraCookies (cookie c)) ;;
  do! DAY := lift (constant "CHART_TIMEFRAME" "DAY") in
  if strict_eq timeframe DAY then
    ret (Some (getDeviceDayChart plantId sn (substring 0 10 date) param))
  else
    do! MONTH := lift (constant "CHART_TIMEFRAME" "MONTH") in
    if strict_eq timeframe MONTH then ret None
    else
      do! YEAR := lift (constant "CHART_TIMEFRAME" "YEAR") in
      if strict_eq timeframe YEAR then ret None
      else
        do! TOTAL := lift (constant "CHART_TIMEFRAME" "TOTAL") in
        if strict_eq timeframe TOTAL then ret None
        else ret None.

(** *** Data loggers (lines 748-803 and 968-995) *)

(** Lines 773-803. *)
Definition comDataLogger (param : obj) : method :=
  {| executor := plain_post "/ftp.do" (Some param);
     on_then := fun res =>
       let d := body res in
       if truthy_doc d && defined (prop "success" d) then resolve d
       else if truthy_doc d then refuse d
       else unexpected res;
     on_catch := disconnect |}.

(** [LOGGERFUNCTION.REGISTER], line 42. *)
Definition LOGGERFUNCTION_REGISTER : val := VNum 0.

(** Lines 748-751. *)
Definition getDataLoggerRegister (dataLogSn addr : val) : method :=
  comDataLogger
    (literal [("action", VStr "readDatalogParam"); ("dataLogSn", dataLogSn);
              ("paramType", VStr "set_any_reg"); ("addr", addr)]).

(** Lines 753-756. *)
Definition setDataLoggerRegister (dataLogSn addr value : val) : method :=
  comDataLogger
    (literal [("action", VStr "setDatalogParam"); ("dataLogSn", dataLogSn);
              ("paramType", LOGGERFUNCTION_REGISTER); ("param_1", addr);
              ("param_2", value)]).

(** Lines 758-761. *)
Definition setDataLoggerParam (dataLogSn paramType value : val) : method :=
  comDataLogger
    (literal [("action", VStr "setDatalogParam"); ("dataLogSn", dataLogSn);
              ("paramType", paramType); ("param_1", value);
              ("param_2", VStr "")]).

(** Lines 763-766. *)
Definition setDataLoggerRestart (dataLogSn : val) : method :=
  comDataLogger
    (literal [("action", VStr "restartDatalog"); ("dataLogSn", dataLogSn)]).

(** Lines 768-771. *)
Definition checkDataLoggerFirmware (type version : val) : method :=
  comDataLogger
    (literal [("action", VStr "checkFirmwareVersion");
              ("deviceTypeIndicate", type); ("firmwareVersion", version)]).

(** Lines 968-995. *)
Definition getDataLogger (plantId currPage : val) : method :=
  {| executor :=
       plain_post "/device/getDatalogList"
         (Some (literal [("datalogSn", VStr ""); ("plantId", plantId);
                         ("currPage", or_default (VNum 1) currPage)]));
     on_then := fun res =>
       if truthy_doc (body res) && is_object (body res) then
         resolve (body res)
       else unexpected res;
     on_catch := disconnect |}.

(** *** The methods, one by one *)

Inductive op : Type :=
  | Login (user password : val)
  | DemoLogin
  | SharePlantLogin (key : val)
  | Logout
  | GetPlantList
  | GetDevicesByPlantList (plantId currPage : val)
  | GetPlantData (plantId : val)
  | GetPlantFaultLog (plantId date deviceSn : val)
  | GetWeatherByPlantId (plantId : val)
  | GetDevicesByPlant (plantId : val)
  | GetTotalData (type : string) (plantId sn invId : val)
  | GetHistory (type : string) (sn : val) (startDate endDate : string)
      (start allDatasets : val)
  | GetDeviceDayChart (plantId deviceSn : val) (date : string) (param : val)
  | GetStatusData (type : string) (plantId sn : val)
  | GetEnergyDay (type : string) (date plantId deviceSn : val)
  | GetDataLoggerRegister (dataLogSn addr : val)
  | SetDataLoggerRegister (dataLogSn addr value : val)
  | SetDataLoggerParam (dataLogSn paramType value : val)
  | SetDataLoggerRestart (dataLogSn : val)
  | CheckDataLoggerFirmware (type version : val)
  | GetDataLogger (plantId currPage : val).

Definition method_of (o : op) : method :=
  match o with
  | Login user password => login user password
  | DemoLogin => demoLogin
  | SharePlantLogin key => sharePlantLogin key
  | Logout => logout
  | GetPlantList => getPlantList
  | GetDevicesByPlantList plantId currPage =>
      getDevicesByPlantList plantId currPage
  | GetPlantData plantId => getPlantData plantId
  | GetPlantFaultLog plantId date deviceSn =>
      getPlantFaultLog plantId date deviceSn
  | GetWeatherByPlantId plantId => getWeatherByPlantId plantId
  | GetDevicesByPlant plantId => getDevicesByPlant plantId
  | GetTotalData type plantId sn invId => getTotalData type plantId sn invId
  | GetHistory type sn startDate endDate start allDatasets =>
      getHistory type sn startDate endDate start allDatasets
  | GetDeviceDayChart plantId deviceSn date param =>
      getDeviceDayChart plantId deviceSn date param
  | GetStatusData type plantId sn => getStatusData type plantId sn
  | GetEnergyDay type date plantId deviceSn =>
      getEnergyDay type date plantId deviceSn
  | GetDataLoggerRegister dataLogSn addr =>
      getDataLoggerRegister dataLogSn addr
  | SetDataLoggerRegister dataLogSn addr value =>
      setDataLoggerRegister dataLogSn addr value
  | SetDataLoggerParam dataLogSn paramType value =>
      setDataLoggerParam dataLogSn paramType value
  | SetDataLoggerRestart dataLogSn => setDataLoggerRestart dataLogSn
  | CheckDataLoggerFirmware type version =>
      checkDataLoggerFirmware type version
  | GetDataLogger plantId currPage => getDataLogger plantId currPage
  end.

(** The methods that open or close the session. *)
Definition is_session (o : op) : bool :=
  match o with
  | Login _ _ | DemoLogin | SharePlantLogin _ | Logout => true
  | _ => false
  end.

Definition is_login (o : op) : bool :=
  match o with
  | Login _ _ | DemoLogin | SharePlantLogin _ => true
  | _ => false
  end.

End Devices.

(** *** All data loggers (lines 934-966) *)

(** [getDataLoggers] is an [async] function that awaits one call after the
    other.  It is run on the answers of the transport to its requests, in
    the order of the requests; no other call of the client is taken to run
    in between.  Where a step depends on a conversion of the engine that
    is not modelled - [+=] and [<] on values that are not numbers, an id
    that is an array or an object - the run is [Outside]. *)
Inductive progress : Type :=
  | Done (v : verdict)  (* the promise is settled *)
  | Waiting             (* the answer to the last request has not come *)
  | Dead                (* the function has thrown with the promise pending:
                           nothing settles it any more *)
  | Outside.

(** The effects of an awaited call that show outside: its [resolve] and
    [reject] settle its own promise. *)
Fixpoint outward (t : list effect) : list effect :=
  match t with
  | [] => []
  | Called _ :: t' => outward t'
  | e :: t' => e :: outward t'
  end.

(** A value of an answer as the argument of a call. *)
Definition argument (p : option doc) : option val :=
  match p with
  | None => Some VUndef
  | Some DNull => Some VNull
  | Some (DBool b) => Some (VBool b)
  | Some (DNum n) => Some (VNum n)
  | Some (DStr s) => Some (VStr s)
  | Some (DArr _) | Some (DObj _) => None
  end.

(** [curPage += 1] and [a < b], on numbers. *)
Definition add1 (d : doc) : option doc :=
  match d with
  | DNum n => Some (DNum (n + 1))
  | _ => None
  end.

Definition less (a b : option doc) : option bool :=
  match a, b with
  | Some (DNum x), Some (DNum y) => Some (x <? y)
  | _, _ => None
  end.

(** [loggers.concat(d)]: an array is spread, any other value is added as
    one item. *)
Definition concat (loggers : list doc) (d : doc) : list doc :=
  match d with
  | DArr items => loggers ++ items
  | _ => loggers ++ [d]
  end.

(** Where the loop over the pages of a plant stands when it is left in
    the regular way. *)
Record turn : Type := {
  loggers : list doc;
  unread : list arrival;
  self : client;
  seen : list effect;
}.

(** Lines 946-960, the [do ... while] loop for one plant: [curPage] is the
    value of the variable when the body is entered, [t] holds the effects so
    far.  When the awaited call is rejected, the [catch] callback rejects
    the promise and returns nothing, and line 953 throws. *)
Fixpoint pages (arrivals : list arrival) (plantId : val) (curPage : doc)
    (loggers : list doc) (c : client) (t : list effect)
    : turn + client * list effect * progress :=
  match add1 curPage with
  | None => inr (c, t, Outside)
  | Some page =>
      match argument (Some page) with
      | None => inr (c, t, Outside)
      | Some pagev =>
          let m := getDataLogger plantId pagev in
          match begin m c with
          | (c1, t1) =>
              match requests t1, arrivals with
              | [], _ =>
                  inr (c1, t ++ outward t1,
                       match settled t1 with
                       | Some v => Done v
                       | None => Waiting
                       end)
              | _ :: _, [] => inr (c1, t ++ outward t1, Waiting)
              | _ :: _, a :: rest =>
                  match complete m a c1 with
                  | (c2, t2) =>
                      let t' := t ++ outward t1 ++ outward t2 in
                      match settled (t1 ++ t2) with
                      | Some (Resolved res) =>
                          let loggers' :=
                            match prop "datas" res with
                            | Some d =>
                                if truthy_doc d then concat loggers d
                                else loggers
                            | None => loggers
                            end in
                          let leave :=
                            inl {| loggers := loggers'; unread := rest;
                                   self := c2; seen := t' |} in
                          if truthy_prop (prop "currPage" res)
                             && truthy_prop (prop "pages" res) then
                            match less (prop "currPage" res)
                                    (prop "pages" res),
                                  prop "currPage" res with
                            | Some true, Some currPage =>
                                pages rest plantId currPage loggers' c2 t'
                            | Some false, _ => leave
                            | _, _ => inr (c2, t', Outside)
                            end
                          else leave
                      | Some v => inr (c2, t', Done v)
                      | None => inr (c2, t', Waiting)
                      end
                  end
              end
          end
      end
  end.

(** Lines 943-961, the loop over the plants, and line 963. *)
Fixpoint plants_loop (plants : list doc) (arrivals : list arrival)
    (loggers : list doc) (c : client) (t : list effect)
    : client * list effect * progress :=
  match plants with
  | [] => (c, t, Done (Resolved (DArr loggers)))
  | plant :: plants' =>
      match plant with
      | DNull => (c, t, Dead)
      | _ =>
          match argument (prop "id" plant) with
          | None => (c, t, Outside)
          | Some plantId =>
              match pages arrivals plantId (DNum 0) loggers c t with
              | inl s =>
                  plants_loop plants' (unread s) (Portal.loggers s) (self s)
                    (seen s)
              | inr stop => stop
              end
          end
      end
  end.

(** Lines 934-966.  When [getPlantList] is rejected, the [catch] callback
    rejects the promise, [plants] is [undefined] and the [resolve] of line
    963 comes too late. *)
Definition getDataLoggers (arrivals : list arrival) (c : client)
    : client * list effect * progress :=
  match begin getPlantList c with
  | (c1, t1) =>
      match requests t1, arrivals with
      | [], _ =>
          (c1, outward t1,
           match settled t1 with
           | Some v => Done v
           | None => Waiting
           end)
      | _ :: _, [] => (c1, outward t1, Waiting)
      | _ :: _, a :: rest =>
          match complete getPlantList a c1 with
          | (c2, t2) =>
              let t' := outward t1 ++ outward t2 in
              match settled (t1 ++ t2) with
              | Some (Resolved (DArr plants)) => plants_loop plants rest [] c2 t'
              | Some (Resolved _) => (c2, t', Outside)
              | Some v => (c2, t', Done v)
              | None => (c2, t', Waiting)
              end
          end
      end
  end.

(** *** The data of one device (lines 1174-1255) *)

(** The argument [opt] of [getPlantDeviceData]: no object, [null], or an
    object with the options that the function reads; an option that is
    missing is [undefined], a date is missing or a [Date]. *)
Record options : Type := {
  totalData : val;
  statusData : val;
  growattType : val;
  historyLast : val;
  historyAll : val;
  historyLastStartDate : option string;
  historyLastEndDate : option string;
  historyStart : val;
}.

Inductive given : Type :=
  | NoObject
  | Null
  | Options (o : options).

(** Where an [async] function stands between two awaited calls: the
    answers that are left, the client, the effects so far, and the first
    call of [reject], if there was one. *)
Record standing : Type := {
  answers : list arrival;
  now : client;
  sofar : list effect;
  rejected : option verdict;
}.

(** [const x = await m.catch(e => { reject(e); })]: the value of [x] -
    [None] is [undefined] - and where the function stands after it, or
    [None] while the answer has not come. *)
Definition await (m : method) (s : standing)
    : option (option doc * standing) :=
  match begin m (now s) with
  | (c1, t1) =>
      let settle t c' rest :=
        let s' v :=
          {| answers := rest; now := c'; sofar := sofar s ++ outward t;
             rejected :=
               match rejected s with
               | Some w => Some w
               | None => v
               end |} in
        match settled t with
        | Some (Resolved d) => Some (Some d, s' None)
        | Some v => Some (None, s' (Some v))
        | None => None
        end in
      match requests t1, answers s with
      | [], _ => settle t1 c1 (answers s)
      | _ :: _, [] => None
      | _ :: _, a :: rest =>
          match complete m a c1 with
          | (c2, t2) => settle (t1 ++ t2) c2 rest
          end
      end
  end.

Section Gathering.

Variable r : store.
Variable clock : nat -> string.
Variable Date_toISOString :
  doc -> doc -> doc -> doc -> doc -> doc -> result string.

(** The dates of lines 1199 and 1202, a day before and a day after the
    call, as [toISOString()] gives them. *)
Variable yesterday tomorrow : string.

(** Lines 1180-1206: the options that are [undefined] get their
    defaults. *)
Definition with_defaults (o : options) : options :=
  {| totalData := or_default (VBool true) (totalData o);
     statusData := or_default (VBool true) (statusData o);
     growattType := or_default (VBool true) (growattType o);
     historyLast := or_default (VBool true) (historyLast o);
     historyAll := or_default (VBool false) (historyAll o);
     historyLastStartDate :=
       match historyLastStartDate o with
       | Some d => Some d
       | None => Some yesterday
       end;
     historyLastEndDate :=
       match historyLastEndDate o with
       | Some d => Some d
       | None => Some tomorrow
       end;
     historyStart := or_default (VNum 0) (historyStart o) |}.

Definition no_options : options :=
  {| totalData := VUndef; statusData := VUndef; growattType := VUndef;
     historyLast := VUndef; historyAll := VUndef;
     historyLastStartDate := None; historyLastEndDate := None;
     historyStart := VUndef |}.

(** [if (x && x.obj) result.k = x.obj]. *)
Definition keep (k : string) (x : option doc) (result : list (string * doc))
    : list (string * doc) :=
  match x with
  | Some d =>
      if truthy_doc d && truthy_prop (prop "obj" d) then
        match prop "obj" d with
        | Some o => assign k o result
        | None => result
        end
      else result
  | None => result
  end.

(** Line 1253, [resolve(result)], after the calls of [reject] so far. *)
Definition finish (result : list (string * doc)) (s : standing)
    : client * list effect * progress :=
  (now s, sofar s,
   Done match rejected s with
        | Some v => v
        | None => Resolved (DObj result)
        end).

Definition waiting (s : standing) : client * list effect * progress :=
  (now s, sofar s, Waiting).

(** Lines 1231-1250. *)
Definition gather_history (type : string) (serialNr : val) (o : options)
    (result : list (string * doc)) (s : standing)
    : client * list effect * progress :=
  if truthy (historyLast o) || truthy (historyAll o) then
    match historyLastStartDate o, historyLastEndDate o with
    | Some startDate, Some endDate =>
        match await (getHistory r clock Date_toISOString type serialNr
                       startDate endDate (historyStart o) (historyAll o)) s with
        | Some (x, s') =>
            finish
              match x with
              | Some d =>
                  if truthy_doc d then
                    assign (if truthy (historyAll o) then "historyAll"
                            else "historyLast") d result
                  else result
              | None => result
              end s'
        | None => waiting s
        end
    | _, _ => (now s, sofar s, Outside)
    end
  else finish result s.

(** Lines 1222-1230. *)
Definition gather_status (type : string) (plantId serialNr : val)
    (o : options) (result : list (string * doc)) (s : standing)
    : client * list effect * progress :=
  match (if truthy (statusData o) then entry r type "getStatusData"
         else Ok (VBool false)) with
  | Throw _ => (now s, sofar s, Dead)
  | Ok supported =>
      if truthy (statusData o) && truthy supported then
        match await (getStatusData r type plantId serialNr) s with
        | Some (x, s') =>
            gather_history type serialNr o (keep "statusData" x result) s'
        | None => waiting s
        end
      else gather_history type serialNr o result s
  end.

(** Lines 1174-1255; an [opt] that is [null] makes line 1183 throw. *)
Definition getPlantDeviceData (plantId : val) (type : string)
    (serialNr invId : val) (opt : given) (arrivals : list arrival)
    (c : client) : client * list effect * progress :=
  let s := {| answers := arrivals; now := c; sofar := []; rejected := None |} in
  match opt with
  | Null => (c, [], Dead)
  | _ =>
      let o :=
        with_defaults match opt with
                      | Options o => o
                      | _ => no_options
                      end in
      match (if negb (String.eqb type "") then get r GROWATTTYPE type
             else Ok (VBool false)) with
      | Throw _ => (c, [], Dead)
      | Ok known =>
          if negb (String.eqb type "") && truthy known then
            let result :=
              if truthy (growattType o) then [("growattType", DStr type)]
              else [] in
            if truthy (totalData o) then
              match await (getTotalData r type plantId serialNr invId) s with
              | Some (x, s') =>
                  gather_status type plantId serialNr o
                    (keep "totalData" x result) s'
              | None => waiting s
              end
            else gather_status type plantId serialNr o result s
          else finish [] s
      end
  end.

End Gathering.

(** The answers of a server that pages: page [j] of [n] with its
    loggers. *)
Definition page (datas : list doc) (j n : Z) : arrival :=
  Arrived {| body := DObj [("datas", DArr datas); ("currPage", DNum j);
                           ("pages", DNum n)];
             request_path := "/device/getDatalogList"; set_cookie := None |}.

(** The pages from [j] on, of [n], with the loggers [book]. *)
Fixpoint leaves (n j : Z) (book : list (list doc)) : list arrival :=
  match book with
  | [] => []
  | datas :: book' => page datas j n :: leaves n (j + 1) book'
  end.

(** The life sign that a call gives. *)
Definition life (c : client) : list effect :=
  match lifeSignCallback c with
  | VFun f => [LifeSign f]
  | _ => []
  end.

(** The request of [getPlantList]. *)
Definition asks_plants (c : client) : request :=
  {| how := POST;
     url := (server c ++ "/" ++ getIndex c ++ "/getPlantListTitle")%string;
     form := None; headers := makeCallHeader VUndef c |}.

(** The request for page [j] of the loggers of a plant. *)
Definition asks (c : client) (plantId : val) (j : Z) : request :=
  {| how := POST; url := (server c ++ "/device/getDatalogList")%string;
     form := Some [("datalogSn", VStr ""); ("plantId", plantId);
                   ("currPage", VNum j)];
     headers := makeCallHeader VUndef c |}.

Fixpoint asked (c : client) (plantId : val) (j : Z) (book : list (list doc))
    : list request :=
  match book with
  | [] => []
  | _ :: book' => asks c plantId j :: asked c plantId (j + 1) book'
  end.

(** The answers for plants with the ids [ids] and the books [books], and
    the requests that fetch them. *)
Fixpoint shelves (ids : list Z) (books : list (list (list doc)))
    : list arrival :=
  match ids, books with
  | _ :: ids', book :: books' =>
      leaves (Z.of_nat (length book)) 1 book ++ shelves ids' books'
  | _, _ => []
  end.

Fixpoint fetched (c : client) (ids : list Z) (books : list (list (list doc)))
    : list request :=
  match ids, books with
  | id :: ids', book :: books' =>
      asked c (VNum id) 1 book ++ fetched c ids' books'
  | _, _ => []
  end.

(** A computation that leaves the client as it is, or disconnects it. *)
Definition calm {A : Type} (m : E A) : Prop :=
  forall c, fst (fst (m c)) = c \/ fst (fst (m c)) = with_connected false c.

(** The client [c'] is [c], or [c] disconnected. *)
Definition below (c' c : client) : Prop :=
  c' = c \/ c' = with_connected false c.

(** A computation that sends nothing. *)
Definition harmless {A : Type} (m : E A) : Prop :=
  forall c, requests (snd (fst (m c))) = [].

(** An executor that sends one request, or none and settles the promise,
    or throws before it has sent anything. *)
Definition launch {A : Type} (m : E A) : Prop :=
  forall c,
    match m c with
    | (_, t, Ok _) =>
        (exists q, requests t = [q]) \/
        (requests t = [] /\ exists v, settled t = Some v)
    | (_, t, Throw _) => requests t = []
    end.

(** A callback that settles the promise and does nothing else, or throws
    before it has done anything. *)
Definition once {A : Type} (m : E A) : Prop :=
  forall c,
    match m c with
    | (_, t, Ok _) => exists v, t = [Called v]
    | (_, t, Throw _) => t = []
    end.

(** A computation without effects. *)
Definition silent {A : Type} (m : E A) : Prop :=
  forall c, snd (fst (m c)) = [].

(** Runs the executor or the callbacks of a method. *)
Ltac run_call :=
  cbv beta iota zeta delta
    [begin complete executor on_then on_catch bind ret throw lift this emit
     set_connected set_cookie_to resolve refuse reject lifeSign send
     plain_post disconnect unexpected by_result session_from_cookie];
  cbn [fst snd app].

End Portal.

(* ===================================================================== *)
(** ** A client and a registry to run the plain calls on *)
(* ===================================================================== *)

Module PortalSample.

Import Portal.

(** Two device types: [mix], with the addresses of its data and no
    parameter for an address, and [singleBackflow], which has parameters
    for the address and for the inverter id but neither a history nor the
    energy of a day; and the constants of the charts. *)
Definition registry : store :=
  [ (* 0: GROWATTTYPE *)
    [("mix", VRef 1%nat); ("singleBackflow", VRef 2%nat);
     ("CHART_TIMEFRAME", VRef 3%nat); ("CHART_PARAM", VRef 4%nat)];
    (* 1: GROWATTTYPE.mix *)
    [("snParam", VStr "mixSn");
     ("getTotalData", VStr "/panel/mix/getMIXTotalData");
     ("getHistory", VStr "/device/getMIXHistory");
     ("getStatusData", VStr "/panel/mix/getMIXStatusData");
     ("getEnergyDay", VStr "/panel/mix/getMIXEnergyDayChart")];
    (* 2: GROWATTTYPE.singleBackflow *)
    [("snParam", VStr "sn"); ("addrParam", VStr "addr");
     ("invIdParam", VStr "invId");
     ("getTotalData", VStr "/panel/singleBackflow/getTotalData");
     ("getStatusData", VStr "/panel/singleBackflow/getStatusData")];
    (* 3: GROWATTTYPE.CHART_TIMEFRAME *)
    [("DAY", VNum 0); ("MONTH", VNum 1); ("YEAR", VNum 2); ("TOTAL", VNum 3)];
    (* 4: GROWATTTYPE.CHART_PARAM *)
    [("ENERGY", VStr "energy")] ].

(** A client as the constructor leaves it, without a callback. *)
Definition fresh : client :=
  {| server := "https://server.growatt.com"; indexCandI := VBool false;
     lifeSignCallback := VUndef; connected := false; cookie := "" |}.

(** A clock that stands still, and dates that are all valid. *)
Definition clock (n : nat) : string := "2024-05-01T12:00:00.000Z".
Definition Date_toISOString (y m d h mi s : doc) : result string :=
  Ok "2024-04-30T22:15:00.000Z".

(** Stand-ins for [JSON.stringify] and [encodeURIComponent]. *)
Definition JSON_stringify (l : list obj) : string := "[{}]".
Definition encodeURIComponent_JSON (v : crumb) : string :=
  match v with
  | Pairs _ => "%5B%7B%7D%5D"
  | Plain _ => "1"
  end.

(** The headers of an answer that opens a session, the session cookie
    first, and of one that names the session behind another cookie. *)
Definition session_first : list string :=
  ["JSESSIONID=0A1B2C; Path=/; HttpOnly"; "SERVERID=n1; Path=/"].
Definition session_second : list string :=
  ["SERVERID=n1; Path=/"; "JSESSIONID=0A1B2C; Path=/; HttpOnly"].

Definition accepted (hs : list string) : reply :=
  {| body := DObj [("result", DNum 1)]; request_path := "/login";
     set_cookie := Some hs |}.

(** A dataset of a history, with its time in parts. *)
Definition dataset : list (string * doc) :=
  [("pac", DNum 1500);
   ("time",
    DObj [("year", DNum 2024); ("month", DNum 3); ("dayOfMonth", DNum 30);
          ("hourOfDay", DNum 22); ("minute", DNum 15); ("second", DNum 0)]);
   ("vpv1", DNum 360)].

(** An answer with two datasets, the second one [null]. *)
Definition history : reply :=
  {| body :=
       DObj [("result", DNum 1);
             ("obj", DObj [("datas", DArr [DObj dataset; DNull])])];
     request_path := "/device/getMIXHistory"; set_cookie := None |}.

Definition device : val :=
  VJson [("plantId", JNum 7); ("deviceTypeName", JStr "mix");
         ("sn", JStr "SN1")].
Definition other_device : val :=
  VJson [("plantId", JNum 8); ("deviceTypeName", JStr "singleBackflow");
         ("sn", JStr "SN2_1")].

(** A first call of [getDeviceChart], for the chart of a day. *)
Definition first_chart : client * list effect * result (option method) :=
  getDeviceChart registry JSON_stringify encodeURIComponent_JSON device
    "2024-05-01T12:00:00.000Z" VUndef VUndef fresh.

(** Two plants, and the loggers of their pages: two pages for the first
    plant, one for the second. *)
Definition plants : list doc :=
  [DObj [("id", DNum 7); ("plantName", DStr "roof")];
   DObj [("id", DNum 8); ("plantName", DStr "barn")]].
Definition logger (sn : string) : doc := DObj [("sn", DStr sn)].
Definition books : list (list (list doc)) :=
  [[[logger "A1"; logger "A2"]; [logger "A3"]]; [[logger "B1"]]].
Definition plant_list (ps : list doc) : arrival :=
  Arrived {| body := DArr ps; request_path := "/index/getPlantListTitle";
             set_cookie := None |}.

(** The dataset with its time corrected. *)
Definition corrected : list (string * doc) :=
  [("pac", DNum 1500); ("time", DStr "2024-04-30T22:15:00.000Z");
   ("vpv1", DNum 360)].

End PortalSample.

(* ===================================================================== *)
(** * Properties *)
(* ===================================================================== *)

(** ** Property lists *)

Lemma assoc_assign_eq {A : Type} (k : string) (v : A) (o : list (string * A)) :
  assoc k (assign k v o) = Some v.
Proof.
  induction o as [|[k' v'] o IH]; simpl.
  - now rewrite String.eqb_refl.
  - destruct (String.eqb k k') eqn:E; simpl; rewrite ?String.eqb_refl, ?E; auto.
Qed.

Lemma assoc_assign_ne {A : Type} (k k' : string) (v : A) (o : list (string * A)) :
  k <> k' -> assoc k (assign k' v o) = assoc k o.
Proof.
  intros Hne. induction o as [|[k0 v0] o IH]; simpl.
  - apply String.eqb_neq in Hne. now rewrite Hne.
  - destruct (String.eqb k' k0) eqn:E; simpl.
    + apply String.eqb_eq in E. subst k0.
      apply String.eqb_neq in Hne. now rewrite Hne.
    + now rewrite IH.
Qed.

Lemma assign_same {A : Type} (k : string) (v : A) (o : list (string * A)) :
  assoc k o = Some v -> assign k v o = o.
Proof.
  induction o as [|[k' v'] o IH]; simpl; [discriminate|].
  destruct (String.eqb k k') eqn:E.
  - apply String.eqb_eq in E. intros [= ->]. now subst.
  - intros H. now rewrite IH.
Qed.

Lemma keys_assign {A : Type} (k : string) (v : A) (o : list (string * A)) (x : string) :
  In x (keys (assign k v o)) -> x = k \/ In x (keys o).
Proof.
  unfold keys. induction o as [|[k' v'] o IH]; simpl.
  - intros [H|[]]; auto.
  - destruct (String.eqb k k') eqn:E; simpl.
    + intros [H|H]; auto.
    + intros [H|H]; auto. destruct (IH H); auto.
Qed.

Lemma field_assign_eq (k : string) (v : val) (o : obj) :
  field k (assign k v o) = v.
Proof. unfold field. now rewrite assoc_assign_eq. Qed.

Lemma field_assign_ne (k k' : string) (v : val) (o : obj) :
  k <> k' -> field k (assign k' v o) = field k o.
Proof. intros H. unfold field. now rewrite assoc_assign_ne. Qed.

(** ** Loops of writes *)

Section Loops.

Variable f : string -> M unit.
Hypothesis uniform :
  forall n, exists w res, forall o, f n o = (write_opt n w o, res).

Lemma forEach_other (names : list string) (k : string) :
  ~ In k names ->
  forall o u res, forEach names f o = (u, res) -> assoc k u = assoc k o.
Proof.
  induction names as [|n names IH]; simpl; intros Hk o u res H.
  - now inversion H.
  - destruct (uniform n) as (w & r & Hf).
    unfold bind in H. rewrite Hf in H.
    assert (Hw : assoc k (write_opt n w o) = assoc k o).
    { destruct w; simpl; [apply assoc_assign_ne; intuition congruence | reflexivity]. }
    destruct r.
    + rewrite <- Hw. eapply IH; eauto.
    + inversion H; subst. exact Hw.
Qed.

Lemma forEach_keys (names : list string) :
  forall o u res x, forEach names f o = (u, res) ->
    In x (keys u) -> In x names \/ In x (keys o).
Proof.
  induction names as [|n names IH]; simpl; intros o u res x H Hx.
  - inversion H; subst; auto.
  - destruct (uniform n) as (w & r & Hf).
    unfold bind in H. rewrite Hf in H.
    assert (Hw : forall y, In y (keys (write_opt n w o)) -> y = n \/ In y (keys o)).
    { destruct w; simpl; [apply keys_assign | auto]. }
    destruct r.
    + destruct (IH _ _ _ _ H Hx) as [?|Hy]; auto.
      destruct (Hw _ Hy); subst; auto.
    + inversion H; subst. destruct (Hw _ Hx); subst; auto.
Qed.

Lemma forEach_keeps (names : list string) (n : string) (v : val) :
  (forall o, f n o = (assign n v o, Ok tt)) ->
  forall o u, forEach names f o = (u, Ok tt) ->
    assoc n o = Some v -> assoc n u = Some v.
Proof.
  intros Hn. induction names as [|m names IH]; simpl; intros o u H Ho.
  - inversion H; subst; auto.
  - unfold bind in H.
    destruct (String.eqb_spec m n) as [->|Hne].
    + rewrite Hn in H. eapply IH; eauto. apply assoc_assign_eq.
    + destruct (uniform m) as (w & r & Hf). rewrite Hf in H.
      destruct r; [|discriminate].
      eapply IH; eauto.
      destruct w; simpl; auto. rewrite assoc_assign_ne; auto.
Qed.

Lemma forEach_again (names : list string) :
  forall o u, forEach names f o = (u, Ok tt) -> forEach names f u = (u, Ok tt).
Proof.
  induction names as [|n names IH]; simpl; intros o u H.
  - reflexivity.
  - unfold bind in *.
    destruct (uniform n) as (w & r & Hf).
    rewrite Hf in H. destruct r as [[]|]; [|discriminate].
    rewrite Hf.
    assert (Hu : write_opt n w u = u).
    { destruct w as [v|]; simpl; auto. apply assign_same.
      eapply forEach_keeps with (o := assign n v o);
        [intros o'; now rewrite Hf | exact H | apply assoc_assign_eq]. }
    rewrite Hu. eapply IH; eauto.
Qed.

End Loops.


(** ** The try block *)

Lemma field_string (k : string) (o : obj) (v : val) :
  field k o = v -> is_tag TString v = true -> assoc k o = Some v.
Proof.
  unfold field. destruct (assoc k o); intros <-; [reflexivity | discriminate].
Qed.

Lemma string_defined (v : val) :
  is_tag TString v = true -> is_tag TUndefined v = false.
Proof. destruct v; simpl; congruence. Qed.

Section CodecFacts.

Variable PARSEIN : val -> option (val -> val * val).

Lemma check_param_uniform r type po p (n : string) :
  exists w res, forall o,
    check_param PARSEIN r type po p n o = (write_opt n w o, res).
Proof.
  unfold check_param; run_shape.
  destruct (get r (p_val po) n) as [given|e]; [|exists None; eexists; reflexivity].
  destruct (negb (is_tag TUndefined given)).
  - destruct (get r p n) as [d|e]; [|exists None; eexists; reflexivity].
    destruct (get r d "type") as [t|e]; [|exists None; eexists; reflexivity].
    destruct (PARSEIN t) as [parse|]; [|exists None; eexists; reflexivity].
    destruct (parse given) as [v ok].
    destruct (negb (truthy ok)).
    + destruct (get r d "name") as [dname|e]; exists (Some v); eexists; reflexivity.
    + exists (Some v); eexists; reflexivity.
  - destruct (get r p n) as [d|e]; [|exists None; eexists; reflexivity].
    destruct (get r d "name") as [dname|e]; exists None; eexists; reflexivity.
Qed.

(** *** What each block may write *)


Lemma take_paramId_frame r b o u res (k : string) :
  take_paramId r b o = (u, res) -> k <> "paramId" ->
  assoc k u = assoc k o.
Proof.
  unfold take_paramId; run_shape. intros H Hk.
  destruct (negb _); [|inversion H; subst; reflexivity].
  destruct (get r b "paramId"); [|inversion H; subst; reflexivity].
  destruct (is_tag TString a); [|inversion H; subst; reflexivity].
  destruct (get r b "parseRet"); inversion H; subst; now apply assoc_assign_ne.
Qed.

Lemma take_type_frame r type po b o u res (k : string) :
  take_type PARSEIN r type po b o = (u, res) -> k <> "type" ->
  ~ In k (names_of r b) -> assoc k u = assoc k o.
Proof.
  unfold take_type, names_of; run_shape. intros H Hk Hn.
  destruct (negb _); [|inversion H; subst; reflexivity].
  destruct (get r b "type"); [|inversion H; subst; reflexivity].
  destruct (is_tag TString a); [|inversion H; subst; reflexivity].
  destruct (is_tag TObject (p_val po));
    [|inversion H; subst; now apply assoc_assign_ne].
  destruct (get r b "param") as [p|];
    [|inversion H; subst; now apply assoc_assign_ne].
  destruct (is_tag TObject p);
    [|inversion H; subst; now apply assoc_assign_ne].
  destruct (object_keys r p) as [names|];
    [|inversion H; subst; now apply assoc_assign_ne].
  transitivity (assoc k (assign "type" a o));
    [|now apply assoc_assign_ne].
  eapply forEach_other;
    [intros n; apply check_param_uniform | exact Hn | exact H].
Qed.

Lemma take_action_keys r type po gt o u res (x : string) :
  take_action r type po gt o = (u, res) -> In x (keys u) ->
  x = "action" \/ In x (keys o).
Proof.
  unfold take_action; run_shape. intros H Hx.
  destruct (p_action po); try (inversion H; subst; auto; fail).
  destruct (is_tag TObject gt); [|inversion H; subst; auto].
  destruct (get r gt s); [|inversion H; subst; auto].
  destruct (is_tag TString a); inversion H; subst; auto.
  eapply keys_assign; exact Hx.
Qed.

Lemma take_paramId_keys r b o u res (x : string) :
  take_paramId r b o = (u, res) -> In x (keys u) ->
  (x = "paramId" /\ is_tag TUndefined (field "paramId" o) = false)
  \/ In x (keys o).
Proof.
  unfold take_paramId; run_shape. intros H Hx.
  destruct (is_tag TUndefined (field "paramId" o)) eqn:E; cbn [negb] in H;
    [inversion H; subst; auto|].
  destruct (get r b "paramId"); [|inversion H; subst; auto].
  destruct (is_tag TString a); [|inversion H; subst; auto].
  destruct (get r b "parseRet"); inversion H; subst;
    apply keys_assign in Hx; destruct Hx; auto.
Qed.

Lemma take_type_keys r type po b o u res (x : string) :
  take_type PARSEIN r type po b o = (u, res) -> In x (keys u) ->
  x = "type" \/ In x (names_of r b) \/ In x (keys o).
Proof.
  unfold take_type, names_of; run_shape. intros H Hx.
  destruct (negb _); [|inversion H; subst; auto].
  destruct (get r b "type"); [|inversion H; subst; auto].
  assert (Hw : forall y, In y (keys (assign "type" a o)) ->
                         y = "type" \/ In y (keys o)) by (intros y; apply keys_assign).
  destruct (is_tag TString a); [|inversion H; subst; auto].
  destruct (is_tag TObject (p_val po));
    [|inversion H; subst; destruct (Hw _ Hx); auto].
  destruct (get r b "param") as [p|];
    [|inversion H; subst; destruct (Hw _ Hx); auto].
  destruct (is_tag TObject p);
    [|inversion H; subst; destruct (Hw _ Hx); auto].
  destruct (object_keys r p) as [names|];
    [|inversion H; subst; destruct (Hw _ Hx); auto].
  eapply forEach_keys in H; [| intros n; apply check_param_uniform | exact Hx].
  destruct H as [H|H]; auto. destruct (Hw _ H); auto.
Qed.

(** *** Running a block again on what it left *)

Lemma take_action_again r type po gt o u u' :
  take_action r type po gt o = (u, Ok tt) ->
  assoc "action" u' = assoc "action" u ->
  take_action r type po gt u' = (u', Ok tt).
Proof.
  unfold take_action; run_shape. intros H Hu.
  destruct (p_action po); try (inversion H; subst; reflexivity).
  destruct (is_tag TObject gt); [|discriminate].
  destruct (get r gt s); [|discriminate].
  destruct (is_tag TString a); [|discriminate].
  inversion H; subst. rewrite assoc_assign_eq in Hu.
  now rewrite assign_same.
Qed.

Lemma take_paramId_again r b o u c u' :
  take_paramId r b o = (u, Ok c) ->
  field "paramId" u' = field "paramId" u ->
  take_paramId r b u' = (u', Ok c).
Proof.
  unfold take_paramId; run_shape. intros H Hu.
  destruct (is_tag TUndefined (field "paramId" o)) eqn:E; cbn [negb] in H.
  { inversion H; subst. now rewrite Hu, E. }
  destruct (get r b "paramId") as [bid|]; [|discriminate].
  destruct (is_tag TString bid) eqn:Es.
  - destruct (get r b "parseRet"); [|discriminate].
    inversion H; subst. rewrite field_assign_eq in Hu.
    rewrite Hu, (string_defined _ Es). cbn [negb]. rewrite ?Es.
    rewrite assign_same; [reflexivity|]. now apply field_string.
  - inversion H; subst. rewrite Hu, E. cbn [negb]. now rewrite ?Es.
Qed.

Lemma take_type_again r type po b o u :
  take_type PARSEIN r type po b o = (u, Ok tt) ->
  ~ In "type" (names_of r b) ->
  take_type PARSEIN r type po b u = (u, Ok tt).
Proof.
  intros H Hn.
  assert (Hf := H).
  unfold take_type, names_of in *; run_shape.
  destruct (is_tag TUndefined (field "type" o)) eqn:E; cbn [negb] in H.
  { inversion H; subst. now rewrite E. }
  destruct (get r b "type") as [bty|]; [|discriminate].
  destruct (is_tag TString bty) eqn:Es.
  2:{ inversion H; subst. rewrite E. cbn [negb]. now rewrite ?Es. }
  assert (Hty : assoc "type" u = Some bty).
  { destruct (is_tag TObject (p_val po));
      [|inversion H; subst; apply assoc_assign_eq].
    destruct (get r b "param") as [p|]; [|discriminate].
    destruct (is_tag TObject p);
      [|inversion H; subst; apply assoc_assign_eq].
    destruct (object_keys r p) as [names|]; [|discriminate].
    transitivity (assoc "type" (assign "type" bty o));
      [|apply assoc_assign_eq].
    eapply forEach_other;
      [intros n; apply check_param_uniform | exact Hn | exact H]. }
  assert (Hfd : field "type" u = bty) by (unfold field; now rewrite Hty).
  rewrite Hfd, (string_defined _ Es). cbn [negb]. rewrite ?Es.
  rewrite (assign_same _ _ _ Hty).
  destruct (is_tag TObject (p_val po)); [|inversion H; subst; reflexivity].
  destruct (get r b "param") as [p|]; [|discriminate].
  destruct (is_tag TObject p); [|inversion H; subst; reflexivity].
  destruct (object_keys r p) as [names|]; [|discriminate].
  eapply forEach_again; [|exact H].
  intros n. apply check_param_uniform.
Qed.

Lemma shape_function_again r type po b o u c :
  shape_function PARSEIN r type po b o = (u, Ok c) ->
  ~ In "paramId" (names_of r b) ->
  ~ In "type" (names_of r b) ->
  shape_function PARSEIN r type po b u = (u, Ok c).
Proof.
  unfold shape_function, bind at 1 2, ret. intros H Hp Ht.
  destruct (take_paramId r b o) as [o1 [c1|]] eqn:E1; [|discriminate].
  destruct (take_type PARSEIN r type po b o1) as [o2 [[]|]] eqn:E2; [|discriminate].
  inversion H; subst.
  unfold bind, ret.
  rewrite (take_paramId_again _ _ _ _ _ u E1).
  - now rewrite (take_type_again _ _ _ _ _ _ E2 Ht).
  - unfold field.
    now rewrite (take_type_frame _ _ _ _ _ _ _ "paramId" E2 ltac:(discriminate) Hp).
Qed.

(** The [try] block, with its lookups in the registry spelled out. *)
Lemma shape_unfold r type po o :
  shape PARSEIN r type po o =
  match get r GROWATTTYPE type with
  | Throw e => (o, Throw e)
  | Ok gt =>
      match take_action r type po gt o with
      | (o1, Throw e) => (o1, Throw e)
      | (o1, Ok _) =>
          match p_base po with
          | VStr bs =>
              match get r gt bs with
              | Throw e => (o1, Throw e)
              | Ok base =>
                  if is_tag TObject base then
                    match get r base (p_func po) with
                    | Throw e => (o1, Throw e)
                    | Ok b =>
                        if is_tag TObject b
                        then shape_function PARSEIN r type po b o1
                        else (o1, Throw (UnknownFunction (p_func po) type))
                    end
                  else (o1, Throw (UnknownFunction (p_func po) type))
              end
          | _ => (o1, Throw (UnknownFunction (p_func po) type))
          end
      end
  end.
Proof.
  unfold shape, bind, lift, throw.
  destruct (get r GROWATTTYPE type) as [gt|]; [|reflexivity].
  destruct (take_action r type po gt o) as [o1 [[]|]]; [|reflexivity].
  destruct (p_base po); try reflexivity.
  destruct (get r gt s) as [base|]; [|reflexivity].
  destruct (is_tag TObject base); [|reflexivity].
  destruct (get r base (p_func po)) as [b|]; [|reflexivity].
  destruct (is_tag TObject b); reflexivity.
Qed.

(** Running the [try] block again on the [param] it left, as a re-issue
    of the command does, leaves [param] and [checkRet] as they are, when
    no declared parameter goes by the name of a field that the block
    itself fills in. *)
Lemma shape_again r type po o u c :
  shape PARSEIN r type po o = (u, Ok c) ->
  ~ In "action" (declared r type po) ->
  ~ In "paramId" (declared r type po) ->
  ~ In "type" (declared r type po) ->
  shape PARSEIN r type po u = (u, Ok c).
Proof.
  rewrite !shape_unfold. unfold declared, descriptor_of.
  destruct (get r GROWATTTYPE type) as [gt|]; [|discriminate].
  destruct (take_action r type po gt o) as [o1 [[]|]] eqn:Ea; [|discriminate].
  destruct (p_base po) as [| | | |bs| | | |]; try discriminate.
  destruct (get r gt bs) as [base|]; [|discriminate].
  destruct (is_tag TObject base); [|discriminate].
  destruct (get r base (p_func po)) as [b|]; [|discriminate].
  destruct (is_tag TObject b); [|discriminate].
  intros H Ha Hp Ht.
  assert (Hact : assoc "action" u = assoc "action" o1).
  { unfold shape_function, bind, ret in H.
    destruct (take_paramId r b o1) as [o2 [c1|]] eqn:E1; [|discriminate].
    destruct (take_type PARSEIN r type po b o2) as [o3 [[]|]] eqn:E2; [|discriminate].
    inversion H; subst.
    rewrite (take_type_frame _ _ _ _ _ _ _ "action" E2 ltac:(discriminate) Ha).
    eapply take_paramId_frame; [exact E1|discriminate]. }
  rewrite (take_action_again _ _ _ _ _ _ u Ea Hact).
  eapply shape_function_again; eauto.
Qed.

(** *** The fields of the request *)

Lemma defined_key (k : string) (o : obj) :
  is_tag TUndefined (field k o) = false -> In k (keys o).
Proof.
  unfold field, keys. induction o as [|[k' v] o IH]; simpl; [discriminate|].
  destruct (String.eqb_spec k k'); auto.
Qed.

Lemma shape_function_keys r type po b o u res (x : string) :
  shape_function PARSEIN r type po b o = (u, res) -> In x (keys u) ->
  In x (names_of r b) \/ In x (keys o).
Proof.
  unfold shape_function, bind, ret. intros H Hx.
  destruct (take_paramId r b o) as [o1 [c1|]] eqn:E1.
  - assert (H1 : forall y, In y (keys o1) -> In y (keys o)).
    { intros y Hy. destruct (take_paramId_keys _ _ _ _ _ _ E1 Hy) as [[-> Hd]|]; auto.
      now apply defined_key. }
    destruct (take_type PARSEIN r type po b o1) as [o2 res2] eqn:E2.
    assert (u = o2) by (destruct res2; now inversion H). subst o2.
    destruct (take_type_keys _ _ _ _ _ _ _ _ E2 Hx) as [->|[?|?]]; auto.
    right. apply H1.
    destruct (is_tag TUndefined (field "type" o1)) eqn:Et.
    + unfold take_type, bind, read, ret in E2. rewrite Et in E2.
      simpl in E2. now inversion E2; subst.
    + now apply defined_key.
  - inversion H; subst.
    destruct (take_paramId_keys _ _ _ _ _ _ E1 Hx) as [[-> Hd]|]; auto.
    right. now apply defined_key.
Qed.

Lemma shape_keys r type po o u res (x : string) :
  shape PARSEIN r type po o = (u, res) -> In x (keys u) ->
  x = "action" \/ In x (declared r type po) \/ In x (keys o).
Proof.
  rewrite shape_unfold. unfold declared, descriptor_of.
  destruct (get r GROWATTTYPE type) as [gt|]; [|intros [= <- _]; auto].
  destruct (take_action r type po gt o) as [o1 r1] eqn:Ea.
  assert (H1 : In x (keys o1) -> x = "action" \/ In x (keys o))
    by apply (take_action_keys _ _ _ _ _ _ _ _ Ea).
  destruct r1 as [[]|]; [|intros [= <- _] Hx; destruct (H1 Hx); auto].
  destruct (p_base po) as [| | | |bs| | | |];
    try (intros [= <- _] Hx; destruct (H1 Hx); auto; fail).
  destruct (get r gt bs) as [base|];
    [|intros [= <- _] Hx; destruct (H1 Hx); auto].
  destruct (is_tag TObject base);
    [|intros [= <- _] Hx; destruct (H1 Hx); auto].
  destruct (get r base (p_func po)) as [b|];
    [|intros [= <- _] Hx; destruct (H1 Hx); auto].
  destruct (is_tag TObject b);
    [|intros [= <- _] Hx; destruct (H1 Hx); auto].
  intros H Hx.
  destruct (shape_function_keys _ _ _ _ _ _ _ _ H Hx) as [?|Hy]; auto.
  destruct (H1 Hy); auto.
Qed.

(** *** The values that are read *)

Lemma forEach_ext (f g : string -> M unit) (names : list string) :
  (forall n o, In n names -> f n o = g n o) ->
  forall o, forEach names f o = forEach names g o.
Proof.
  induction names as [|n names IH]; simpl; intros H o; [reflexivity|].
  unfold bind. rewrite (H n o) by auto.
  destruct (g n o) as [o' [[]|]]; auto.
Qed.

Lemma check_param_ext r type po po' p (n : string) o :
  p_func po = p_func po' ->
  get r (p_val po) n = get r (p_val po') n ->
  check_param PARSEIN r type po p n o = check_param PARSEIN r type po' p n o.
Proof. intros Hf Hv. unfold check_param. now rewrite Hf, Hv. Qed.

Lemma shape_ext r type po po' o :
  p_action po = p_action po' -> p_base po = p_base po' ->
  p_func po = p_func po' ->
  is_tag TObject (p_val po) = is_tag TObject (p_val po') ->
  (forall n, In n (declared r type po) ->
             get r (p_val po) n = get r (p_val po') n) ->
  shape PARSEIN r type po o = shape PARSEIN r type po' o.
Proof.
  intros Ha Hb Hf Ho Hv. rewrite !shape_unfold.
  unfold declared, descriptor_of in Hv.
  destruct (get r GROWATTTYPE type) as [gt|]; [|reflexivity].
  replace (take_action r type po' gt o) with (take_action r type po gt o)
    by (unfold take_action; now rewrite Ha).
  destruct (take_action r type po gt o) as [o1 [[]|]]; [|reflexivity].
  rewrite <- Hb, <- Hf.
  destruct (p_base po) as [| | | |bs| | | |]; try reflexivity.
  destruct (get r gt bs) as [base|]; [|reflexivity].
  destruct (is_tag TObject base); [|reflexivity].
  destruct (get r base (p_func po)) as [b|]; [|reflexivity].
  destruct (is_tag TObject b); [|reflexivity].
  unfold shape_function, bind.
  destruct (take_paramId r b o1) as [o2 [c|]]; [|reflexivity].
  replace (take_type PARSEIN r type po' b o2)
    with (take_type PARSEIN r type po b o2); [reflexivity|].
  unfold take_type, bind, lift, read. rewrite <- Ho.
  unfold names_of in Hv.
  destruct (negb _); [|reflexivity].
  destruct (get r b "type") as [bty|]; [|reflexivity].
  destruct (is_tag TString bty); [|reflexivity].
  unfold write.
  destruct (is_tag TObject (p_val po)); [|reflexivity].
  destruct (get r b "param") as [p|]; [|reflexivity].
  destruct (is_tag TObject p); [|reflexivity].
  destruct (object_keys r p) as [names|]; [|reflexivity].
  apply forEach_ext. intros n o' Hn. apply check_param_ext; auto.
Qed.

(** C10.  What the caller supplies under a name that the function does
    not declare is ignored: for every registry, device type, function,
    serial number and pair of supplied objects [fs] and [fs'] that hold
    the same value under every declared name, the [try] block of a write
    gives the same result - the same [param] and [checkRet], or the same
    error - for both; and every field of the [param] it leaves is one of
    the fixed fields action, serialNum and type of the [url], or a
    declared parameter. *)
Theorem undeclared_values_are_ignored r type func serialNum fs fs' :
  (forall n, In n (declared r type (write_command func serialNum (VJson fs))) ->
             assoc n fs = assoc n fs') ->
  shape PARSEIN r type (write_command func serialNum (VJson fs))
    (p_url (write_command func serialNum (VJson fs)))
  = shape PARSEIN r type (write_command func serialNum (VJson fs'))
      (p_url (write_command func serialNum (VJson fs')))
  /\ forall u res x,
      shape PARSEIN r type (write_command func serialNum (VJson fs))
        (p_url (write_command func serialNum (VJson fs))) = (u, res) ->
      In x (keys u) ->
      In x ["action"; "serialNum"; "type"]
      \/ In x (declared r type (write_command func serialNum (VJson fs))).
Proof.
  intros H. split.
  - apply shape_ext; try reflexivity.
    intros n Hn. simpl. now rewrite (H n Hn).
  - intros u res x Hs Hx.
    destruct (shape_keys _ _ _ _ _ _ _ Hs Hx) as [->|[?|Hk]];
      [left; simpl; auto | right; assumption | left; exact Hk].
Qed.

(** *** What the [try] block rejects *)

(** An unknown device type, or one without the action. *)
Lemma shape_unknown_type r type po a gt o :
  get r GROWATTTYPE type = Ok gt -> p_action po = VStr a ->
  is_tag TObject gt = false
  \/ (exists act, get r gt a = Ok act /\ is_tag TString act = false) ->
  shape PARSEIN r type po o = (o, Throw (UnknownAction a type)).
Proof.
  intros Hgt Ha H. rewrite shape_unfold, Hgt.
  unfold take_action, bind, lift, throw. rewrite Ha.
  destruct H as [->|(act & -> & ->)]; [reflexivity|].
  destruct (is_tag TObject gt); reflexivity.
Qed.

Lemma take_action_known r type po gt act o :
  known_type r type po gt act ->
  take_action r type po gt o = (assign "action" act o, Ok tt).
Proof.
  intros (a & _ & Hobj & Ha & Hact & Hs).
  unfold take_action, bind, lift, write. now rewrite Ha, Hobj, Hact, Hs.
Qed.

(** An unknown function. *)
Lemma shape_unknown_function r type po gt act bs o :
  known_type r type po gt act -> p_base po = VStr bs ->
  (exists base, get r gt bs = Ok base /\
     (is_tag TObject base = false
      \/ exists b, is_tag TObject base = true /\
           get r base (p_func po) = Ok b /\ is_tag TObject b = false)) ->
  shape PARSEIN r type po o
  = (assign "action" act o, Throw (UnknownFunction (p_func po) type)).
Proof.
  intros Hk Hb (base & Hbase & H).
  pose proof Hk as (a & Hgt & _).
  rewrite shape_unfold, Hgt, (take_action_known _ _ _ _ _ _ Hk), Hb, Hbase.
  destruct H as [->|(b & -> & -> & ->)]; reflexivity.
Qed.

Lemma check_param_converts r type po p fs (n : string) :
  p_val po = VJson fs -> converts PARSEIN r p fs n ->
  exists v, forall o,
    check_param PARSEIN r type po p n o = (assign n v o, Ok tt).
Proof.
  intros Hv (given & d & t & parse & Hg & Hd & Hp & Ht & Hparse & Hok).
  exists (fst (parse given)). intros o.
  unfold check_param, bind, lift, write, ret.
  rewrite Hv, Hg, Hd, Hp, Ht, Hparse. simpl.
  destruct (parse given) as [v ok]. simpl in *. now rewrite Hok.
Qed.

Lemma check_param_refused r type po p fs (n : string) dname dtype o :
  p_val po = VJson fs -> refused PARSEIN r p fs n dname dtype ->
  exists v,
    check_param PARSEIN r type po p n o
    = (assign n v o, Throw (IncorrectValue dname dtype (p_func po) type)).
Proof.
  intros Hv (given & d & parse & Hg & Hd & Hp & Ht & Hn & Hparse & Hok).
  exists (fst (parse given)).
  unfold check_param, bind, lift, write, ret, throw.
  rewrite Hv, Hg, Hd, Hp, Ht, Hparse. simpl.
  destruct (parse given) as [v ok]. simpl in *. now rewrite Hok, Hn.
Qed.

Lemma check_param_missing r type po p fs (n : string) dname o :
  p_val po = VJson fs -> missing r p fs n dname ->
  check_param PARSEIN r type po p n o
  = (o, Throw (MissingValue dname (p_func po) type)).
Proof.
  intros Hv (d & Hg & Hp & Hn).
  unfold check_param, bind, lift, throw.
  rewrite Hv, Hg. simpl. now rewrite Hp, Hn.
Qed.

(** The loop stops at the first name that does not pass. *)
Lemma forEach_stops (f : string -> M unit) (pre post : list string)
    (n : string) (e : exn) :
  (forall m, In m pre -> exists v, forall o, f m o = (assign m v o, Ok tt)) ->
  (forall o, exists u, f n o = (u, Throw e)) ->
  forall o, exists u, forEach (pre ++ n :: post) f o = (u, Throw e).
Proof.
  intros Hpre Hn. induction pre as [|m pre IH]; simpl; intros o.
  - unfold bind. destruct (Hn o) as (u & ->). now exists u.
  - unfold bind. destruct (Hpre m) as (v & ->); [now left|].
    apply IH. intros m' Hm'. apply Hpre. now right.
Qed.

(** A write whose supplied object lacks a declared parameter, or holds a
    value that the converter refuses, at the first declared name that
    does not pass. *)
Lemma shape_bad_parameter r type po gt act b p fs pre n post e o :
  known_type r type po gt act ->
  write_descriptor r po gt b p (pre ++ n :: post) ->
  p_val po = VJson fs ->
  is_tag TUndefined (field "paramId" o) = true ->
  is_tag TUndefined (field "type" o) = false ->
  (forall m, In m pre -> converts PARSEIN r p fs m) ->
  (exists dname, missing r p fs n dname
                 /\ e = MissingValue dname (p_func po) type)
  \/ (exists dname dtype, refused PARSEIN r p fs n dname dtype
                 /\ e = IncorrectValue dname dtype (p_func po) type) ->
  exists u, shape PARSEIN r type po o = (u, Throw e).
Proof.
  intros Hk (bs & base & bty & Hb & Hbase & Hbo & Hfn & Hfo & Hty & Hts
             & Hpm & Hpo & Hkeys) Hv Hid Htype Hpre Hn.
  pose proof Hk as (a & Hgt & _).
  rewrite shape_unfold, Hgt, (take_action_known _ _ _ _ _ _ Hk).
  rewrite Hb, Hbase, Hbo, Hfn, Hfo.
  unfold shape_function, take_paramId, take_type, bind, read, lift, write, ret.
  rewrite field_assign_ne, Hid by discriminate. cbn [negb].
  rewrite field_assign_ne, Htype by discriminate. cbn [negb].
  rewrite Hty, Hts, Hv.
  change (is_tag TObject (VJson fs)) with true. cbv iota.
  rewrite Hpm, Hpo, Hkeys.
  destruct (forEach_stops (check_param PARSEIN r type po p) pre post n e)
    with (o := assign "type" bty (assign "action" act o)) as (u & ->).
  - intros m Hm. eapply check_param_converts; eauto.
  - intros o'. destruct Hn as [(dname & Hm & ->)|(dname & dtype & Hr & ->)].
    + exists o'. eapply check_param_missing; eauto.
    + destruct (check_param_refused r type po p fs n dname dtype o' Hv Hr)
        as (v & Hc).
      now exists (assign n v o').
  - now exists u.
Qed.

(** *** Which parser a command gets *)



End CodecFacts.


(** ** What the helpers of the client leave alone *)

Lemma settle_frame id o s :
  connected (settle id o s) = connected s /\
  registry (settle id o s) = registry s /\
  queue (settle id o s) = queue s /\
  calls (settle id o s) = calls s /\
  inflight (settle id o s) = inflight s /\
  trace (settle id o s) = trace s ++ [Settled id o].
Proof. unfold settle. simpl. break_match; simpl; auto 10. Qed.

Lemma taskFinished_frame s :
  connected (taskFinished s) = connected s /\
  registry (taskFinished s) = registry s /\
  queue (taskFinished s) = tail (queue s) /\
  calls (taskFinished s) = calls s /\
  promises (taskFinished s) = promises s /\
  reactions (taskFinished s) = reactions s /\
  inflight (taskFinished s) = inflight s /\
  jobs (taskFinished s) = jobs s ++ granted (head (tail (queue s))) /\
  trace (taskFinished s) = trace s ++ [Released].
Proof.
  unfold taskFinished, Queue.taskFinished.
  destruct (queue s); simpl; rewrite ?app_nil_r; auto 10.
Qed.

Lemma qsettle_frame id o s :
  connected (qsettle id o s) = connected s /\
  registry (qsettle id o s) = registry s /\
  queue (qsettle id o s) = tail (queue s) /\
  calls (qsettle id o s) = calls s /\
  inflight (qsettle id o s) = inflight s /\
  trace (qsettle id o s) = trace s ++ [Settled id o; Released].
Proof.
  unfold qsettle.
  destruct (taskFinished_frame (settle id o s)) as (-> & -> & -> & -> & _ & _ & -> & _ & ->).
  destruct (settle_frame id o s) as (-> & -> & -> & -> & -> & ->).
  rewrite <- app_assoc. auto 10.
Qed.

Lemma addTask_frame id s :
  connected (addTask id s) = connected s /\
  registry (addTask id s) = registry s /\
  queue (addTask id s) = queue s ++ [id] /\
  calls (addTask id s) = calls s /\
  promises (addTask id s) = promises s /\
  reactions (addTask id s) = reactions s /\
  inflight (addTask id s) = inflight s /\
  jobs (addTask id s) =
    jobs s ++ (if Queue.executing (queue s) then [] else [Grant id]) /\
  trace (addTask id s) = trace s.
Proof.
  unfold addTask, Queue.addTask.
  destruct (queue s); simpl; rewrite ?app_nil_r; auto 10.
Qed.

Lemma forward_frame c p s :
  connected (forward c p s) = connected s /\
  registry (forward c p s) = registry s /\
  queue (forward c p s) = queue s /\
  calls (forward c p s) = calls s /\
  promises (forward c p s) = promises s /\
  inflight (forward c p s) = inflight s /\
  trace (forward c p s) = trace s.
Proof. unfold forward. break_match; simpl; auto 10. Qed.

Section ClientFacts.

Variable PARSEIN : val -> option (val -> val * val).
Variable PARSERET : string -> json -> result val.

Lemma post_frame id s :
  connected (post id s) = connected s /\
  registry (post id s) = registry s /\
  queue (post id s) = queue s /\
  calls (post id s) = calls s /\
  promises (post id s) = promises s /\
  reactions (post id s) = reactions s /\
  jobs (post id s) = jobs s.
Proof. unfold post. break_match; simpl; auto 10. Qed.

(** The call that [comInverter] adds: its [url] and its [checkRet] are
    those of the [try] block, whatever the state of the client. *)
Lemma comInverter_call type po s u c :
  shape PARSEIN (registry s) type po (p_url po) = (u, Ok c) ->
  calls (comInverter PARSEIN type po s) =
    calls s ++ [{| c_type := type; c_paramorgi := with_url po u;
                   c_checkRet := c |}].
Proof.
  intros H. unfold comInverter. rewrite H.
  now destruct (addTask_frame (length (calls s))
    (new_call {| c_type := type; c_paramorgi := with_url po u;
                 c_checkRet := c |} s)) as (_ & _ & _ & -> & _).
Qed.

Lemma comInverter_frame type po s :
  connected (comInverter PARSEIN type po s) = connected s /\
  registry (comInverter PARSEIN type po s) = registry s /\
  inflight (comInverter PARSEIN type po s) = inflight s /\
  length (calls (comInverter PARSEIN type po s)) = S (length (calls s)).
Proof.
  unfold comInverter.
  destruct (shape PARSEIN (registry s) type po (p_url po)) as [u [c|e]].
  - destruct (addTask_frame (length (calls s))
      (new_call {| c_type := type; c_paramorgi := with_url po u;
                   c_checkRet := c |} s)) as (-> & -> & _ & -> & _ & _ & -> & _).
    simpl. rewrite length_app. simpl. repeat split; lia.
  - destruct (settle_frame (length (calls s)) (Reject e)
      (new_call {| c_type := type; c_paramorgi := with_url po u;
                   c_checkRet := VNull |} s)) as (-> & -> & _ & -> & -> & _).
    simpl. rewrite length_app. simpl. repeat split; lia.
Qed.

Lemma comInverter_calls type po s :
  calls (comInverter PARSEIN type po s) =
    calls s ++
    [match shape PARSEIN (registry s) type po (p_url po) with
     | (u, Ok c) => {| c_type := type; c_paramorgi := with_url po u;
                       c_checkRet := c |}
     | (u, Throw _) => {| c_type := type; c_paramorgi := with_url po u;
                          c_checkRet := VNull |}
     end].
Proof.
  unfold comInverter.
  destruct (shape PARSEIN (registry s) type po (p_url po)) as [u [c|e]].
  - now destruct (addTask_frame (length (calls s))
      (new_call {| c_type := type; c_paramorgi := with_url po u;
                   c_checkRet := c |} s)) as (_ & _ & _ & -> & _).
  - now destruct (settle_frame (length (calls s)) (Reject e)
      (new_call {| c_type := type; c_paramorgi := with_url po u;
                   c_checkRet := VNull |} s)) as (_ & _ & _ & -> & _).
Qed.

(** C8.  The validation and encoding step of [comInverter] is
    deterministic and free of I/O.  The call that [comInverter] records -
    its wire fields [url] and its [checkRet] - is the same in any two
    states of a client over the same registry, whatever their session,
    queue and history; the step leaves the session flag and the requests
    in flight as they are; and running the [try] block again on the
    [param] object that it has filled in - which is what the re-issue of a
    command does, [url] being shared - yields the same wire fields and
    the same [checkRet], for a function that declares no parameter named
    action, paramId or type. *)
Theorem encoding_is_repeatable :
  (forall type po s1 s2, registry s1 = registry s2 ->
     calls (comInverter PARSEIN type po s1) !! length (calls s1)
     = calls (comInverter PARSEIN type po s2) !! length (calls s2))
  /\ (forall type po s,
        connected (comInverter PARSEIN type po s) = connected s /\
        inflight (comInverter PARSEIN type po s) = inflight s)
  /\ (forall r type po o u c,
        shape PARSEIN r type po o = (u, Ok c) ->
        ~ In "action" (declared r type po) ->
        ~ In "paramId" (declared r type po) ->
        ~ In "type" (declared r type po) ->
        shape PARSEIN r type (with_url po u) u = (u, Ok c)).
Proof.
  split; [|split].
  - intros type po s1 s2 Hreg. rewrite !comInverter_calls, Hreg.
    now rewrite !lookup_app_r, !Nat.sub_diag by lia.
  - intros type po s.
    destruct (comInverter_frame type po s) as (-> & _ & -> & _). auto.
  - intros r type po o u c H Ha Hp Ht.
    exact (shape_again PARSEIN r type po o u c H Ha Hp Ht).
Qed.

End ClientFacts.


(** ** The invariant of the client *)

Lemma occ_app id l1 l2 : occ id (l1 ++ l2) = (occ id l1 + occ id l2)%nat.
Proof. apply count_occ_app. Qed.

Lemma occ_cons id x l :
  occ id (x :: l) = ((if Nat.eqb x id then 1 else 0) + occ id l)%nat.
Proof.
  unfold occ. simpl. destruct (Nat.eq_dec x id) as [->|Hne].
  - now rewrite Nat.eqb_refl.
  - apply Nat.eqb_neq in Hne. now rewrite Hne.
Qed.

Lemma occ_nil id : occ id [] = 0%nat.
Proof. reflexivity. Qed.

Lemma grants_app js js' : grants (js ++ js') = grants js ++ grants js'.
Proof. apply flat_map_app. Qed.

Lemma forwards_app js js' : forwards (js ++ js') = forwards js ++ forwards js'.
Proof. apply flat_map_app. Qed.

Lemma grants_granted g : grants (granted g) = match g with Some id => [id] | None => [] end.
Proof. now destruct g. Qed.

Lemma forwards_granted g : forwards (granted g) = [].
Proof. now destruct g. Qed.

Lemma settlements_app id t t' :
  settlements id (t ++ t') = settlements id t ++ settlements id t'.
Proof.
  induction t as [|e t IH]; simpl; [reflexivity|].
  destruct e; auto. destruct (Nat.eqb id0 id); simpl; now rewrite IH.
Qed.

Lemma take_out_occ id l rest x :
  take_out id l = Some rest ->
  occ x l = ((if Nat.eqb id x then 1 else 0) + occ x rest)%nat.
Proof.
  revert rest. induction l as [|y l IH]; cbn [take_out]; intros rest;
    [discriminate|].
  destruct (Nat.eqb y id) eqn:E.
  - apply Nat.eqb_eq in E. subst y. intros [= ->]. apply occ_cons.
  - destruct (take_out id l) as [l'|]; [|discriminate].
    intros [= <-]. rewrite !occ_cons, (IH l' eq_refl).
    destruct (Nat.eqb y x), (Nat.eqb id x); lia.
Qed.

Lemma is_settled_insert ps id o x :
  ps !! id = Some None ->
  (if is_settled (<[id := Some o]> ps) x then 1 else 0)%nat
  = ((if Nat.eqb id x then 1 else 0) + (if is_settled ps x then 1 else 0))%nat.
Proof.
  intros Hp. unfold is_settled.
  destruct (Nat.eqb_spec id x) as [->|Hne].
  - rewrite list_lookup_insert_eq, Hp; [reflexivity|].
    now apply lookup_lt_Some in Hp.
  - now rewrite list_lookup_insert_ne.
Qed.

Lemma is_settled_new ps x : is_settled (ps ++ [None]) x = is_settled ps x.
Proof.
  unfold is_settled.
  destruct (Nat.lt_ge_cases x (length ps)) as [Hlt|Hge].
  - now rewrite lookup_app_l.
  - rewrite (lookup_ge_None_2 ps x Hge).
    rewrite lookup_app_r by exact Hge.
    now destruct (x - length ps)%nat as [|[|k]].
Qed.

(** A call in hand stands nowhere else, and its promise is pending. *)
Lemma Inv_hand id hand s :
  Inv (id :: hand) s ->
  (id < length (calls s))%nat /\ promises s !! id = Some None.
Proof.
  intros (Hlen & Htok & _ & _). specialize (Htok id).
  rewrite occ_cons, Nat.eqb_refl in Htok.
  destruct (Nat.ltb_spec id (length (calls s))) as [Hlt|]; [|lia].
  split; [exact Hlt|].
  unfold tokens, is_settled in Htok.
  destruct (promises s !! id) as [[o|]|] eqn:E; [lia|reflexivity|].
  apply lookup_ge_None in E. lia.
Qed.

Arguments occ : simpl never.

Lemma occ_partition (P : nat * nat -> Prop) `{forall x, Decision (P x)}
    (rs : list (nat * nat)) (x : nat) :
  (occ x (map snd (filter P rs))
   + occ x (map snd (filter (fun cp => ~ P cp) rs)))%nat
  = occ x (map snd rs).
Proof.
  induction rs as [|cp rs IH]; [reflexivity|].
  rewrite !filter_cons. destruct (decide (P cp)) as [HP|HP].
  - rewrite decide_False by tauto. simpl. rewrite !occ_cons. lia.
  - rewrite decide_True by tauto. simpl. rewrite !occ_cons. lia.
Qed.

Lemma forwards_woken (o : outcome) (rs : list (nat * nat)) :
  forwards (map (fun cp => Forward (snd cp) o) rs) = map snd rs.
Proof. induction rs as [|cp rs IH]; simpl; [reflexivity|now rewrite IH]. Qed.

Lemma grants_woken (o : outcome) (rs : list (nat * nat)) :
  grants (map (fun cp => Forward (snd cp) o) rs) = [].
Proof. induction rs as [|cp rs IH]; simpl; [reflexivity|exact IH]. Qed.

Lemma Inv_settle id o hand s : Inv (id :: hand) s -> Inv hand (settle id o s).
Proof.
  intros HI. destruct (Inv_hand _ _ _ HI) as [Hlt Hpend].
  destruct HI as (Hlen & Htok & Hre & Hset).
  unfold settle. cbn [log promises]. rewrite Hpend.
  unfold Inv, tokens. simpl.
  split; [now rewrite length_insert|].
  split; [|split].
  - intros x. specialize (Htok x). unfold tokens in Htok.
    rewrite occ_cons in Htok.
    rewrite grants_app, forwards_app, !occ_app, grants_woken, forwards_woken.
    rewrite occ_nil, (is_settled_insert _ _ _ _ Hpend).
    pose proof (occ_partition (fun cp => waits_for id cp = true) (reactions s) x).
    unfold not in *. lia.
  - intros c p Hin. apply list_elem_of_In, list_elem_of_filter in Hin.
    destruct Hin as [Hw Hin]. apply list_elem_of_In in Hin.
    rewrite list_lookup_insert_ne; [now apply (Hre c p)|].
    intros ->. apply Hw. unfold waits_for. simpl. apply Nat.eqb_refl.
  - intros x. rewrite settlements_app, Hset. simpl.
    destruct (Nat.eqb_spec id x) as [->|Hne].
    + rewrite Hpend, list_lookup_insert_eq; [reflexivity|].
      now apply lookup_lt_Some in Hpend.
    + rewrite list_lookup_insert_ne by exact Hne. now rewrite app_nil_r.
Qed.

Lemma Inv_taskFinished hand s : Inv hand s -> Inv hand (taskFinished s).
Proof.
  intros (Hlen & Htok & Hre & Hset).
  unfold taskFinished, Queue.taskFinished, Inv, tokens in *.
  destruct (queue s) as [|x [|y q]]; simpl in *.
  - rewrite !app_nil_r. repeat split; auto.
    intros id. now rewrite settlements_app, Hset, app_nil_r.
  - rewrite !app_nil_r. repeat split; auto.
    intros id. now rewrite settlements_app, Hset, app_nil_r.
  - repeat split; auto.
    + intros id. specialize (Htok id).
      rewrite grants_app, forwards_app, !occ_app. simpl.
      rewrite occ_cons in Htok. rewrite occ_cons, !occ_nil. lia.
    + intros id. now rewrite settlements_app, Hset, app_nil_r.
Qed.

Lemma Inv_qsettle id o hand s : Inv (id :: hand) s -> Inv hand (qsettle id o s).
Proof. intros H. apply Inv_taskFinished, Inv_settle, H. Qed.

Lemma Inv_addTask id hand s : Inv (id :: hand) s -> Inv hand (addTask id s).
Proof.
  intros (Hlen & Htok & Hre & Hset).
  unfold addTask, Queue.addTask, Inv, tokens in *.
  destruct (queue s) as [|x q]; simpl in *.
  - repeat split; auto.
    intros y. specialize (Htok y). rewrite occ_cons in Htok.
    rewrite grants_app, forwards_app, !occ_app. simpl.
    rewrite occ_cons, !occ_nil. lia.
  - rewrite !app_nil_r. repeat split; auto.
    intros y. specialize (Htok y). rewrite occ_cons in Htok.
    rewrite occ_app, occ_cons, occ_nil. lia.
Qed.

Lemma Inv_new_call c hand s :
  Inv hand s -> Inv (length (calls s) :: hand) (new_call c s).
Proof.
  intros (Hlen & Htok & Hre & Hset).
  unfold Inv, tokens in *. simpl.
  rewrite !length_app. simpl.
  split; [lia|]. split; [|split].
  - intros id. specialize (Htok id). rewrite occ_cons, is_settled_new.
    destruct (Nat.eqb_spec (length (calls s)) id) as [<-|Hne].
    + rewrite Nat.ltb_irrefl in Htok.
      destruct (Nat.ltb_spec (length (calls s)) (length (calls s) + 1)); lia.
    + revert Htok.
      destruct (Nat.ltb_spec id (length (calls s))),
               (Nat.ltb_spec id (length (calls s) + 1)); lia.
  - intros c0 p Hin. specialize (Hre c0 p Hin).
    rewrite lookup_app_l; [exact Hre|]. now apply lookup_lt_Some in Hre.
  - intros id. rewrite Hset.
    destruct (Nat.lt_ge_cases id (length (promises s))) as [Hlt|Hge].
    + rewrite lookup_app_l by exact Hlt. reflexivity.
    + rewrite (lookup_ge_None_2 _ _ Hge), lookup_app_r by exact Hge.
      now destruct (id - length (promises s))%nat as [|[|k]].
Qed.

Lemma Inv_log e hand s :
  (forall id o, e <> Settled id o) -> Inv hand s -> Inv hand (log e s).
Proof.
  intros He (Hlen & Htok & Hre & Hset).
  unfold Inv, tokens in *. simpl. repeat split; auto.
  intros id. rewrite settlements_app, Hset.
  destruct e; simpl; rewrite ?app_nil_r; auto.
  now destruct (He id0 o).
Qed.

Lemma Inv_set_connected b hand s : Inv hand s -> Inv hand (set_connected b s).
Proof. intros H. exact H. Qed.

Lemma Inv_to_inflight id hand s :
  Inv (id :: hand) s -> Inv hand (set_inflight (inflight s ++ [id]) s).
Proof.
  intros (Hlen & Htok & Hre & Hset).
  unfold Inv, tokens in *. simpl. repeat split; auto.
  intros y. specialize (Htok y). rewrite occ_cons in Htok.
  rewrite occ_app, occ_cons, occ_nil. lia.
Qed.

Lemma Inv_from_inflight id rest hand s :
  take_out id (inflight s) = Some rest ->
  Inv hand s -> Inv (id :: hand) (set_inflight rest s).
Proof.
  intros Ht (Hlen & Htok & Hre & Hset).
  unfold Inv, tokens in *. simpl. repeat split; auto.
  intros y. specialize (Htok y).
  rewrite (take_out_occ _ _ _ y Ht) in Htok. rewrite occ_cons. lia.
Qed.

Lemma Inv_from_jobs j js hand s :
  jobs s = j :: js -> Inv hand s -> Inv (job_call j :: hand) (set_jobs js s).
Proof.
  intros Hj (Hlen & Htok & Hre & Hset).
  unfold Inv, tokens in *. simpl. repeat split; auto.
  intros y. specialize (Htok y). rewrite Hj in Htok.
  rewrite occ_cons. destruct j; simpl in *; rewrite occ_cons in Htok; lia.
Qed.

Lemma Inv_forward c p hand s :
  (c < length (calls s))%nat ->
  Inv (p :: hand) s -> Inv hand (forward c p s).
Proof.
  intros Hc (Hlen & Htok & Hre & Hset).
  unfold forward, Inv, tokens in *.
  destruct (promises s !! c) as [[o|]|] eqn:E; simpl.
  - repeat split; auto.
    intros y. specialize (Htok y). rewrite occ_cons in Htok.
    rewrite grants_app, forwards_app, !occ_app. simpl.
    rewrite occ_cons, !occ_nil. lia.
  - repeat split; auto.
    + intros y. specialize (Htok y). rewrite occ_cons in Htok.
      rewrite map_app, occ_app. simpl. rewrite occ_cons, occ_nil. lia.
    + intros c0 p0 Hin. apply in_app_or in Hin.
      destruct Hin as [Hin|[[= <- <-]|[]]]; eauto.
  - apply lookup_ge_None in E. lia.
Qed.

Section Invariant.

Variable PARSEIN : val -> option (val -> val * val).
Variable PARSERET : string -> json -> result val.

Lemma Inv_post id hand s : Inv (id :: hand) s -> Inv hand (post id s).
Proof.
  intros HI. destruct (Inv_hand _ _ _ HI) as [Hlt _].
  unfold post. destruct (calls s !! id) as [c|] eqn:E.
  - apply (Inv_to_inflight id hand (log (Posted id (p_url (c_paramorgi c))) s)).
    apply Inv_log; [discriminate|exact HI].
  - apply lookup_ge_None in E. lia.
Qed.

Lemma Inv_comInverter type po hand s :
  Inv hand s -> Inv hand (comInverter PARSEIN type po s).
Proof.
  intros HI. unfold comInverter.
  destruct (shape PARSEIN (registry s) type po (p_url po)) as [u [c|e]].
  - apply Inv_addTask.
    apply (Inv_new_call {| c_type := type; c_paramorgi := with_url po u;
                           c_checkRet := c |} hand s HI).
  - apply Inv_settle.
    apply (Inv_new_call {| c_type := type; c_paramorgi := with_url po u;
                           c_checkRet := VNull |} hand s HI).
Qed.

Lemma Inv_run j hand s :
  Inv (job_call j :: hand) s -> Inv hand (run j s).
Proof.
  intros HI. destruct j as [id|id o]; simpl in *.
  - destruct (connected s); [now apply Inv_post|now apply Inv_qsettle].
  - now apply Inv_qsettle.
Qed.

Lemma Inv_on_answer id c res hand s :
  Inv (id :: hand) s -> Inv hand (on_answer PARSEIN PARSERET id c res s).
Proof.
  intros HI. unfold on_answer.
  destruct (acknowledged (data res)).
  - destruct (unfinished (data res)).
    + apply Inv_forward.
      * destruct (comInverter_frame PARSEIN (c_type c) (c_paramorgi c)
                    (taskFinished s)) as (_ & _ & _ & ->). lia.
      * apply Inv_comInverter, Inv_taskFinished, HI.
    + destruct (has_parser (c_checkRet c)).
      * destruct (c_checkRet c); try (now apply Inv_qsettle).
        destruct (PARSERET f (data res)); apply Inv_qsettle;
          (apply Inv_log; [discriminate|exact HI]).
      * now apply Inv_qsettle.
  - destruct (truthy (of_json (data res))); [now apply Inv_qsettle|].
    destruct (includes "errorMess" (path res)); now apply Inv_qsettle.
Qed.

Lemma Inv_handle i s :
  Inv [] s -> Inv [] (handle PARSEIN PARSERET i s).
Proof.
  intros HI. destruct i as [type func sn|type func sn v|id res|id e|b|];
    simpl.
  - now apply Inv_comInverter.
  - now apply Inv_comInverter.
  - destruct (take_out id (inflight s)) as [rest|] eqn:Et; [|exact HI].
    destruct (calls s !! id) as [c|]; [|exact HI].
    apply Inv_on_answer. now apply Inv_from_inflight.
  - destruct (take_out id (inflight s)) as [rest|] eqn:Et; [|exact HI].
    apply Inv_qsettle. now apply Inv_from_inflight.
  - exact HI.
  - destruct (jobs s) as [|j js] eqn:Ej; [exact HI|].
    apply Inv_run. now apply Inv_from_jobs.
Qed.

Lemma Inv_constructor r : Inv [] (constructor r).
Proof.
  unfold Inv, tokens. simpl. repeat split; auto.
  intros c p [].
Qed.

Lemma reachable_Inv r s : reachable PARSEIN PARSERET r s -> Inv [] s.
Proof.
  induction 1 as [|i s _ IH]; [apply Inv_constructor|now apply Inv_handle].
Qed.

End Invariant.


(* ===================================================================== *)
(** * The claims *)
(* ===================================================================== *)

Lemma occ_In id l : In id l <-> (0 < occ id l)%nat.
Proof. unfold occ. rewrite (count_occ_In Nat.eq_dec). lia. Qed.

Lemma take_out_In id l : In id l -> exists rest, take_out id l = Some rest.
Proof.
  induction l as [|x l IH]; simpl; [intros []|].
  destruct (Nat.eqb_spec x id) as [->|Hne]; [now eexists|].
  intros [->|Hin]; [congruence|].
  destruct (IH Hin) as (rest & ->). now eexists.
Qed.

Lemma settlements_last id o t t' : settlements id (t ++ Settled id o :: t') <> [].
Proof.
  rewrite settlements_app. simpl. rewrite Nat.eqb_refl.
  now destruct (settlements id t).
Qed.

Lemma qsettle_settlements id o s : settlements id (trace (qsettle id o s)) <> [].
Proof.
  destruct (qsettle_frame id o s) as (_ & _ & _ & _ & _ & ->).
  apply settlements_last.
Qed.

Section Claims.

Variable PARSEIN : val -> option (val -> val * val).
Variable PARSERET : string -> json -> result val.

Abbreviation handle := (handle PARSEIN PARSERET).
Abbreviation reachable := (reachable PARSEIN PARSERET).

(** ** Every command is settled exactly once *)

Lemma terminal_settles s i id :
  terminal PARSEIN s i id -> settlements id (trace (handle i s)) <> [].
Proof.
  intros [type func sn u e H|type func sn v u e H|id0 js Hj Hc|id0 o js Hj
          |id0 e Hin|id0 res Hin Hlt Hack]; simpl.
  - unfold getInverterSetting, comInverter. rewrite H.
    match goal with |- context [settle ?i ?o ?s'] =>
      destruct (settle_frame i o s') as (_ & _ & _ & _ & _ & ->) end.
    apply settlements_last.
  - unfold setInverterSetting, comInverter. rewrite H.
    match goal with |- context [settle ?i ?o ?s'] =>
      destruct (settle_frame i o s') as (_ & _ & _ & _ & _ & ->) end.
    apply settlements_last.
  - rewrite Hj. simpl. rewrite Hc. apply qsettle_settlements.
  - rewrite Hj. simpl. apply qsettle_settlements.
  - destruct (take_out_In _ _ Hin) as (rest & ->).
    apply qsettle_settlements.
  - destruct (take_out_In _ _ Hin) as (rest & ->).
    destruct (calls s !! id0) as [c|] eqn:E;
      [|apply lookup_ge_None in E; lia].
    unfold on_answer.
    destruct (acknowledged (data res)).
    + destruct (unfinished (data res)); [discriminate|].
      destruct (has_parser (c_checkRet c)); [|apply qsettle_settlements].
      destruct (c_checkRet c); try apply qsettle_settlements.
      destruct (PARSERET f (data res)); apply qsettle_settlements.
    + destruct (truthy (of_json (data res))); [apply qsettle_settlements|].
      destruct (includes "errorMess" (path res)); apply qsettle_settlements.
Qed.

Lemma terminal_settled r s i id :
  reachable r s -> terminal PARSEIN s i id ->
  exists o, promises (handle i s) !! id = Some (Some o)
            /\ settlements id (trace (handle i s)) = [o].
Proof.
  intros Hr Ht.
  assert (Hr' : reachable r (handle i s)) by now constructor.
  destruct (reachable_Inv _ _ _ _ Hr') as (_ & _ & _ & Hset).
  specialize (Hset id). pose proof (terminal_settles _ _ _ Ht) as Hne.
  destruct (promises (handle i s) !! id) as [[o|]|]; try congruence.
  now exists o.
Qed.


(** ** What a reachable client looks like *)

Lemma handle_registry i s : registry (handle i s) = registry s.
Proof.
  destruct i as [type func sn|type func sn v|id res|id e|b|]; simpl.
  - apply comInverter_frame.
  - apply comInverter_frame.
  - destruct (take_out id (inflight s)) as [rest|]; [|reflexivity].
    destruct (calls s !! id) as [c|]; [|reflexivity].
    unfold on_answer.
    repeat match goal with
           | |- context [if ?b then _ else _] => destruct b
           | |- context [match ?x with _ => _ end] => destruct x
           end;
    repeat first
      [ match goal with |- context [qsettle ?i ?o ?s'] =>
          destruct (qsettle_frame i o s') as (_ & -> & _) end
      | match goal with |- context [forward ?c ?p ?s'] =>
          destruct (forward_frame c p s') as (_ & -> & _) end
      | match goal with |- context [comInverter _ ?t ?p ?s'] =>
          destruct (comInverter_frame PARSEIN t p s') as (_ & -> & _) end
      | match goal with |- context [taskFinished ?s'] =>
          destruct (taskFinished_frame s') as (_ & -> & _) end ];
    reflexivity.
  - destruct (take_out id (inflight s)) as [rest|]; [|reflexivity].
    unfold on_failure.
    now destruct (qsettle_frame id (Reject (Thrown e)) (set_inflight rest s))
      as (_ & -> & _).
  - reflexivity.
  - destruct (jobs s) as [|[id|id o] js]; [reflexivity| |]; simpl.
    + destruct (connected s).
      * now destruct (post_frame id (set_jobs js s)) as (_ & -> & _).
      * now destruct (qsettle_frame id (Reject NotConnected) (set_jobs js s))
          as (_ & -> & _).
    + now destruct (qsettle_frame id o (set_jobs js s)) as (_ & -> & _).
Qed.

Lemma reachable_run r inputs s :
  reachable r s -> reachable r (run_inputs PARSEIN PARSERET inputs s).
Proof.
  revert s. unfold run_inputs.
  induction inputs as [|i inputs IH]; simpl; intros s Hr; [exact Hr|].
  apply IH. now constructor.
Qed.

Lemma reachable_registry r s : reachable r s -> registry s = r.
Proof.
  induction 1 as [|i s _ IH]; [reflexivity|]. now rewrite handle_registry.
Qed.

(** No reaction waits for a call that is yet to be made. *)
Lemma Inv_no_reaction hand s k :
  Inv hand s -> (length (calls s) <= k)%nat ->
  filter (fun cp => waits_for k cp = true) (reactions s) = []
  /\ filter (fun cp => waits_for k cp <> true) (reactions s) = reactions s.
Proof.
  intros (Hlen & _ & Hre & _) Hk.
  assert (H : forall cp, In cp (reactions s) -> waits_for k cp <> true).
  { intros [c p] Hin Hw. apply Hre in Hin. apply lookup_lt_Some in Hin.
    unfold waits_for in Hw. simpl in Hw. apply Nat.eqb_eq in Hw. lia. }
  revert H. generalize (reactions s) as rs.
  induction rs as [|cp rs IH]; intros H; [split; reflexivity|].
  rewrite !filter_cons.
  rewrite decide_False by (apply H; now left).
  rewrite decide_True by (apply H; now left).
  destruct IH as [-> ->]; [|split; reflexivity].
  intros cp' Hin. apply H. now right.
Qed.

(** A command that the [try] block rejects is rejected at once, and
    leaves the queue, the job queue and the transport as they are. *)
Lemma rejected_before_queue r s type po u e :
  reachable r s ->
  shape PARSEIN r type po (p_url po) = (u, Throw e) ->
  queue (comInverter PARSEIN type po s) = queue s /\
  jobs (comInverter PARSEIN type po s) = jobs s /\
  inflight (comInverter PARSEIN type po s) = inflight s /\
  connected (comInverter PARSEIN type po s) = connected s /\
  trace (comInverter PARSEIN type po s)
  = trace s ++ [Settled (length (calls s)) (Reject e)] /\
  promises (comInverter PARSEIN type po s)
  = promises s ++ [Some (Reject e)].
Proof.
  intros Hr Hs. pose proof (reachable_Inv _ _ _ _ Hr) as HI.
  destruct (Inv_no_reaction _ _ _ HI (Nat.le_refl _)) as [Hw Hrest].
  destruct HI as (Hlen & _).
  unfold comInverter. rewrite (reachable_registry _ _ Hr), Hs.
  unfold settle. simpl.
  rewrite lookup_app_r, Hlen, Nat.sub_diag by lia. simpl.
  rewrite Hw. simpl. rewrite app_nil_r. repeat split; auto.
  rewrite <- Hlen.
  rewrite insert_app_r_alt, Nat.sub_diag by lia. reflexivity.
Qed.

(** ** A failure of the transport *)

(** C3, as the code has it.  When the POST of call [id] fails with [e],
    the call is rejected with [e] and the task is finished, so that the
    queue moves on - and the session flag is left as it was. *)
Theorem transport_failure_keeps_session s id e rest :
  take_out id (inflight s) = Some rest ->
  connected (handle (Fail id e) s) = connected s /\
  trace (handle (Fail id e) s)
  = trace s ++ [Settled id (Reject (Thrown e)); Released] /\
  queue (handle (Fail id e) s) = tail (queue s) /\
  inflight (handle (Fail id e) s) = rest.
Proof.
  intros Ht. simpl. rewrite Ht. unfold on_failure.
  destruct (qsettle_frame id (Reject (Thrown e)) (set_inflight rest s))
    as (-> & _ & -> & _ & -> & ->).
  auto.
Qed.

(** ** A rejection by the server *)

(** The promise of a call whose request is with the transport is
    pending, and nothing is on record for it. *)
Lemma inflight_pending r s id :
  reachable r s -> In id (inflight s) ->
  promises s !! id = Some None /\ settlements id (trace s) = [].
Proof.
  intros Hr Hin.
  destruct (reachable_Inv _ _ _ _ Hr) as (Hlen & Htok & _ & Hset).
  specialize (Htok id). specialize (Hset id).
  apply occ_In in Hin. unfold tokens, is_settled in Htok.
  destruct (Nat.ltb_spec id (length (calls s))); [|simpl in Htok; lia].
  destruct (promises s !! id) as [[o|]|] eqn:E.
  - simpl in Htok. lia.
  - auto.
  - apply lookup_ge_None in E. lia.
Qed.

Lemma take_out_Some_In id l rest : take_out id l = Some rest -> In id l.
Proof.
  revert rest. induction l as [|x l IH]; simpl; intros rest; [discriminate|].
  destruct (Nat.eqb_spec x id) as [->|Hne]; [now left|].
  destruct (take_out id l); [|discriminate]. right. eapply IH; eauto.
Qed.

(** C6, as the code has it.  What the code tells apart is whether the
    payload has a [success] field, not what the field says.  For every
    reachable state, call [id] with its request in flight and answer
    [res] with a truthy payload: if the payload has no [success] field
    ([typeof res.data.success === 'undefined']), the call is rejected
    with an error that carries the payload and the task is finished - the
    rejection is the one settlement of the promise, never a resolution,
    and the head of the queue is removed; if the payload has a [success]
    field, whatever its value, and its [msg] is not the empty string, a
    call without parser is resolved with the payload. *)
Theorem server_rejection_is_rejected r s id res rest :
  reachable r s ->
  take_out id (inflight s) = Some rest ->
  truthy (of_json (data res)) = true ->
  (is_tag TUndefined (member (data res) "success") = true ->
   trace (handle (Answer id res) s)
   = trace s ++ [Settled id (Reject (Payload (data res))); Released] /\
   settlements id (trace (handle (Answer id res) s))
   = [Reject (Payload (data res))] /\
   promises (handle (Answer id res) s) !! id
   = Some (Some (Reject (Payload (data res)))) /\
   queue (handle (Answer id res) s) = tail (queue s) /\
   inflight (handle (Answer id res) s) = rest) /\
  (is_tag TUndefined (member (data res) "success") = false ->
   forall c,
     calls s !! id = Some c ->
     unfinished (data res) = false -> has_parser (c_checkRet c) = false ->
     trace (handle (Answer id res) s)
     = trace s ++ [Settled id (Resolve (of_json (data res))); Released] /\
     settlements id (trace (handle (Answer id res) s))
     = [Resolve (of_json (data res))] /\
     promises (handle (Answer id res) s) !! id
     = Some (Some (Resolve (of_json (data res))))).
Proof.
  intros Hr Ht Hd.
  pose proof (take_out_Some_In _ _ _ Ht) as Hin.
  destruct (inflight_pending _ _ _ Hr Hin) as [Hp Hnone].
  assert (Hlt : (id < length (calls s))%nat).
  { destruct (reachable_Inv _ _ _ _ Hr) as (Hlen & _).
    apply lookup_lt_Some in Hp. lia. }
  split.
  - intros Hs.
    assert (Hterm : terminal PARSEIN s (Answer id res) id).
    { constructor; auto. unfold acknowledged. now rewrite Hd, Hs. }
    destruct (terminal_settled r s _ _ Hr Hterm) as (o & Hpo & Hso).
    revert Hpo Hso. simpl. rewrite Ht.
    destruct (calls s !! id) as [c|] eqn:E;
      [|apply lookup_ge_None in E; lia].
    unfold on_answer, acknowledged. rewrite Hd, Hs. simpl.
    destruct (qsettle_frame id (Reject (Payload (data res)))
                (set_inflight rest s)) as (_ & _ & -> & _ & -> & ->).
    simpl. rewrite settlements_app, Hnone. simpl. rewrite Nat.eqb_refl.
    intros Hpo [= <-]. auto.
  - intros Hs c Hc Hu Hno.
    assert (Hack : acknowledged (data res) = true).
    { unfold acknowledged. now rewrite Hd, Hs. }
    assert (Hterm : terminal PARSEIN s (Answer id res) id).
    { constructor; auto. now rewrite Hack, Hu. }
    destruct (terminal_settled r s _ _ Hr Hterm) as (o & Hpo & Hso).
    revert Hpo Hso. simpl. rewrite Ht, Hc.
    unfold on_answer. rewrite Hack, Hu, Hno.
    destruct (qsettle_frame id (Resolve (of_json (data res)))
                (set_inflight rest s)) as (_ & _ & _ & _ & _ & ->).
    simpl. rewrite settlements_app, Hnone. simpl. rewrite Nat.eqb_refl.
    intros Hpo [= <-]. auto.
Qed.

(** ** The slot granted without a session *)

(** C5.  A call that is granted the slot while the session is not
    connected is rejected at once with the not-connected error and
    finishes its task, and no request leaves: the rejection is the one
    settlement of its promise, which from then on holds that error.  And
    two commands that the [try] block accepts, made one after the other
    on an idle, disconnected client, are rejected in the order in which
    they were made, with no request posted and none in flight, and both
    promises hold the not-connected error. *)
Theorem disconnected_commands_are_rejected r :
  (forall s id js,
     jobs s = Grant id :: js -> connected s = false ->
     trace (handle Tick s)
     = trace s ++ [Settled id (Reject NotConnected); Released] /\
     inflight (handle Tick s) = inflight s /\
     queue (handle Tick s) = tail (queue s) /\
     (reachable r s ->
      promises (handle Tick s) !! id = Some (Some (Reject NotConnected)) /\
      settlements id (trace (handle Tick s)) = [Reject NotConnected]))
  /\ (forall s type1 po1 u1 c1 type2 po2 u2 c2,
        reachable r s ->
        connected s = false -> queue s = [] -> jobs s = [] ->
        shape PARSEIN r type1 po1 (p_url po1) = (u1, Ok c1) ->
        shape PARSEIN r type2 po2 (p_url po2) = (u2, Ok c2) ->
        let s' := handle Tick (handle Tick
                    (comInverter PARSEIN type2 po2
                       (comInverter PARSEIN type1 po1 s))) in
        trace s'
        = trace s ++ [Settled (length (calls s)) (Reject NotConnected);
                      Released;
                      Settled (S (length (calls s))) (Reject NotConnected);
                      Released] /\
        inflight s' = inflight s /\ queue s' = [] /\ jobs s' = [] /\
        promises s'
        = promises s ++ [Some (Reject NotConnected);
                         Some (Reject NotConnected)]).
Proof.
  split.
  - intros s id js Hj Hc.
    assert (Ht : trace (handle Tick s)
                 = trace s ++ [Settled id (Reject NotConnected); Released]).
    { simpl. rewrite Hj. simpl. rewrite Hc.
      now destruct (qsettle_frame id (Reject NotConnected) (set_jobs js s))
        as (_ & _ & _ & _ & _ & ->). }
    split; [exact Ht|]. split; [|split].
    + simpl. rewrite Hj. simpl. rewrite Hc.
      now destruct (qsettle_frame id (Reject NotConnected) (set_jobs js s))
        as (_ & _ & _ & _ & -> & _).
    + simpl. rewrite Hj. simpl. rewrite Hc.
      now destruct (qsettle_frame id (Reject NotConnected) (set_jobs js s))
        as (_ & _ & -> & _).
    + intros Hr.
      assert (Hterm : terminal PARSEIN s Tick id)
        by (eapply terminal_not_connected; eauto).
      destruct (terminal_settled r s _ _ Hr Hterm) as (o & Hpo & Hso).
      rewrite Ht, settlements_app in Hso. simpl in Hso.
      rewrite Nat.eqb_refl in Hso.
      destruct (settlements id (trace s)) as [|x [|y l]] eqn:E;
        simpl in Hso; try discriminate.
      injection Hso as <-. split; [exact Hpo|].
      rewrite Ht, settlements_app, E. simpl. now rewrite Nat.eqb_refl.
  - intros s type1 po1 u1 c1 type2 po2 u2 c2 Hr Hc Hq Hj H1 H2 s'.
    subst s'.
    pose proof (reachable_Inv _ _ _ _ Hr) as HI.
    destruct (Inv_no_reaction _ _ _ HI (Nat.le_refl _)) as [Hw0 Hr0].
    destruct (Inv_no_reaction _ _ (S (length (calls s))) HI
                ltac:(lia)) as [Hw1 Hr1].
    destruct HI as (Hlen & _).
    rewrite <- (reachable_registry _ _ Hr) in H1, H2. clear Hr.
    destruct s as [conn reg q cs ps rs infl js tr].
    cbv [connected queue jobs registry calls promises reactions] in *.
    subst conn q js.
    assert (L0 : ((ps ++ [None]) ++ [None]) !! length cs = Some None).
    { rewrite lookup_app_l by (rewrite length_app; simpl; lia).
      now rewrite lookup_app_r, Hlen, Nat.sub_diag by lia. }
    assert (L1 : forall o, <[length cs := o]> ((ps ++ [None]) ++ [None])
                           !! S (length cs) = Some None).
    { intros o. rewrite list_lookup_insert_ne by lia.
      rewrite lookup_app_r by (rewrite length_app; simpl; lia).
      rewrite length_app, Hlen. simpl.
      now replace (S (length cs) - (length cs + 1))%nat with 0%nat by lia. }
    assert (Ecs : forall c : call, length (cs ++ [c]) = S (length cs))
      by (intros c; rewrite length_app; simpl; lia).
    next_call ltac:(run_client; rewrite H1; run_client).
    next_call ltac:(run_client; rewrite H2; run_client; rewrite Ecs).
    next_input ltac:(run_client; rewrite L0; run_client; rewrite Hw0, Hr0;
                     run_client).
    next_input ltac:(run_client; rewrite L1; run_client; rewrite Hw1, Hr1;
                     run_client).
    cbn [trace inflight queue jobs promises].
    rewrite <- !app_assoc. cbn [app].
    repeat split.
    rewrite <- Hlen, !insert_app_r_alt by lia.
    replace (length ps - length ps)%nat with 0%nat by lia.
    now replace (S (length ps) - length ps)%nat with 1%nat by lia.
Qed.

(** ** An answer that is not final *)

(** C1, as the code has it.  On an answer "accepted, not yet finished"
    the call finishes its task - the slot goes to the call that waited
    longest - and the command is re-issued by a new call of
    [comInverter], which joins the queue at its tail and is granted the
    slot only if nothing else waits; the promise of the answered call
    stays pending and is tied to the promise of the new call.  For every
    reachable state, call [id] with its request in flight and such an
    answer, if the [try] block accepts the command again: only
    [taskFinished] is on record for the step, the queue is its old tail
    followed by the new call, the one job that is added grants the slot
    to the head of that queue, both promises are pending, and the new
    call is tied to [id]. *)
Theorem unfinished_command_is_requeued r s id c res rest u ck :
  reachable r s ->
  take_out id (inflight s) = Some rest ->
  calls s !! id = Some c ->
  acknowledged (data res) = true -> unfinished (data res) = true ->
  shape PARSEIN r (c_type c) (c_paramorgi c) (p_url (c_paramorgi c))
  = (u, Ok ck) ->
  let s' := handle (Answer id res) s in
  let n := length (calls s) in
  trace s' = trace s ++ [Released] /\
  queue s' = tail (queue s) ++ [n] /\
  jobs s' = jobs s ++ granted (head (tail (queue s) ++ [n])) /\
  calls s'
  = calls s ++ [{| c_type := c_type c;
                   c_paramorgi := with_url (c_paramorgi c) u;
                   c_checkRet := ck |}] /\
  promises s' !! id = Some None /\ promises s' !! n = Some None /\
  reactions s' = reactions s ++ [(n, id)] /\
  inflight s' = rest.
Proof.
  intros Hr Ht Hc Hack Hunf Hs s' n. subst s' n.
  pose proof (take_out_Some_In _ _ _ Ht) as Hin.
  destruct (inflight_pending _ _ _ Hr Hin) as [Hp _].
  destruct (reachable_Inv _ _ _ _ Hr) as (Hlen & _).
  rewrite <- (reachable_registry _ _ Hr) in Hs. clear Hr.
  destruct s as [conn reg q cs ps rs infl js tr].
  cbv [connected queue jobs registry calls promises reactions inflight
       trace] in *.
  assert (L0 : (ps ++ [None]) !! length cs = Some None)
    by now rewrite lookup_app_r, Hlen, Nat.sub_diag by lia.
  assert (L1 : (ps ++ [None]) !! id = Some None).
  { rewrite lookup_app_l; [exact Hp|]. now apply lookup_lt_Some in Hp. }
  destruct q as [|x [|y q]];
    next_input ltac:(run_client; rewrite Ht, Hc; run_client;
                     rewrite Hack, Hunf; run_client; rewrite Hs;
                     run_client; rewrite L0; run_client);
    cbn [trace inflight queue jobs calls promises reactions head tail app];
    rewrite ?app_nil_r, <- ?app_assoc; auto 10.
Qed.

(** ** The result parser *)





(** ** Commands that the [try] block rejects *)

(** What an object inherits under a name is never a string, and it is
    an object under the name [__proto__] only. *)
Lemma prototype_not_string k :
  is_tag TString (field k Object_prototype) = false.
Proof.
  unfold field, Object_prototype. cbn [assoc].
  repeat match goal with
         | |- context [if ?b then _ else _] => destruct b
         end; reflexivity.
Qed.

Lemma inherited_not_string k : is_tag TString (inherited k) = false.
Proof.
  unfold inherited. destruct (String.eqb k "__proto__"); [reflexivity|].
  apply prototype_not_string.
Qed.

Lemma inherited_object k :
  is_tag TObject (inherited k) = true -> k = "__proto__".
Proof.
  unfold inherited.
  destruct (String.eqb_spec k "__proto__") as [E|E]; [auto|].
  unfold field, Object_prototype. cbn [assoc].
  repeat match goal with
         | |- context [if String.eqb k ?n then _ else _] =>
             destruct (String.eqb_spec k n)
         end; try discriminate; congruence.
Qed.

(** C4, as the code has it.  A command that the [try] block rejects is
    rejected at once: the queue, the job queue, the requests in flight and
    the session are as before, and the one new event is the rejection.
    The block rejects a device type under which the registry holds no
    object, or holds one without the action, with an error that names
    the action and the type; a function under which the base of the type
    holds no object, with an error that names the function and the type;
    and a command whose supplied values are an object, for a descriptor
    with a string [type] and a parameter map, at the first declared
    parameter that is missing or that its converter refuses, with an
    error that names the parameter (and, when refused, its type), the
    function and the device type.  What a name finds is an own property
    or a member of [Object.prototype]: a device type that is not a
    property of the registry is always rejected, and so is a function
    that is not a property of the base, unless its name is [__proto__]. *)
Theorem invalid_commands_never_reach_the_queue r s type po :
  reachable r s ->
  (forall u e,
     shape PARSEIN r type po (p_url po) = (u, Throw e) ->
     queue (comInverter PARSEIN type po s) = queue s /\
     jobs (comInverter PARSEIN type po s) = jobs s /\
     inflight (comInverter PARSEIN type po s) = inflight s /\
     connected (comInverter PARSEIN type po s) = connected s /\
     trace (comInverter PARSEIN type po s)
     = trace s ++ [Settled (length (calls s)) (Reject e)] /\
     promises (comInverter PARSEIN type po s)
     = promises s ++ [Some (Reject e)])
  /\ (forall a gt,
        get r GROWATTTYPE type = Ok gt -> p_action po = VStr a ->
        is_tag TObject gt = false
        \/ (exists act, get r gt a = Ok act /\ is_tag TString act = false) ->
        shape PARSEIN r type po (p_url po)
        = (p_url po, Throw (UnknownAction a type)))
  /\ (forall gt act bs,
        known_type r type po gt act -> p_base po = VStr bs ->
        (exists base, get r gt bs = Ok base /\
           (is_tag TObject base = false
            \/ exists b, is_tag TObject base = true /\
                 get r base (p_func po) = Ok b /\ is_tag TObject b = false)) ->
        shape PARSEIN r type po (p_url po)
        = (assign "action" act (p_url po),
           Throw (UnknownFunction (p_func po) type)))
  /\ (forall gt act b p fs pre n post e,
        known_type r type po gt act ->
        write_descriptor r po gt b p (pre ++ n :: post) ->
        p_val po = VJson fs ->
        is_tag TUndefined (field "paramId" (p_url po)) = true ->
        is_tag TUndefined (field "type" (p_url po)) = false ->
        (forall m, In m pre -> converts PARSEIN r p fs m) ->
        (exists dname, missing r p fs n dname
                       /\ e = MissingValue dname (p_func po) type)
        \/ (exists dname dtype, refused PARSEIN r p fs n dname dtype
                       /\ e = IncorrectValue dname dtype (p_func po) type) ->
        exists u, shape PARSEIN r type po (p_url po) = (u, Throw e))
  /\ (forall (types : obj) a,
        r !! 0%nat = Some types -> assoc type types = None ->
        p_action po = VStr a ->
        shape PARSEIN r type po (p_url po)
        = (p_url po, Throw (UnknownAction a type)))
  /\ (forall gt act bs (l : loc) (functions : obj),
        known_type r type po gt act -> p_base po = VStr bs ->
        get r gt bs = Ok (VRef l) -> r !! l = Some functions ->
        assoc (p_func po) functions = None ->
        p_func po <> "__proto__" ->
        shape PARSEIN r type po (p_url po)
        = (assign "action" act (p_url po),
           Throw (UnknownFunction (p_func po) type))).
Proof.
  intros Hr. split; [|split; [|split; [|split; [|split]]]].
  - intros u e H. now apply (rejected_before_queue r s type po u e).
  - intros a gt Hgt Ha H. now apply shape_unknown_type with (gt := gt).
  - intros gt act bs Hk Hb H.
    now apply shape_unknown_function with (gt := gt) (bs := bs).
  - intros gt act b p fs pre n post e Hk Hw Hv Hid Hty Hpre Hn.
    eapply shape_bad_parameter; eauto.
  - intros types a Ht Hn Ha.
    assert (Hg : get r GROWATTTYPE type = Ok (inherited type)).
    { unfold get, GROWATTTYPE, obj, loc in *. now rewrite Ht, Hn. }
    apply shape_unknown_type with (gt := inherited type); auto.
    destruct (is_tag TObject (inherited type)) eqn:E; [|now left].
    right. apply inherited_object in E. subst type.
    exists (field a Object_prototype). split; [reflexivity|].
    apply prototype_not_string.
  - intros gt act bs l functions Hk Hb Hg Hl Hn Hne.
    apply shape_unknown_function with (gt := gt) (bs := bs); auto.
    exists (VRef l). split; [exact Hg|]. right.
    exists (inherited (p_func po)). split; [reflexivity|]. split.
    + unfold get, obj, loc in *. now rewrite Hl, Hn.
    + destruct (is_tag TObject (inherited (p_func po))) eqn:E; auto.
      now apply inherited_object in E.
Qed.

End Claims.


(* ===================================================================== *)
(** * The claims on the sample registry *)
(* ===================================================================== *)

Module Examples.

Import Sample.

Lemma go_reachable inputs : reachable PARSEIN PARSERET registry (go inputs).
Proof. apply reachable_run. constructor. Qed.

(** ** C8 *)

Lemma encoding_is_repeatable_instance :
  shape PARSEIN registry "tlx" power_command (p_url power_command)
  = (power_url, Ok VNull)
  /\ ~ In "action" (declared registry "tlx" power_command)
  /\ ~ In "paramId" (declared registry "tlx" power_command)
  /\ ~ In "type" (declared registry "tlx" power_command)
  /\ shape PARSEIN registry "tlx" (with_url power_command power_url) power_url
     = (power_url, Ok VNull).
Proof.
  assert (H : shape PARSEIN registry "tlx" power_command (p_url power_command)
              = (power_url, Ok VNull)) by reflexivity.
  assert (Ha : ~ In "action" (declared registry "tlx" power_command))
    by (vm_compute; intros [E|[E|[]]]; discriminate E).
  assert (Hp : ~ In "paramId" (declared registry "tlx" power_command))
    by (vm_compute; intros [E|[E|[]]]; discriminate E).
  assert (Ht : ~ In "type" (declared registry "tlx" power_command))
    by (vm_compute; intros [E|[E|[]]]; discriminate E).
  refine (conj H (conj Ha (conj Hp (conj Ht _)))).
  exact (proj2 (proj2 (encoding_is_repeatable PARSEIN))
           registry "tlx" power_command (p_url power_command) power_url
           VNull H Ha Hp Ht).
Defined.

(** ** C10 *)

Lemma undeclared_values_are_ignored_instance :
  (forall n, In n (declared registry "tlx"
                     (write_command "power" SN
                        (VJson [("startHour", JNum 1); ("endHour", JNum 2)]))) ->
     assoc n [("startHour", JNum 1); ("endHour", JNum 2)]
     = assoc n [("note", JStr "x"); ("startHour", JNum 1);
                ("endHour", JNum 2); ("paramId", JNum 7)])
  /\ shape PARSEIN registry "tlx"
       (write_command "power" SN
          (VJson [("startHour", JNum 1); ("endHour", JNum 2)]))
       (p_url (write_command "power" SN
          (VJson [("startHour", JNum 1); ("endHour", JNum 2)])))
     = shape PARSEIN registry "tlx"
         (write_command "power" SN
            (VJson [("note", JStr "x"); ("startHour", JNum 1);
                    ("endHour", JNum 2); ("paramId", JNum 7)]))
         (p_url (write_command "power" SN
            (VJson [("note", JStr "x"); ("startHour", JNum 1);
                    ("endHour", JNum 2); ("paramId", JNum 7)]))).
Proof.
  assert (H : forall n, In n (declared registry "tlx"
                     (write_command "power" SN
                        (VJson [("startHour", JNum 1); ("endHour", JNum 2)]))) ->
     assoc n [("startHour", JNum 1); ("endHour", JNum 2)]
     = assoc n [("note", JStr "x"); ("startHour", JNum 1);
                ("endHour", JNum 2); ("paramId", JNum 7)]).
  { intros n Hn. vm_compute in Hn.
    destruct Hn as [<-|[<-|[]]]; reflexivity. }
  split; [exact H|].
  exact (proj1 (undeclared_values_are_ignored PARSEIN registry "tlx" "power"
                  SN _ _ H)).
Defined.

(** ** C2 *)


(** ** C3 *)

Lemma transport_failure_keeps_session_instance :
  take_out 0 (inflight power_in_flight) = Some []
  /\ connected power_in_flight = true
  /\ connected (handle PARSEIN PARSERET (Fail 0 (VStr "ETIMEDOUT"))
                  power_in_flight)
     = connected power_in_flight
  /\ trace (handle PARSEIN PARSERET (Fail 0 (VStr "ETIMEDOUT"))
              power_in_flight)
     = trace power_in_flight
       ++ [Settled 0 (Reject (Thrown (VStr "ETIMEDOUT"))); Released]
  /\ queue (handle PARSEIN PARSERET (Fail 0 (VStr "ETIMEDOUT"))
              power_in_flight)
     = tail (queue power_in_flight)
  /\ inflight (handle PARSEIN PARSERET (Fail 0 (VStr "ETIMEDOUT"))
                 power_in_flight)
     = [].
Proof.
  assert (H : take_out 0 (inflight power_in_flight) = Some [])
    by reflexivity.
  assert (Hc : connected power_in_flight = true) by reflexivity.
  exact (conj H (conj Hc
           (transport_failure_keeps_session PARSEIN PARSERET
              power_in_flight 0%nat (VStr "ETIMEDOUT") [] H))).
Defined.

(** ** C6 *)

(** C6, as stated, fails here.  The server answers the write of [power]
    with the explicit failure [{success: false, msg: '501'}]: the payload
    has a [success] field, so the promise is resolved with it, as for a
    success, and nothing is rejected. *)
Lemma failure_acknowledgment_is_resolved :
  member (data failure_ack) "success" = VBool false
  /\ trace (handle PARSEIN PARSERET (Answer 0 failure_ack) power_in_flight)
     = [Posted 0 power_url;
        Settled 0 (Resolve (of_json (data failure_ack))); Released]
  /\ promises (handle PARSEIN PARSERET (Answer 0 failure_ack)
                 power_in_flight)
     = [Some (Resolve (of_json (data failure_ack)))].
Proof. repeat split. Qed.

(** C6, amended: a payload without the field [success] rejects the
    write of [power]. *)
Lemma server_rejection_is_rejected_instance :
  take_out 0 (inflight power_in_flight) = Some []
  /\ truthy (of_json (data refusal)) = true
  /\ is_tag TUndefined (member (data refusal) "success") = true
  /\ trace (handle PARSEIN PARSERET (Answer 0 refusal) power_in_flight)
     = trace power_in_flight
       ++ [Settled 0 (Reject (Payload (data refusal))); Released]
  /\ settlements 0
       (trace (handle PARSEIN PARSERET (Answer 0 refusal) power_in_flight))
     = [Reject (Payload (data refusal))]
  /\ promises (handle PARSEIN PARSERET (Answer 0 refusal) power_in_flight)
       !! 0%nat
     = Some (Some (Reject (Payload (data refusal))))
  /\ queue (handle PARSEIN PARSERET (Answer 0 refusal) power_in_flight)
     = tail (queue power_in_flight)
  /\ inflight (handle PARSEIN PARSERET (Answer 0 refusal) power_in_flight)
     = [].
Proof.
  assert (H : take_out 0 (inflight power_in_flight) = Some [])
    by reflexivity.
  assert (Hd : truthy (of_json (data refusal)) = true) by reflexivity.
  assert (Hs : is_tag TUndefined (member (data refusal) "success") = true)
    by reflexivity.
  exact (conj H (conj Hd (conj Hs
           (proj1 (server_rejection_is_rejected PARSEIN PARSERET registry
                     power_in_flight 0%nat refusal [] (go_reachable _) H Hd)
              Hs)))).
Defined.

(** ** C5 *)

Lemma disconnected_commands_are_rejected_instance :
  shape PARSEIN registry "tlx" power_command (p_url power_command)
  = (power_url, Ok VNull)
  /\ shape PARSEIN registry "tlx" (write_command "plain" SN VUndef)
       (p_url (write_command "plain" SN VUndef))
     = (plain_url, Ok VNull)
  /\ trace (go [CallSet "tlx" "power" SN (hours (JNum 1) (JNum 2));
                CallSet "tlx" "plain" SN VUndef; Tick; Tick])
     = trace start
       ++ [Settled (length (calls start)) (Reject NotConnected); Released;
           Settled (S (length (calls start))) (Reject NotConnected);
           Released]
  /\ inflight (go [CallSet "tlx" "power" SN (hours (JNum 1) (JNum 2));
                   CallSet "tlx" "plain" SN VUndef; Tick; Tick])
     = inflight start
  /\ queue (go [CallSet "tlx" "power" SN (hours (JNum 1) (JNum 2));
                CallSet "tlx" "plain" SN VUndef; Tick; Tick]) = []
  /\ jobs (go [CallSet "tlx" "power" SN (hours (JNum 1) (JNum 2));
               CallSet "tlx" "plain" SN VUndef; Tick; Tick]) = []
  /\ promises (go [CallSet "tlx" "power" SN (hours (JNum 1) (JNum 2));
                   CallSet "tlx" "plain" SN VUndef; Tick; Tick])
     = promises start ++ [Some (Reject NotConnected);
                          Some (Reject NotConnected)].
Proof.
  assert (H1 : shape PARSEIN registry "tlx" power_command
                 (p_url power_command) = (power_url, Ok VNull))
    by reflexivity.
  assert (H2 : shape PARSEIN registry "tlx" (write_command "plain" SN VUndef)
                 (p_url (write_command "plain" SN VUndef))
               = (plain_url, Ok VNull)) by reflexivity.
  exact (conj H1 (conj H2
           (proj2 (disconnected_commands_are_rejected PARSEIN PARSERET
                     registry)
              start "tlx" power_command power_url VNull
              "tlx" (write_command "plain" SN VUndef) plain_url VNull
              (reachable_new _ _ _) eq_refl eq_refl eq_refl H1 H2))).
Defined.

(** ** C1 *)

(** C1, as stated, fails here.  The second of two commands posts its
    request while the first, whose
    request was answered "accepted, not yet finished", is still pending:
    the first has finished its task and waits at the tail of the queue. *)
Lemma later_command_overtakes :
  overtakes (handle PARSEIN PARSERET Tick
               (handle PARSEIN PARSERET (Answer 0 pending_ack) two_commands))
    0 1
  /\ trace (handle PARSEIN PARSERET Tick
              (handle PARSEIN PARSERET (Answer 0 pending_ack) two_commands))
     = [Posted 0 power_url; Released; Posted 1 plain_url]
  /\ queue (handle PARSEIN PARSERET Tick
              (handle PARSEIN PARSERET (Answer 0 pending_ack) two_commands))
     = [1; 2]%nat.
Proof.
  repeat split.
  exists power_url, plain_url, [], [Released], []. reflexivity.
Qed.

(** C1, amended: the first of two queued writes receives an empty
    completion message; the slot is released and the repetition waits
    behind the second write. *)
Lemma unfinished_command_is_requeued_instance :
  take_out 0 (inflight two_commands) = Some []
  /\ calls two_commands !! 0%nat = Some power_call
  /\ acknowledged (data pending_ack) = true
  /\ unfinished (data pending_ack) = true
  /\ trace (handle PARSEIN PARSERET (Answer 0 pending_ack) two_commands)
     = trace two_commands ++ [Released]
  /\ queue (handle PARSEIN PARSERET (Answer 0 pending_ack) two_commands)
     = tail (queue two_commands) ++ [length (calls two_commands)]
  /\ jobs (handle PARSEIN PARSERET (Answer 0 pending_ack) two_commands)
     = jobs two_commands
       ++ granted (head (tail (queue two_commands)
                         ++ [length (calls two_commands)]))
  /\ calls (handle PARSEIN PARSERET (Answer 0 pending_ack) two_commands)
     = calls two_commands
       ++ [{| c_type := c_type power_call;
              c_paramorgi := with_url (c_paramorgi power_call) power_url;
              c_checkRet := VNull |}]
  /\ promises (handle PARSEIN PARSERET (Answer 0 pending_ack) two_commands)
       !! 0%nat = Some None
  /\ promises (handle PARSEIN PARSERET (Answer 0 pending_ack) two_commands)
       !! length (calls two_commands) = Some None
  /\ reactions (handle PARSEIN PARSERET (Answer 0 pending_ack) two_commands)
     = reactions two_commands ++ [(length (calls two_commands), 0%nat)]
  /\ inflight (handle PARSEIN PARSERET (Answer 0 pending_ack) two_commands)
     = [].
Proof.
  assert (Ht : take_out 0 (inflight two_commands) = Some [])
    by reflexivity.
  assert (Hc : calls two_commands !! 0%nat = Some power_call)
    by reflexivity.
  assert (Ha : acknowledged (data pending_ack) = true) by reflexivity.
  assert (Hu : unfinished (data pending_ack) = true) by reflexivity.
  exact (conj Ht (conj Hc (conj Ha (conj Hu
           (unfinished_command_is_requeued PARSEIN PARSERET registry
              two_commands 0%nat power_call pending_ack [] power_url VNull
              (go_reachable _) Ht Hc Ha Hu eq_refl))))).
Defined.

(** ** C7 *)



(** ** C4 *)

(** C4, as stated, fails here.  A write of [power] without values: both
    declared parameters are
    missing, and the command is accepted, queued and posted with the
    fixed fields alone. *)
Lemma write_without_values_is_posted :
  declared registry "tlx" (write_command "power" SN VUndef)
  = ["startHour"; "endHour"]
  /\ queue (go [Session true; CallSet "tlx" "power" SN VUndef]) = [0%nat]
  /\ promises (go [Session true; CallSet "tlx" "power" SN VUndef]) = [None]
  /\ trace (go [Session true; CallSet "tlx" "power" SN VUndef; Tick])
     = [Posted 0 [("action", VStr "tlxSet"); ("serialNum", SN);
                  ("type", VStr "tlx_grid_first")]].
Proof. repeat split. Qed.

(** C4, amended: [endHour = 30] is refused by the converter of its
    declared type and the write never reaches the queue. *)
Lemma invalid_commands_never_reach_the_queue_instance :
  reachable PARSEIN PARSERET registry start
  /\ known_type registry "tlx" late_command (VRef 1%nat) (VStr "tlxSet")
  /\ write_descriptor registry late_command (VRef 1%nat) (VRef 6%nat) (VRef 7%nat)
       (["startHour"] ++ "endHour" :: [])
  /\ converts PARSEIN registry (VRef 7%nat)
       [("startHour", JNum 1); ("endHour", JNum 30)] "startHour"
  /\ refused PARSEIN registry (VRef 7%nat)
       [("startHour", JNum 1); ("endHour", JNum 30)] "endHour"
       (VStr "End hour") (VStr "INUM_0_23")
  /\ (exists u,
        shape PARSEIN registry "tlx" late_command (p_url late_command)
        = (u, Throw (IncorrectValue (VStr "End hour") (VStr "INUM_0_23")
                       "power" "tlx")))
  /\ queue (comInverter PARSEIN "tlx" late_command start) = queue start
  /\ jobs (comInverter PARSEIN "tlx" late_command start) = jobs start
  /\ inflight (comInverter PARSEIN "tlx" late_command start) = inflight start
  /\ trace (comInverter PARSEIN "tlx" late_command start)
     = trace start
       ++ [Settled (length (calls start))
             (Reject (IncorrectValue (VStr "End hour") (VStr "INUM_0_23")
                        "power" "tlx"))].
Proof.
  assert (Hr : reachable PARSEIN PARSERET registry start) by constructor.
  assert (Hk : known_type registry "tlx" late_command (VRef 1%nat) (VStr "tlxSet")).
  { exists "writeParam". repeat split. }
  assert (Hw : write_descriptor registry late_command (VRef 1%nat) (VRef 6%nat)
                 (VRef 7%nat) (["startHour"] ++ "endHour" :: [])).
  { exists "comInverter", (VRef 2%nat), (VStr "tlx_grid_first"). repeat split. }
  assert (Hc : converts PARSEIN registry (VRef 7%nat)
                 [("startHour", JNum 1); ("endHour", JNum 30)] "startHour").
  { exists (VNum 1), (VRef 8%nat), (VStr "INUM_0_23").
    eexists. repeat split. }
  assert (Hf : refused PARSEIN registry (VRef 7%nat)
                 [("startHour", JNum 1); ("endHour", JNum 30)] "endHour"
                 (VStr "End hour") (VStr "INUM_0_23")).
  { exists (VNum 30), (VRef 9%nat). eexists. repeat split. }
  pose proof (invalid_commands_never_reach_the_queue PARSEIN PARSERET
                registry start "tlx" late_command Hr)
    as (Hgate & _ & _ & Hbad & _).
  assert (Hs : exists u,
        shape PARSEIN registry "tlx" late_command (p_url late_command)
        = (u, Throw (IncorrectValue (VStr "End hour") (VStr "INUM_0_23")
                       "power" "tlx"))).
  { apply (Hbad (VRef 1%nat) (VStr "tlxSet") (VRef 6%nat) (VRef 7%nat)
             [("startHour", JNum 1); ("endHour", JNum 30)]
             ["startHour"] "endHour" [] _ Hk Hw eq_refl eq_refl eq_refl).
    - intros m [<-|[]]. exact Hc.
    - right. exists (VStr "End hour"), (VStr "INUM_0_23"). now split. }
  refine (conj Hr (conj Hk (conj Hw (conj Hc (conj Hf (conj Hs _)))))).
  destruct Hs as (u & Hu).
  destruct (Hgate u _ Hu) as (Hq & Hj & Hi & _ & Ht & _).
  exact (conj Hq (conj Hj (conj Hi Ht))).
Defined.

(** ** C9 *)

(** C9, on the code.  The map that [getInverterCommunication] returns
    for [tlx] holds, for
    the parameter [endHour] of [power], the very object 9 of the registry;
    the caller who writes [ret.power.param.endHour.type = 'DATETIME']
    through it changes the registry, and an end hour that the [try] block
    refused before is accepted afterwards. *)
Theorem parameter_descriptors_are_shared :
  (exists ret d,
     getInverterCommunication registry "tlx" = Ok ret
     /\ assoc "power" ret = Some d
     /\ assoc "endHour" (d_param d) = Some (VRef 9%nat)
     /\ get registry (VRef 7%nat) "endHour" = Ok (VRef 9%nat))
  /\ get registry (VRef 9%nat) "type" = Ok (VStr "INUM_0_23")
  /\ get (put registry 9%nat "type" (VStr "DATETIME")) (VRef 9%nat) "type"
     = Ok (VStr "DATETIME")
  /\ put registry 9%nat "type" (VStr "DATETIME") <> registry
  /\ snd (shape PARSEIN registry "tlx"
            (write_command "power" SN (hours (JNum 1) (JStr "late")))
            (p_url (write_command "power" SN (hours (JNum 1) (JStr "late")))))
     = Throw (IncorrectValue (VStr "End hour") (VStr "INUM_0_23")
                "power" "tlx")
  /\ snd (shape PARSEIN (put registry 9%nat "type" (VStr "DATETIME")) "tlx"
            (write_command "power" SN (hours (JNum 1) (JStr "late")))
            (p_url (write_command "power" SN (hours (JNum 1) (JStr "late")))))
     = Ok VNull.
Proof.
  split; [|repeat split; discriminate].
  eexists. eexists. repeat split.
Qed.

(** ** Names that every object inherits *)

(** The registry is made of plain objects, so a name of
    [Object.prototype] finds something in each of them.  The function
    name [__proto__] finds the prototype, an object: the write passes the
    [try] block with the fixed fields alone and is queued and posted.
    The function name [constructor] finds a function and is rejected as
    unknown; the device type [constructor] finds a function too, which
    has no [comInverter]: [getInverterCommunication] returns the empty
    map, and a command is rejected for its action. *)
Lemma inherited_names_are_found :
  get registry (VRef 2%nat) "__proto__" = Ok VProto
  /\ trace (go [Session true; CallSet "tlx" "__proto__" SN VUndef; Tick])
     = [Posted 0 [("action", VStr "tlxSet"); ("serialNum", SN);
                  ("type", VStr "")]]
  /\ trace (go [Session true; CallSet "tlx" "constructor" SN VUndef])
     = [Settled 0 (Reject (UnknownFunction "constructor" "tlx"))]
  /\ getInverterCommunication registry "constructor" = Ok []
  /\ trace (go [Session true; CallGet "constructor" "time" SN])
     = [Settled 0 (Reject (UnknownAction "readParam" "constructor"))].
Proof. repeat split. Qed.

End Examples.


(* ===================================================================== *)
(** * The session and the plain calls of the portal *)
(* ===================================================================== *)

Module PortalFacts.

Import Portal.

(** ** Strings *)

Lemma append_empty_r (s : string) : (s ++ "")%string = s.
Proof. induction s; simpl; congruence. Qed.

Lemma append_assoc (a b c : string) :
  ((a ++ b) ++ c)%string = (a ++ b ++ c)%string.
Proof. induction a; simpl; congruence. Qed.

Lemma prefix_nil (s : string) : String.prefix "" s = true.
Proof. now destruct s. Qed.

Lemma prefix_app (p s b : string) :
  String.prefix p s = true -> String.prefix p (s ++ b) = true.
Proof.
  revert p. induction s as [|c s IH]; intros [|a p]; simpl;
    auto using prefix_nil; try discriminate.
  destruct (ascii_dec a c); auto.
Qed.

Lemma prefix_here (p b : string) : String.prefix p (p ++ b) = true.
Proof.
  induction p as [|a p IH]; simpl; auto using prefix_nil.
  destruct (ascii_dec a a); congruence.
Qed.

Lemma includes_unfold (k s : string) :
  includes k s
  = if String.prefix k s then true
    else match s with
         | EmptyString => false
         | String _ s' => includes k s'
         end.
Proof. now destruct s. Qed.

Lemma includes_prefix (k s : string) :
  String.prefix k s = true -> includes k s = true.
Proof. intros H. now rewrite includes_unfold, H. Qed.

Lemma includes_app_l (k s b : string) :
  includes k s = true -> includes k (s ++ b) = true.
Proof.
  induction s as [|c s IH]; rewrite includes_unfold;
    destruct (String.prefix k _) eqn:E; try discriminate; intros H;
    try (now apply includes_prefix, prefix_app).
  change (String c s ++ b)%string with (String c (s ++ b)).
  rewrite includes_unfold, (IH H).
  destruct (String.prefix k (String c (s ++ b))); reflexivity.
Qed.

Lemma includes_app_r (k a s : string) :
  includes k s = true -> includes k (a ++ s) = true.
Proof.
  intros H. induction a as [|c a IH]; auto.
  change (String c a ++ s)%string with (String c (a ++ s)).
  rewrite includes_unfold, IH.
  destruct (String.prefix k (String c (a ++ s))); reflexivity.
Qed.

Lemma includes_here (k a b : string) : includes k (a ++ k ++ b) = true.
Proof. apply includes_app_r, includes_prefix, prefix_here. Qed.

Lemma split_not_nil (sep : ascii) (s : string) : split sep s <> [].
Proof.
  destruct s as [|c s]; simpl; [discriminate|].
  destruct (Ascii.eqb c sep); [discriminate|].
  destruct (split sep s); discriminate.
Qed.

(** A string without the separator is one part. *)
Lemma split_free (sep : ascii) (a : string) :
  free_of sep a = true -> split sep a = [a].
Proof.
  induction a as [|c a IH]; simpl; auto.
  destruct (Ascii.eqb c sep); simpl; [discriminate|].
  intros H. now rewrite (IH H).
Qed.

(** The first part ends at the first separator. *)
Lemma split_app (sep : ascii) (a b : string) :
  free_of sep a = true ->
  split sep (a ++ String sep b) = a :: split sep b.
Proof.
  induction a as [|c a IH]; simpl.
  - intros _. now rewrite Ascii.eqb_refl.
  - destruct (Ascii.eqb c sep); simpl; [discriminate|].
    intros H. now rewrite (IH H).
Qed.

(** [split] undoes [join]. *)
Lemma split_concat (sep : ascii) (parts : list string) :
  parts <> [] ->
  Forall (fun v => free_of sep v = true) parts ->
  split sep (String.concat (String sep "") parts) = parts.
Proof.
  induction parts as [|a parts IH]; [congruence|].
  intros _ H. inversion H as [|? ? Ha Hparts]; subst.
  destruct parts as [|b parts].
  - simpl. now apply split_free.
  - change (String.concat (String sep "") (a :: b :: parts))
      with (a ++ String sep (String.concat (String sep "") (b :: parts)))%string.
    rewrite split_app by assumption.
    now rewrite IH.
Qed.

(** Where the parts of a string lie in it: the first one at its start,
    every other one right after a separator. *)
Lemma split_parts (sep : ascii) (s : string) :
  exists v0 vs,
    split sep s = v0 :: vs /\
    (exists rest, s = (v0 ++ rest)%string) /\
    Forall (fun v => exists pre rest, s = (pre ++ String sep (v ++ rest))%string)
      vs.
Proof.
  induction s as [|c s (v0 & vs & E & (rest & E0) & Hvs)]; simpl.
  - exists "", []. split; [reflexivity|]. split; [now exists ""|constructor].
  - destruct (Ascii.eqb c sep) eqn:Ec.
    + apply Ascii.eqb_eq in Ec. subst c.
      exists "", (v0 :: vs). split; [now rewrite E|].
      split; [now exists (String sep s)|].
      constructor.
      * exists "", rest. simpl. now rewrite <- E0.
      * eapply Forall_impl; [exact Hvs|].
        intros v (pre & rest' & ->).
        now exists (String sep pre), rest'.
    + rewrite E. exists (String c v0), vs. split; [reflexivity|].
      split.
      * exists rest. simpl. now rewrite <- E0.
      * eapply Forall_impl; [exact Hvs|].
        intros v (pre & rest' & ->).
        now exists (String c pre), rest'.
Qed.

(** A part that starts with [p] shows in the string: at its start, or as
    the separator followed by [p]. *)
Lemma split_prefix (sep : ascii) (p s v : string) :
  In v (split sep s) -> String.prefix p v = true ->
  String.prefix p s = true \/ includes (String sep p) s = true.
Proof.
  destruct (split_parts sep s) as (v0 & vs & -> & (rest & E0) & Hvs).
  intros [<-|Hin] Hp.
  - left. rewrite E0. now apply prefix_app.
  - right. rewrite Forall_forall in Hvs.
    destruct (Hvs v) as (pre & rest' & ->).
    { now apply list_elem_of_In. }
    apply includes_app_r, includes_prefix. simpl.
    destruct (ascii_dec sep sep); [|congruence].
    now apply prefix_app.
Qed.

(** ** The session cookie *)

(** The loop of [extractSession] over parts of which none starts with the
    name. *)
Lemma session_kept (vs : list string) (session : val) :
  Forall (fun v => String.prefix "JSESSIONID" v = false) vs ->
  fold_left
    (fun session v =>
       if String.prefix "JSESSIONID" v then item 1 (split "=" v) else session)
    vs session = session.
Proof.
  revert session. induction vs as [|v vs IH]; intros session H; simpl; auto.
  inversion H as [|? ? Hv Hvs]; subst. rewrite Hv. now apply IH.
Qed.

Lemma free_of_app (ch : ascii) (a b : string) :
  free_of ch (a ++ b) = free_of ch a && free_of ch b.
Proof.
  induction a as [|c a IH]; simpl; [reflexivity|].
  now rewrite IH, andb_assoc.
Qed.

(** [[, session] = val.split('=')] on a part [JSESSIONID=t], alone or
    followed by a second [=]. *)
Lemma session_part (t tail : string) :
  free_of "=" t = true ->
  tail = "" \/ (exists tail', tail = String "=" tail') ->
  item 1 (split "=" ("JSESSIONID=" ++ t ++ tail)) = VStr t.
Proof.
  intros H Ht.
  change ("JSESSIONID=" ++ t ++ tail)%string
    with ("JSESSIONID" ++ String "=" (t ++ tail))%string.
  rewrite split_app by reflexivity.
  destruct Ht as [->|(tail' & ->)].
  - now rewrite append_empty_r, split_free.
  - now rewrite split_app.
Qed.

Lemma extractSession_none (c : client) :
  String.prefix "JSESSIONID" (cookie c) = false ->
  includes ";JSESSIONID" (cookie c) = false ->
  extractSession c = VStr "".
Proof.
  intros Hp Hi. unfold extractSession.
  destruct (truthy (VStr (cookie c))); auto.
  apply session_kept. apply Forall_forall. intros v Hv.
  apply list_elem_of_In in Hv.
  destruct (String.prefix "JSESSIONID" v) eqn:E; auto.
  destruct (split_prefix ";" "JSESSIONID" (cookie c) v Hv E); congruence.
Qed.

Lemma extractSession_first (c : client) (t tail rest : string) :
  cookie c = ("JSESSIONID=" ++ t ++ tail ++ rest)%string ->
  free_of ";" t = true -> free_of "=" t = true ->
  free_of ";" tail = true ->
  tail = "" \/ (exists tail', tail = String "=" tail') ->
  rest = "" \/ (exists rest', rest = String ";" rest') ->
  includes ";JSESSIONID" (cookie c) = false ->
  extractSession c = VStr t.
Proof.
  intros Hc Hsemi Heq Htail Hcut Hrest Hi. unfold extractSession.
  assert (Ht : truthy (VStr (cookie c)) = true) by now rewrite Hc.
  rewrite Ht.
  destruct (split_parts ";" (cookie c)) as (v0 & vs & E & _ & Hvs).
  assert (E0 : v0 = ("JSESSIONID=" ++ t ++ tail)%string).
  { assert (Hfree : free_of ";" ("JSESSIONID=" ++ t ++ tail) = true).
    { change ("JSESSIONID=" ++ t ++ tail)%string
        with ("JSESSIONID=" ++ (t ++ tail))%string.
      now rewrite !free_of_app, Hsemi, Htail. }
    assert (Hc' : cookie c = (("JSESSIONID=" ++ t ++ tail) ++ rest)%string).
    { rewrite Hc.
      change ("JSESSIONID=" ++ t ++ tail ++ rest)%string
        with ("JSESSIONID=" ++ (t ++ tail ++ rest))%string.
      change (("JSESSIONID=" ++ t ++ tail) ++ rest)%string
        with ("JSESSIONID=" ++ ((t ++ tail) ++ rest))%string.
      now rewrite append_assoc. }
    rewrite Hc' in E. destruct Hrest as [->|(rest' & ->)].
    - rewrite append_empty_r, split_free in E by exact Hfree. congruence.
    - rewrite split_app in E by exact Hfree. congruence. }
  rewrite E. cbn [fold_left].
  assert (Hp : String.prefix "JSESSIONID" v0 = true).
  { rewrite E0. apply (prefix_here "JSESSIONID" ("=" ++ t ++ tail)). }
  rewrite Hp, E0, session_part by assumption.
  apply session_kept. apply Forall_forall. intros v Hv.
  destruct (String.prefix "JSESSIONID" v) eqn:Ev; auto.
  assert (Hin : In v (split ";" (cookie c))).
  { rewrite E. right. now apply list_elem_of_In. }
  rewrite Forall_forall in Hvs. destruct (Hvs v Hv) as (pre & rest' & Es).
  assert (includes ";JSESSIONID" (cookie c) = true); [|congruence].
  rewrite Es. apply includes_app_r, includes_prefix. simpl.
  destruct (ascii_dec ";" ";"); [|congruence].
  now apply prefix_app.
Qed.

(** X1.  [extractSession] returns the value of the last part of the cookie
    that starts with [JSESSIONID], cut at the second [=] of that part.
    Whatever parts come before it, and whatever parts that do not start
    with the name come after it: for a part [JSESSIONID=t], where [t] holds
    neither [;] nor [=] and is followed by the end of the part or by a
    second [=] and more text, the session is [t]; for a part that starts
    with the name and holds no [=], the session is [undefined]. *)
Theorem extractSession_takes_the_last (c : client) (before after : list string)
    (part : string) :
  Forall (fun v => free_of ";" v = true) before ->
  Forall (fun v => free_of ";" v = true) after ->
  Forall (fun v => String.prefix "JSESSIONID" v = false) after ->
  free_of ";" part = true ->
  cookie c = String.concat ";" (before ++ part :: after) ->
  (forall t tail,
     part = ("JSESSIONID=" ++ t ++ tail)%string ->
     free_of "=" t = true ->
     tail = "" \/ (exists tail', tail = String "=" tail') ->
     extractSession c = VStr t) /\
  (String.prefix "JSESSIONID" part = true -> free_of "=" part = true ->
   extractSession c = VUndef).
Proof.
  intros Hb Ha Hno Hsemi Hc.
  assert (Hs : split ";" (cookie c) = before ++ part :: after).
  { rewrite Hc. apply split_concat.
    - now destruct before.
    - apply Forall_app. split; [exact Hb|]. constructor; [exact Hsemi|exact Ha]. }
  assert (Ht : truthy (VStr (cookie c)) = true \/ part = ""%string).
  { simpl. destruct (String.eqb_spec (cookie c) "") as [E|]; auto.
    rewrite E in Hs. simpl in Hs.
    destruct before as [|b [|b' before]]; try discriminate.
    injection Hs as <- _. now right. }
  split.
  - intros t tail -> Heq Hcut. unfold extractSession.
    destruct Ht as [Ht|Ht]; [|discriminate Ht].
    assert (Hp : String.prefix "JSESSIONID" ("JSESSIONID=" ++ t ++ tail) = true)
      by apply (prefix_here "JSESSIONID" ("=" ++ t ++ tail)).
    rewrite Ht, Hs, fold_left_app. cbn [fold_left].
    rewrite Hp, session_part by assumption.
    now apply session_kept.
  - intros Hp Heq. unfold extractSession.
    destruct Ht as [Ht|Ht]; [|now rewrite Ht in Hp].
    rewrite Ht, Hs, fold_left_app. cbn [fold_left].
    rewrite Hp, split_free by exact Heq. cbn [item].
    now apply session_kept.
Qed.

(** X2.  A cookie that neither starts with [JSESSIONID] nor holds
    [;JSESSIONID] gives the empty session, also when the name occurs in
    it - after a blank, or after the comma that joins two [set-cookie]
    headers. *)
Theorem extractSession_wants_the_name_first (c : client) :
  String.prefix "JSESSIONID" (cookie c) = false ->
  includes ";JSESSIONID" (cookie c) = false ->
  extractSession c = VStr "".
Proof. apply extractSession_none. Qed.

(** ** The session *)

Lemma with_connected_twice (a b : bool) (c : client) :
  with_connected a (with_connected b c) = with_connected a c.
Proof. reflexivity. Qed.

(** The executor of [login] leaves the client disconnected, whatever the
    life sign does. *)
Lemma begin_login (user password : val) (c : client) :
  fst (begin (login user password) c) = with_connected false c.
Proof.
  unfold login. run_call. cbn [lifeSignCallback with_connected].
  destruct (truthy (lifeSignCallback c)); [|reflexivity].
  destruct (lifeSignCallback c); reflexivity.
Qed.

(** The headers of a request that is not a login. *)
Lemma header_cookie (c : client) :
  field "cookie" (makeCallHeader VUndef c) = VStr (cookie c).
Proof. reflexivity. Qed.

Lemma header_Referer (c : client) :
  field "Referer" (makeCallHeader VUndef c)
  = VStr (server c ++ "/" ++ getIndex c ++ ";jsessionid="
          ++ to_string (extractSession c))%string.
Proof. reflexivity. Qed.

(** X3.  After a call of [login] the client is connected exactly if the
    promise is resolved, which takes an answer with [result === 1] and a
    [set-cookie] header; the cookie is then that header, and it is the old
    cookie in every other case. *)
Theorem login_connects_iff_it_resolves (user password : val) (a : arrival)
    (c : client) :
  let c1 := fst (begin (login user password) c) in
  let c2 := fst (complete (login user password) a c1) in
  let t := snd (complete (login user password) a c1) in
  connected c1 = false /\
  (connected c2 = true <-> exists d, settled t = Some (Resolved d)) /\
  (connected c2 = true ->
   exists res hs,
     a = Arrived res /\ is_one (prop "result" (body res)) = true /\
     set_cookie res = Some hs /\ cookie c2 = String.concat "," hs /\
     settled t = Some (Resolved (body res))) /\
  (connected c2 = false -> cookie c2 = cookie c).
Proof.
  cbv zeta. rewrite begin_login. split; [reflexivity|].
  destruct a as [res|e].
  - unfold login. run_call.
    destruct (truthy_doc (body res) && truthy_prop (prop "result" (body res)))
      eqn:E1; cbn [andb].
    + destruct (is_one (prop "result" (body res))) eqn:E2.
      * unfold cookies_of. destruct (set_cookie res) as [hs|] eqn:E3; simpl.
        -- split; [split; eauto|]. split; [|discriminate].
           intros _. exists res, hs. auto.
        -- split; [split; [discriminate|intros [d [=]]]|].
           split; [discriminate|reflexivity].
      * simpl. split; [split; [discriminate|intros [d [=]]]|].
        split; [discriminate|reflexivity].
    + destruct (includes "errorMess" (request_path res)); simpl;
        (split; [split; [discriminate|intros [d [=]]]|]);
        (split; [discriminate|reflexivity]).
  - unfold login. run_call. simpl.
    split; [split; [discriminate|intros [d [=]]]|].
    split; [discriminate|reflexivity].
Qed.

(** X4.  [demoLogin] and [sharePlantLogin] take the session for open as
    soon as the [set-cookie] headers hold the name [JSESSIONID] anywhere;
    where the name does not stand at the start of the cookie or right after
    a [;], the client is connected and the promise resolved, but no session
    is extracted and the requests that follow carry an empty [jsessionid]. *)
Theorem session_without_its_id (m : method) (key : val) (res : reply)
    (hs : list string) (c : client) :
  m = demoLogin \/ m = sharePlantLogin key ->
  set_cookie res = Some hs ->
  includes "JSESSIONID" (String.concat "," hs) = true ->
  String.prefix "JSESSIONID" (String.concat "," hs) = false ->
  includes ";JSESSIONID" (String.concat "," hs) = false ->
  let c' := fst (complete m (Arrived res) c) in
  connected c' = true /\
  settled (snd (complete m (Arrived res) c)) = Some (Resolved OK) /\
  extractSession c' = VStr "" /\
  field "cookie" (makeCallHeader VUndef c') = VStr (String.concat "," hs) /\
  field "Referer" (makeCallHeader VUndef c')
  = VStr (server c ++ "/" ++ getIndex c ++ ";jsessionid=")%string.
Proof.
  intros Hm Hs Hin Hp Hi.
  assert (E : complete m (Arrived res) c
              = (with_connected true (with_cookie (String.concat "," hs) c),
                 [Called (Resolved OK)])).
  { destruct Hm as [-> | ->]; unfold demoLogin, sharePlantLogin; run_call;
      unfold cookies_of; rewrite Hs; cbn [fst snd app]; now rewrite Hin. }
  cbv zeta. rewrite E. cbn [fst snd].
  assert (Hx : extractSession
                 (with_connected true (with_cookie (String.concat "," hs) c))
               = VStr "").
  { now apply extractSession_none. }
  rewrite header_cookie, header_Referer, Hx.
  simpl to_string. rewrite !append_empty_r.
  repeat split.
Qed.

(** X5.  A resolved [login] whose [set-cookie] headers start with
    [JSESSIONID=t] - [t] holding neither [;] nor [=] and ending at the
    first [;] of the cookie, at a second [=] before it, or at the end of
    the cookie - and name the session nowhere else puts [t] into every
    request that follows: its headers carry the cookie as it came and the
    [Referer] ends in [;jsessionid=t]. *)
Theorem login_session_reaches_the_headers (user password : val) (res : reply)
    (hs : list string) (t tail rest : string) (c : client) :
  truthy_doc (body res) = true ->
  is_one (prop "result" (body res)) = true ->
  set_cookie res = Some hs ->
  String.concat "," hs = ("JSESSIONID=" ++ t ++ tail ++ rest)%string ->
  free_of ";" t = true -> free_of "=" t = true ->
  free_of ";" tail = true ->
  tail = "" \/ (exists tail', tail = String "=" tail') ->
  rest = "" \/ (exists rest', rest = String ";" rest') ->
  includes ";JSESSIONID" (String.concat "," hs) = false ->
  let c' := fst (complete (login user password) (Arrived res) c) in
  connected c' = true /\
  extractSession c' = VStr t /\
  field "cookie" (makeCallHeader VUndef c') = VStr (String.concat "," hs) /\
  field "Referer" (makeCallHeader VUndef c')
  = VStr (server c ++ "/" ++ getIndex c ++ ";jsessionid=" ++ t)%string.
Proof.
  intros Hd H1 Hs Hc Hsemi Heq Htail Hcut Hrest Hi.
  assert (Hr : truthy_prop (prop "result" (body res)) = true).
  { destruct (prop "result" (body res)) as [[| |n| | |]|]; try discriminate.
    simpl in *. destruct n as [|[]|]; try discriminate. reflexivity. }
  assert (E : complete (login user password) (Arrived res) c
              = (with_connected true (with_cookie (String.concat "," hs) c),
                 [Called (Resolved (body res))])).
  { unfold login. run_call. rewrite Hd, Hr, H1. cbn [andb].
    unfold cookies_of. now rewrite Hs. }
  cbv zeta. rewrite E. cbn [fst].
  assert (Hx : extractSession
                 (with_connected true (with_cookie (String.concat "," hs) c))
               = VStr t).
  { apply extractSession_first with (tail := tail) (rest := rest); auto. }
  rewrite header_cookie, header_Referer, Hx. repeat split.
Qed.

(** ** What a call may do to the client *)

Lemma calm_ret {A : Type} (a : A) : calm (ret a).
Proof. intros c. now left. Qed.

Lemma calm_throw {A : Type} (e : exn) : calm (@throw A e).
Proof. intros c. now left. Qed.

Lemma calm_lift {A : Type} (x : result A) : calm (lift x).
Proof. intros c. now left. Qed.

Lemma calm_this : calm this.
Proof. intros c. now left. Qed.

Lemma calm_emit (e : effect) : calm (emit e).
Proof. intros c. now left. Qed.

Lemma calm_off : calm (set_connected false).
Proof. intros c. now right. Qed.

Lemma calm_bind {A B : Type} (m : E A) (k : A -> E B) :
  calm m -> (forall a, calm (k a)) -> calm (bind m k).
Proof.
  intros Hm Hk c. unfold bind. specialize (Hm c).
  destruct (m c) as [[c1 t1] [a|e]]; cbn [fst] in *; auto.
  specialize (Hk a c1). destruct (k a c1) as [[c2 t2] x]; cbn [fst] in *.
  destruct Hm as [-> | ->], Hk as [-> | ->]; auto.
Qed.

Lemma begin_client (m : method) (c : client) :
  fst (begin m c) = fst (fst (executor m c)).
Proof. unfold begin. now destruct (executor m c) as [[c' t] [a|e]]. Qed.

Lemma complete_calm (m : method) (a : arrival) (c : client) :
  (forall res, calm (on_then m res)) -> (forall e, calm (on_catch m e)) ->
  fst (complete m a c) = c \/ fst (complete m a c) = with_connected false c.
Proof.
  intros Ht Hc. unfold complete. destruct a as [res|e].
  - specialize (Ht res c).
    destruct (on_then m res c) as [[c1 t1] [x|e]]; cbn [fst] in *; auto.
    specialize (Hc e c1). destruct (on_catch m e c1) as [[c2 t2] y].
    cbn [fst] in *. destruct Ht as [-> | ->], Hc as [-> | ->]; auto.
  - specialize (Hc (Thrown e) c).
    now destruct (on_catch m (Thrown e) c) as [[c1 t1] y].
Qed.

Lemma calm_cookie {A : Type} (m : E A) (c : client) :
  calm m -> cookie (fst (fst (m c))) = cookie c.
Proof. intros H. now destruct (H c) as [-> | ->]. Qed.

Lemma bind_lift {A B : Type} (x : result A) (k : A -> E B) (c : client) :
  bind (lift x) k c
  = match x with
    | Ok a => k a c
    | Throw e => (c, [], Throw e)
    end.
Proof.
  unfold bind, lift. destruct x as [a|e]; [|reflexivity].
  now destruct (k a c) as [[c' t] y].
Qed.

Lemma bind_this {B : Type} (k : client -> E B) (c : client) :
  bind this k c = k c c.
Proof. unfold bind, this. now destruct (k c c) as [[c' t] y]. Qed.

Lemma bind_set_cookie_to {B : Type} (s : string) (k : unit -> E B)
    (c : client) :
  bind (set_cookie_to s) k c = k tt (with_cookie s c).
Proof.
  unfold bind, set_cookie_to.
  now destruct (k tt (with_cookie s c)) as [[c' t] y].
Qed.

Section Reads.

Variable r : store.
Variable clock : nat -> string.
Variable Date_toISOString :
  doc -> doc -> doc -> doc -> doc -> doc -> result string.
Variable JSON_stringify : list obj -> string.

Abbreviation method_of :=
  (Portal.method_of r clock Date_toISOString JSON_stringify).

(** The methods that are not of the session leave the client as it is, or
    disconnect it. *)
Lemma reads_are_calm (o : op) :
  is_session o = false ->
  calm (executor (method_of o)) /\
  (forall res, calm (on_then (method_of o) res)) /\
  (forall e, calm (on_catch (method_of o) e)).
Proof.
  intros Ho.
  destruct o; try discriminate Ho; clear Ho; (split; [|split]); intros;
    unfold Portal.method_of, getPlantList, getDevicesByPlantList,
      getPlantData, getPlantFaultLog, getWeatherByPlantId, getDevicesByPlant,
      getTotalData, getTotalData_executor, getHistory, getHistory_executor,
      history_datas, getDeviceDayChart, getStatusData, getStatusData_executor,
      getEnergyDay, getEnergyDay_executor, getDataLoggerRegister,
      setDataLoggerRegister, setDataLoggerParam, setDataLoggerRestart,
      checkDataLoggerFirmware, comDataLogger, getDataLogger;
    cbn [executor on_then on_catch];
    unfold plain_post, by_result, disconnect, unexpected, send, lifeSign,
      resolve, refuse, reject;
    cbv zeta;
    repeat first
      [ apply calm_bind; [|intro]
      | apply calm_ret | apply calm_throw | apply calm_lift | apply calm_this
      | apply calm_emit | apply calm_off
      | match goal with
        | |- calm (if ?b then _ else _) => destruct b
        | |- calm (match ?x with _ => _ end) => destruct x
        end ].
Qed.

(** A method that is not a login never sets the flag [connected],
    neither in its executor nor in its callbacks, and none of them but
    [logout] touches the cookie. *)
Lemma others_keep_the_flag (o : op) (a : arrival) (c : client) :
  is_login o = false ->
  (connected (fst (begin (method_of o) c)) = true -> connected c = true) /\
  (connected (fst (complete (method_of o) a c)) = true ->
   connected c = true) /\
  (o <> Logout ->
   cookie (fst (begin (method_of o) c)) = cookie c /\
   cookie (fst (complete (method_of o) a c)) = cookie c).
Proof.
  intros Ho. destruct (is_session o) eqn:Hs.
  - destruct o; try discriminate.
    unfold Portal.method_of, logout.
    split; [|split; [|congruence]].
    + run_call. destruct (truthy (lifeSignCallback c)); auto.
      destruct (lifeSignCallback c); auto.
    + destruct a; run_call; auto. discriminate.
  - destruct (reads_are_calm o Hs) as (He & Ht & Hc).
    rewrite begin_client.
    destruct (He c) as [-> | ->],
             (complete_calm (method_of o) a c Ht Hc) as [-> | ->];
      repeat split; auto; discriminate.
Qed.

(** X8.  For a device type that the registry does not know, the reads of
    device data and [getInverterCommunication] fail with the [TypeError] of
    the engine: the promise is rejected before the life sign is given and
    before any request, and the client is left as it is. *)
Theorem unknown_device_type_is_a_type_error (type : string)
    (plantId sn invId start allDatasets date deviceSn : val)
    (startDate endDate : string) (c : client) :
  get r GROWATTTYPE type = Ok VUndef ->
  begin (getTotalData r type plantId sn invId) c
  = (c, [Called (Rejected TypeError)]) /\
  begin (getStatusData r type plantId sn) c
  = (c, [Called (Rejected TypeError)]) /\
  begin (getHistory r clock Date_toISOString type sn startDate endDate start
           allDatasets) c
  = (c, [Called (Rejected TypeError)]) /\
  begin (getEnergyDay r type date plantId deviceSn) c
  = (c, [Called (Rejected TypeError)]) /\
  getInverterCommunication r type = Throw TypeError.
Proof.
  intros H.
  assert (He : forall k, entry r type k = Throw TypeError).
  { intros k. unfold entry. now rewrite H. }
  repeat split.
  - unfold getTotalData, getTotalData_executor. run_call.
    destruct sn; cbn [split_of]; rewrite ?He; reflexivity.
  - unfold getStatusData, getStatusData_executor. run_call.
    destruct sn; cbn [split_of]; rewrite ?He; reflexivity.
  - unfold getHistory, getHistory_executor. run_call. now rewrite He.
  - unfold getEnergyDay, getEnergyDay_executor. run_call. now rewrite He.
  - unfold getInverterCommunication. now rewrite H.
Qed.

(** X9.  For a device type that the registry knows but that has no
    address for the data asked for: [getHistory] rejects the promise and
    sends nothing; [getEnergyDay] rejects the promise and goes on - it
    gives the life sign and posts to the server's address followed by the
    missing one, the answer can no longer change the promise, and a failure
    of that request still disconnects the client. *)
Theorem unsupported_device_type (type : string) (gt v : val)
    (sn start allDatasets date plantId deviceSn : val)
    (startDate endDate : string) (c : client) :
  get r GROWATTTYPE type = Ok gt ->
  truthy (lifeSignCallback c) = false \/
  (exists f, lifeSignCallback c = VFun f) ->
  let no_history :=
    Rejected (Thrown (VStr "This device type doesn't support history")) in
  let no_energy :=
    Rejected (Thrown (VStr "Not implmented yet or not available for this type of device")) in
  let h := getHistory r clock Date_toISOString type sn startDate endDate start
             allDatasets in
  let m := getEnergyDay r type date plantId deviceSn in
  (get r gt "getHistory" = Ok v -> truthy v = false ->
   begin h c = (c, [Called no_history])) /\
  (get r gt "getEnergyDay" = Ok v -> truthy v = false ->
   fst (begin m c) = c /\
   settled (snd (begin m c)) = Some no_energy /\
   requests (snd (begin m c))
   = [{| how := POST; url := (server c ++ to_string v)%string;
         form := Some [("date", date); ("plantId", plantId);
                       ("mixSn", deviceSn)];
         headers := makeCallHeader VUndef c |}] /\
   (forall a c',
      settled (snd (begin m c) ++ snd (complete m a c')) = Some no_energy) /\
   (forall e c', connected (fst (complete m (Failed e) c')) = false)).
Proof.
  intros Hgt Hlife. cbv zeta. split; intros Hv Hf.
  - unfold getHistory, getHistory_executor. run_call.
    unfold entry. now rewrite Hgt, Hv, Hf.
  - assert (E : begin (getEnergyDay r type date plantId deviceSn) c
                = (c, Called (Rejected (Thrown (VStr "Not implmented yet or not available for this type of device")))
                      :: match lifeSignCallback c with
                         | VFun f => [LifeSign f]
                         | _ => []
                         end
                      ++ [Sent {| how := POST;
                                  url := (server c ++ to_string v)%string;
                                  form := Some [("date", date);
                                                ("plantId", plantId);
                                                ("mixSn", deviceSn)];
                                  headers := makeCallHeader VUndef c |}])).
    { unfold getEnergyDay, getEnergyDay_executor. run_call.
      unfold entry. rewrite Hgt, Hv, Hf. cbn [negb fst snd app].
      destruct Hlife as [Hl | (f & Hl)].
      - rewrite Hl. now destruct (lifeSignCallback c).
      - rewrite Hl. reflexivity. }
    rewrite E. cbn [fst snd]. repeat split.
    destruct (lifeSignCallback c); reflexivity.
Qed.

End Reads.

(** ** The history of a device *)

Lemma keys_assign_known {A : Type} (k : string) (v w : A)
    (o : list (string * A)) :
  assoc k o = Some w -> keys (assign k v o) = keys o.
Proof.
  unfold keys. induction o as [|[k' v'] o IH]; simpl; [discriminate|].
  destruct (String.eqb k k') eqn:E; simpl.
  - apply String.eqb_eq in E. now subst.
  - intros H. now rewrite IH.
Qed.

Section History.

Variable r : store.
Variable clock : nat -> string.
Variable Date_toISOString :
  doc -> doc -> doc -> doc -> doc -> doc -> result string.

Abbreviation correct := (Portal.correct clock Date_toISOString).
Abbreviation correctTime := (Portal.correctTime clock Date_toISOString).
Abbreviation correctTimes := (Portal.correctTimes clock Date_toISOString).

(** One step of [correctTime]: the property [k] becomes a string if it is
    there, nothing else changes. *)
Lemma correct_one (k : string) (n n' : nat) (fs fs' : list (string * doc)) :
  correct k n fs = Ok (n', fs') ->
  keys fs' = keys fs /\
  (forall k', k' <> k -> assoc k' fs' = assoc k' fs) /\
  match assoc k fs with
  | None => assoc k fs' = None
  | Some _ => exists iso, assoc k fs' = Some (DStr iso)
  end.
Proof.
  unfold Portal.correct. destruct (assoc k fs) as [time|] eqn:E.
  - destruct (makeTime clock Date_toISOString n time) as [[n1 iso]|e];
      [|discriminate].
    intros [= <- <-]. split; [|split].
    + eapply keys_assign_known; eauto.
    + intros k' Hk. now apply assoc_assign_ne.
    + exists iso. apply assoc_assign_eq.
  - intros [= <- <-]. rewrite E. auto.
Qed.

(** X10.  [correctTime] rewrites the properties [time] and [calendar] of
    an object, and nothing else: where it returns, the object has the same
    properties in the same order, [time] and [calendar] hold a string if
    they were there and are still missing if they were not, and every other
    property has the value it had. *)
Theorem correctTime_rewrites_two_properties (n n' : nat)
    (fs : list (string * doc)) (d : doc) :
  correctTime n (DObj fs) = Ok (n', d) ->
  exists fs',
    d = DObj fs' /\ keys fs' = keys fs /\
    (forall k, k <> "time" -> k <> "calendar" -> assoc k fs' = assoc k fs) /\
    (forall k, k = "time" \/ k = "calendar" ->
       match assoc k fs with
       | None => assoc k fs' = None
       | Some _ => exists iso, assoc k fs' = Some (DStr iso)
       end).
Proof.
  unfold Portal.correctTime.
  destruct (Portal.correct clock Date_toISOString "time" n fs)
    as [[n1 fs1]|e] eqn:E1; [|discriminate].
  destruct (Portal.correct clock Date_toISOString "calendar" n1 fs1)
    as [[n2 fs2]|e] eqn:E2; [|discriminate].
  intros [= <- <-].
  apply correct_one in E1. destruct E1 as (K1 & F1 & T1).
  apply correct_one in E2. destruct E2 as (K2 & F2 & T2).
  exists fs2. split; [reflexivity|]. split; [congruence|]. split.
  - intros k Ht Hc. rewrite F2, F1; auto.
  - intros k [-> | ->].
    + rewrite F2 by discriminate. exact T1.
    + rewrite <- (F1 "calendar") by discriminate. exact T2.
Qed.

(** A dataset that is [null] stops the loop over the datasets. *)
Lemma correctTimes_null (items : list doc) (n : nat) :
  In DNull items -> exists e, correctTimes n items = Throw e.
Proof.
  revert n. induction items as [|x items IH]; intros n; [intros []|].
  cbn [Portal.correctTimes].
  destruct (Portal.correctTime clock Date_toISOString n x)
    as [[n1 x1]|e] eqn:E; [|eauto].
  intros [-> | Hin]; [discriminate|].
  destruct (IH n1 Hin) as (e & He). rewrite He. eauto.
Qed.

Lemma correctTimes_length (items l : list doc) (n : nat) :
  correctTimes n items = Ok l -> length l = length items.
Proof.
  revert n l. induction items as [|x items IH]; intros n l.
  - now intros [= <-].
  - cbn [Portal.correctTimes].
    destruct (Portal.correctTime clock Date_toISOString n x)
      as [[n1 x1]|e]; [|discriminate].
    destruct (Portal.correctTimes clock Date_toISOString n1 items)
      as [l1|e] eqn:E; [|discriminate].
    intros [= <-]. simpl. f_equal. now apply (IH n1).
Qed.

(** X11.  [getHistory] asked for all datasets corrects all of them or
    none: on an answer with [result === 1] and an array of datasets whose
    first one is truthy, it resolves with as many datasets as it got and
    leaves the client as it is, or it rejects and disconnects the client -
    as the [catch] callback does for a failure of the transport - and this
    it does whenever one of the datasets is [null]. *)
Theorem getHistory_all_or_nothing (type : string) (sn start allDatasets : val)
    (startDate endDate : string) (res : reply) (o x : doc)
    (items : list doc) (c : client) :
  truthy_doc (body res) = true ->
  is_one (prop "result" (body res)) = true ->
  prop "obj" (body res) = Some o ->
  prop "datas" o = Some (DArr (x :: items)) ->
  truthy_doc x = true ->
  truthy allDatasets = true ->
  let h := getHistory r clock Date_toISOString type sn startDate endDate start
             allDatasets in
  ((exists l,
      complete h (Arrived res) c = (c, [Called (Resolved (DArr l))]) /\
      length l = length (x :: items)) \/
   (exists e,
      complete h (Arrived res) c
      = (with_connected false c, [Called (Rejected e)]))) /\
  (In DNull items ->
   exists e,
     complete h (Arrived res) c
     = (with_connected false c, [Called (Rejected e)])).
Proof.
  intros Hd H1 Ho Hds Hx Hall.
  assert (Hr : truthy_prop (prop "result" (body res)) = true).
  { destruct (prop "result" (body res)) as [[| |n| | |]|]; try discriminate.
    simpl in *. destruct n as [|[]|]; try discriminate. reflexivity. }
  assert (Hto : truthy_doc o = true).
  { destruct o; try discriminate. reflexivity. }
  assert (E : complete
                (getHistory r clock Date_toISOString type sn startDate endDate
                   start allDatasets) (Arrived res) c
              = match correctTimes 0 (x :: items) with
                | Ok l => (c, [Called (Resolved (DArr l))])
                | Throw e => (with_connected false c, [Called (Rejected e)])
                end).
  { unfold getHistory. run_call. rewrite Hd, Hr, H1. cbn [andb].
    unfold history_datas. rewrite Ho, Hto, Hds.
    cbn [truthy_doc index0 truthy_prop andb]. rewrite Hx, Hall. run_call.
    now destruct (Portal.correctTimes clock Date_toISOString 0 (x :: items)). }
  cbv zeta. rewrite E. split.
  - destruct (correctTimes 0 (x :: items)) as [l|e] eqn:El.
    + left. exists l. split; [reflexivity|].
      now apply correctTimes_length in El.
    + right. eauto.
  - intros Hin. destruct (correctTimes_null (x :: items) 0) as (e & He).
    { now right. }
    rewrite He. eauto.
Qed.

End History.

(** ** The parameters of the reads *)

Lemma split_two (sep : ascii) (a b : string) :
  free_of sep a = true -> free_of sep b = true ->
  split sep (a ++ String sep b) = [a; b].
Proof. intros Ha Hb. now rewrite split_app, split_free. Qed.

Section Parameters.

Variable r : store.

(** The requests of the executor of [getStatusData], from the parts of the
    serial number. *)
Lemma getStatusData_requests (type : string) (plantId path snParam addrParam : val)
    (s : string) (c : client) :
  signs c ->
  entry r type "snParam" = Ok snParam ->
  entry r type "addrParam" = Ok addrParam ->
  entry r type "getStatusData" = Ok path ->
  requests (snd (begin (getStatusData r type plantId (VStr s)) c))
  = [{| how := POST; url := (server c ++ to_string path)%string;
        form :=
          Some (if truthy addrParam then
                  literal [("plantId", plantId);
                           (to_string snParam, item 0 (split "_" s));
                           (to_string addrParam, item 1 (split "_" s))]
                else literal [("plantId", plantId); (to_string snParam, VStr s)]);
        headers := makeCallHeader VUndef c |}].
Proof.
  intros Hl Hs Ha Hp. unfold getStatusData, getStatusData_executor. run_call.
  cbn [split_of]. rewrite Ha.
  destruct (truthy addrParam); rewrite ?Hs, ?Ha, ?Hp; cbn [fst snd app];
    (destruct Hl as [Hl | (f & Hl)]; rewrite Hl;
     [destruct (lifeSignCallback c)|]; reflexivity).
Qed.

Lemma getTotalData_requests (type : string)
    (plantId invId path snParam addrParam invIdParam : val) (s : string)
    (c : client) :
  signs c ->
  entry r type "snParam" = Ok snParam ->
  entry r type "addrParam" = Ok addrParam ->
  entry r type "invIdParam" = Ok invIdParam ->
  entry r type "getTotalData" = Ok path ->
  requests (snd (begin (getTotalData r type plantId (VStr s) invId) c))
  = [{| how := POST; url := (server c ++ to_string path)%string;
        form :=
          Some (if truthy addrParam && truthy invIdParam then
                  literal [("plantId", plantId);
                           (to_string snParam, item 0 (split "_" s));
                           (to_string addrParam, item 1 (split "_" s));
                           (to_string invIdParam, or_default (VStr "") invId)]
                else literal [("plantId", plantId); (to_string snParam, VStr s)]);
        headers := makeCallHeader VUndef c |}].
Proof.
  intros Hl Hs Ha Hi Hp. unfold getTotalData, getTotalData_executor. run_call.
  cbn [split_of]. rewrite Ha.
  destruct (truthy addrParam); rewrite ?Hi; cbn [fst snd app andb];
    [destruct (truthy invIdParam)|];
    rewrite ?Hs, ?Ha, ?Hi, ?Hp; cbn [fst snd app];
    (destruct Hl as [Hl | (f & Hl)]; rewrite Hl;
     [destruct (lifeSignCallback c)|]; reflexivity).
Qed.

(** X12.  When a serial number [a_b] is sent in two parts.
    [getStatusData] posts [a] under the name of the serial number and [b]
    under the name of the address if the device type has a parameter for
    the address (a truthy [addrParam]); a serial number without [_] then
    leaves the address [undefined].  [getTotalData] splits the serial
    number only if the type has a parameter for the address and one for
    the inverter id (a truthy [invIdParam]), and then posts the inverter
    id as a fourth field.  Otherwise either method posts the serial number
    as it is, [_] and all. *)
Theorem serial_number_is_sent_in_parts (type : string)
    (plantId invId addrParam invIdParam : val) (ks p p1 a b : string)
    (c : client) :
  signs c ->
  entry r type "snParam" = Ok (VStr ks) ->
  entry r type "addrParam" = Ok addrParam ->
  entry r type "invIdParam" = Ok invIdParam ->
  entry r type "getStatusData" = Ok (VStr p) ->
  entry r type "getTotalData" = Ok (VStr p1) ->
  is_tag TFunction addrParam = false ->
  is_tag TFunction invIdParam = false ->
  free_of "_" a = true -> free_of "_" b = true ->
  let whole := literal [("plantId", plantId); (ks, VStr (a ++ "_" ++ b))] in
  requests
    (snd (begin (getStatusData r type plantId (VStr (a ++ "_" ++ b))) c))
  = [{| how := POST; url := (server c ++ p)%string;
        form :=
          Some (if truthy addrParam then
                  literal [("plantId", plantId); (ks, VStr a);
                           (to_string addrParam, VStr b)]
                else whole);
        headers := makeCallHeader VUndef c |}] /\
  requests
    (snd (begin (getTotalData r type plantId (VStr (a ++ "_" ++ b)) invId) c))
  = [{| how := POST; url := (server c ++ p1)%string;
        form :=
          Some (if truthy addrParam && truthy invIdParam then
                  literal [("plantId", plantId); (ks, VStr a);
                           (to_string addrParam, VStr b);
                           (to_string invIdParam, or_default (VStr "") invId)]
                else whole);
        headers := makeCallHeader VUndef c |}] /\
  (truthy addrParam = true ->
   requests (snd (begin (getStatusData r type plantId (VStr a)) c))
   = [{| how := POST; url := (server c ++ p)%string;
         form :=
           Some (literal [("plantId", plantId); (ks, VStr a);
                          (to_string addrParam, VUndef)]);
         headers := makeCallHeader VUndef c |}]).
Proof.
  intros Hl Hs Ha Hi Hp Hp1 _ _ Hfa Hfb. cbv zeta.
  assert (E2 : split "_" (a ++ "_" ++ b) = [a; b]) by now apply split_two.
  assert (E1 : split "_" a = [a]) by now apply split_free.
  split; [|split].
  - rewrite (getStatusData_requests _ _ _ _ _ _ _ Hl Hs Ha Hp), E2.
    reflexivity.
  - rewrite (getTotalData_requests _ _ _ _ _ _ _ _ _ Hl Hs Ha Hi Hp1), E2.
    reflexivity.
  - intros Ht.
    rewrite (getStatusData_requests _ _ _ _ _ _ _ Hl Hs Ha Hp), Ht, E1.
    reflexivity.
Qed.

End Parameters.

(** X13.  The [type] that [getPlantFaultLog] posts is four minus the
    number of parts that the dashes cut the date into - 1 for a day
    [YYYY-MM-DD], 2 for a month, 3 for a year, and below 1 for a text with
    more dashes, which is sent all the same; without a date the promise is
    rejected with a [TypeError] and nothing is sent. *)
Theorem fault_log_type_counts_the_parts (plantId deviceSn : val)
    (parts : list string) (c : client) :
  signs c ->
  parts <> [] ->
  Forall (fun v => free_of "-" v = true) parts ->
  requests
    (snd (begin (getPlantFaultLog plantId (VStr (String.concat "-" parts))
                   deviceSn) c))
  = [{| how := POST; url := (server c ++ "/log/getNewPlantFaultLog")%string;
        form :=
          Some [("plantId", plantId);
                ("date", VStr (String.concat "-" parts));
                ("deviceSn", or_default (VStr "") deviceSn);
                ("toPageNum", VNum 1);
                ("type", VNum (4 - Z.of_nat (length parts)))];
        headers := makeCallHeader VUndef c |}] /\
  begin (getPlantFaultLog plantId VUndef deviceSn) c
  = (c, [Called (Rejected TypeError)]) /\
  begin (getPlantFaultLog plantId VNull deviceSn) c
  = (c, [Called (Rejected TypeError)]).
Proof.
  intros Hl Hne Hfree. split; [|split; reflexivity].
  unfold getPlantFaultLog. run_call.
  unfold fault_log_type. cbn [toString to_string].
  rewrite (split_concat "-" parts Hne Hfree). cbn [fst snd app].
  destruct Hl as [Hl | (f & Hl)]; rewrite Hl;
    [destruct (lifeSignCallback c)|]; reflexivity.
Qed.

(** ** The cookies of [getDeviceChart] *)

Section Chart.

Variable r : store.
Variable JSON_stringify : list obj -> string.
Variable encodeURIComponent_JSON : crumb -> string.

Abbreviation add_cookie := (Portal.add_cookie encodeURIComponent_JSON).
Abbreviation baked := (Portal.baked encodeURIComponent_JSON).
Abbreviation getDeviceChart :=
  (Portal.getDeviceChart r JSON_stringify encodeURIComponent_JSON).

Lemma add_cookie_extends (ck : string) (kv : string * crumb) :
  exists suffix, add_cookie ck kv = (ck ++ suffix)%string.
Proof.
  unfold Portal.add_cookie. destruct (includes (fst kv) ck).
  - exists "". now rewrite append_empty_r.
  - eauto.
Qed.

Lemma add_cookie_names (ck : string) (kv : string * crumb) :
  includes (fst kv) (add_cookie ck kv) = true.
Proof.
  unfold Portal.add_cookie. destruct (includes (fst kv) ck) eqn:E; auto.
  apply includes_app_r.
  apply (includes_here (fst kv) ","
           ("=" ++ encodeURIComponent_JSON (snd kv) ++ "; Path=/")).
Qed.

Lemma add_cookie_keeps (k ck : string) (kv : string * crumb) :
  includes k ck = true -> includes k (add_cookie ck kv) = true.
Proof.
  intros H. destruct (add_cookie_extends ck kv) as (suffix & ->).
  now apply includes_app_l.
Qed.

Lemma add_cookie_known (ck : string) (kv : string * crumb) :
  includes (fst kv) ck = true -> add_cookie ck kv = ck.
Proof. intros H. unfold Portal.add_cookie. now rewrite H. Qed.

Lemma baked_spec (ck : string) (a b d : crumb) :
  (exists suffix, baked ck a b d = (ck ++ suffix)%string) /\
  includes "memoryDeviceType" (baked ck a b d) = true /\
  includes "memoryDeviceSn" (baked ck a b d) = true /\
  includes "selectedPlantId" (baked ck a b d) = true.
Proof.
  unfold Portal.baked. cbn [fold_left]. split; [|split; [|split]].
  - destruct (add_cookie_extends ck ("memoryDeviceType", a)) as (s1 & E1).
    rewrite E1.
    destruct (add_cookie_extends (ck ++ s1) ("memoryDeviceSn", b))
      as (s2 & E2).
    rewrite E2.
    destruct (add_cookie_extends ((ck ++ s1) ++ s2) ("selectedPlantId", d))
      as (s3 & E3).
    rewrite E3. exists (s1 ++ s2 ++ s3)%string. now rewrite !append_assoc.
  - apply add_cookie_keeps, add_cookie_keeps.
    apply (add_cookie_names ck ("memoryDeviceType", a)).
  - apply add_cookie_keeps.
    apply (add_cookie_names _ ("memoryDeviceSn", b)).
  - apply (add_cookie_names _ ("selectedPlantId", d)).
Qed.

Lemma baked_again (ck : string) (a b d : crumb) :
  includes "memoryDeviceType" ck = true ->
  includes "memoryDeviceSn" ck = true ->
  includes "selectedPlantId" ck = true ->
  baked ck a b d = ck.
Proof.
  intros H1 H2 H3. unfold Portal.baked. cbn [fold_left].
  rewrite (add_cookie_known ck ("memoryDeviceType", a)) by exact H1.
  rewrite (add_cookie_known ck ("memoryDeviceSn", b)) by exact H2.
  now rewrite (add_cookie_known ck ("selectedPlantId", d)) by exact H3.
Qed.

(** What [getDeviceChart] does to the cookie: nothing if it throws before
    the loop, the loop otherwise. *)
Lemma getDeviceChart_cookie (device : val) (date : string)
    (timeframe param : val) (c : client) :
  let out := getDeviceChart device date timeframe param c in
  (cookie (fst (fst out)) = cookie c /\ (exists e, snd out = Throw e)) \/
  (exists a b d, cookie (fst (fst out)) = baked (cookie c) a b d).
Proof.
  cbv zeta. unfold Portal.getDeviceChart.
  do 5 (rewrite bind_lift;
        match goal with
        | |- context [match ?x with Ok _ => _ | Throw _ => _ end] =>
            destruct x
        end; [|left; split; [reflexivity|eauto]]).
  rewrite bind_this, bind_set_cookie_to. right.
  match goal with
  | |- context [fst (fst (?tail (with_cookie ?ck c)))] =>
      assert (H : calm tail)
  end.
  { repeat first
      [ apply calm_bind; [|intro]
      | apply calm_ret | apply calm_lift
      | match goal with
        | |- calm (if ?b then _ else _) => destruct b
        end ]. }
  rewrite (calm_cookie _ _ H). unfold Portal.baked. cbn [cookie with_cookie]. eauto.
Qed.

(** [getDeviceChart] does not open the session. *)
Lemma getDeviceChart_flag (device : val) (date : string)
    (timeframe param : val) (c : client) :
  connected (fst (fst (getDeviceChart device date timeframe param c))) = true ->
  connected c = true.
Proof.
  unfold Portal.getDeviceChart.
  do 5 (rewrite bind_lift;
        match goal with
        | |- context [match ?x with Ok _ => _ | Throw _ => _ end] =>
            destruct x
        end; [|exact (fun H => H)]).
  rewrite bind_this, bind_set_cookie_to.
  match goal with
  | |- context [fst (fst (?tail (with_cookie ?ck c)))] =>
      assert (H : calm tail)
  end.
  { repeat first
      [ apply calm_bind; [|intro]
      | apply calm_ret | apply calm_lift
      | match goal with
        | |- calm (if ?b then _ else _) => destruct b
        end ]. }
  match goal with
  | |- context [fst (fst (?tail (with_cookie ?ck c)))] =>
      destruct (H (with_cookie ck c)) as [-> | ->]
  end; [exact (fun H => H)|discriminate].
Qed.

(** X14.  [getDeviceChart] adds its three cookies once: a call that
    returns leaves a cookie that extends the old one and holds the names
    [memoryDeviceType], [memoryDeviceSn] and [selectedPlantId], and no
    later call - for whatever device and plant - changes the cookie
    again. *)
Theorem getDeviceChart_sets_its_cookies_once (device device' : val)
    (date date' : string) (timeframe param timeframe' param' : val)
    (c c1 : client) (t1 : list effect) (x1 : option method) :
  getDeviceChart device date timeframe param c = (c1, t1, Ok x1) ->
  (exists suffix, cookie c1 = (cookie c ++ suffix)%string) /\
  includes "memoryDeviceType" (cookie c1) = true /\
  includes "memoryDeviceSn" (cookie c1) = true /\
  includes "selectedPlantId" (cookie c1) = true /\
  cookie (fst (fst (getDeviceChart device' date' timeframe' param' c1)))
  = cookie c1.
Proof.
  intros E.
  assert (Hc : exists a b d, cookie c1 = baked (cookie c) a b d).
  { pose proof (getDeviceChart_cookie device date timeframe param c) as H.
    cbv zeta in H. rewrite E in H. cbn [fst snd] in H.
    destruct H as [(_ & e & [=]) | H]; exact H. }
  destruct Hc as (a & b & d & Hc).
  destruct (baked_spec (cookie c) a b d) as (Hx & H1 & H2 & H3).
  rewrite <- Hc in Hx, H1, H2, H3.
  repeat (split; [assumption|]).
  pose proof (getDeviceChart_cookie device' date' timeframe' param' c1) as H.
  cbv zeta in H. destruct H as [(H & _) | (a' & b' & d' & H)]; [exact H|].
  rewrite H. now apply baked_again.
Qed.

End Chart.

(** ** Every call is answered once *)

Lemma requests_app (t t' : list effect) :
  requests (t ++ t') = requests t ++ requests t'.
Proof.
  induction t as [|[f|q|v] t IH]; simpl; auto. now rewrite IH.
Qed.

Lemma settled_app (t t' : list effect) :
  settled (t ++ t')
  = match settled t with
    | Some v => Some v
    | None => settled t'
    end.
Proof. induction t as [|[f|q|v] t IH]; simpl; auto. Qed.

Lemma silent_ret {A : Type} (a : A) : silent (ret a).
Proof. now intros c. Qed.

Lemma silent_throw {A : Type} (e : exn) : silent (@throw A e).
Proof. now intros c. Qed.

Lemma silent_lift {A : Type} (x : result A) : silent (lift x).
Proof. now intros c. Qed.

Lemma silent_this : silent this.
Proof. now intros c. Qed.

Lemma silent_set_connected (b : bool) : silent (set_connected b).
Proof. now intros c. Qed.

Lemma silent_set_cookie_to (s : string) : silent (set_cookie_to s).
Proof. now intros c. Qed.

Lemma silent_bind {A B : Type} (m : E A) (k : A -> E B) :
  silent m -> (forall a, silent (k a)) -> silent (bind m k).
Proof.
  intros Hm Hk c. unfold bind. specialize (Hm c).
  destruct (m c) as [[c1 t1] [a|e]]; cbn [fst snd] in *; auto.
  specialize (Hk a c1). destruct (k a c1) as [[c2 t2] x]; cbn [fst snd] in *.
  now subst.
Qed.

Lemma once_emit (v : verdict) : once (emit (Called v)).
Proof. intros c. simpl. eauto. Qed.

Lemma once_throw {A : Type} (e : exn) : once (@throw A e).
Proof. now intros c. Qed.

Lemma once_bind {A B : Type} (m : E A) (k : A -> E B) :
  silent m -> (forall a, once (k a)) -> once (bind m k).
Proof.
  intros Hm Hk c. unfold bind. specialize (Hm c).
  destruct (m c) as [[c1 t1] [a|e]]; cbn [fst snd] in *; auto.
  specialize (Hk a c1). destruct (k a c1) as [[c2 t2] x]. now subst.
Qed.

Lemma harmless_silent {A : Type} (m : E A) : silent m -> harmless m.
Proof. intros H c. now rewrite H. Qed.

Lemma harmless_emit (e : effect) :
  (forall q, e <> Sent q) -> harmless (emit e).
Proof. intros H c. destruct e; simpl; auto. now destruct (H q). Qed.

Lemma harmless_bind {A B : Type} (m : E A) (k : A -> E B) :
  harmless m -> (forall a, harmless (k a)) -> harmless (bind m k).
Proof.
  intros Hm Hk c. unfold bind. specialize (Hm c).
  destruct (m c) as [[c1 t1] [a|e]]; cbn [fst snd] in *; auto.
  specialize (Hk a c1). destruct (k a c1) as [[c2 t2] x]; cbn [fst snd] in *.
  now rewrite requests_app, Hm, Hk.
Qed.

Lemma harmless_lifeSign : harmless lifeSign.
Proof.
  intros c. unfold lifeSign, bind, this, emit, throw, ret.
  destruct (truthy (lifeSignCallback c)); [|reflexivity].
  now destruct (lifeSignCallback c).
Qed.

Lemma launch_send (m : verb) (path : val) (params : option obj) (login : val) :
  launch (send m path params login).
Proof. intros c. simpl. left. eauto. Qed.

Lemma launch_reject (e : exn) : launch (reject e).
Proof. intros c. simpl. right. eauto. Qed.

Lemma launch_bind {A B : Type} (m : E A) (k : A -> E B) :
  harmless m -> (forall a, launch (k a)) -> launch (bind m k).
Proof.
  intros Hm Hk c. unfold bind. specialize (Hm c).
  destruct (m c) as [[c1 t1] [a|e]]; cbn [fst snd] in *; auto.
  specialize (Hk a c1). destruct (k a c1) as [[c2 t2] [y|e]].
  - rewrite requests_app, Hm, settled_app. simpl.
    destruct Hk as [Hk | (Hr & v & Hv)]; [now left|right].
    split; [exact Hr|]. rewrite Hv. destruct (settled t1); eauto.
  - now rewrite requests_app, Hm.
Qed.

Section Answers.

Variable r : store.
Variable clock : nat -> string.
Variable Date_toISOString :
  doc -> doc -> doc -> doc -> doc -> doc -> result string.
Variable JSON_stringify : list obj -> string.

Abbreviation method_of :=
  (Portal.method_of r clock Date_toISOString JSON_stringify).

Ltac unfold_methods :=
  unfold Portal.method_of, login, demoLogin, sharePlantLogin, logout,
    getPlantList, getDevicesByPlantList,
    getPlantData, getPlantFaultLog, getWeatherByPlantId, getDevicesByPlant,
    getTotalData, getTotalData_executor, getHistory, getHistory_executor,
    history_datas, getDeviceDayChart, getStatusData, getStatusData_executor,
    getEnergyDay, getEnergyDay_executor, getDataLoggerRegister,
    setDataLoggerRegister, setDataLoggerParam, setDataLoggerRestart,
    checkDataLoggerFirmware, comDataLogger, getDataLogger;
  cbn [executor on_then on_catch];
  unfold session_from_cookie, plain_post, by_result, disconnect, unexpected,
    resolve, refuse, reject;
  cbv zeta.

Ltac silence :=
  repeat first
    [ apply silent_bind; [|intro]
    | apply silent_ret | apply silent_throw | apply silent_lift
    | apply silent_this | apply silent_set_connected
    | apply silent_set_cookie_to ].

Lemma executors_launch (o : op) : launch (executor (method_of o)).
Proof.
  destruct o; unfold_methods;
    repeat first
      [ apply launch_send
      | apply launch_bind; [|intro]
      | apply harmless_lifeSign
      | apply harmless_bind; [|intro]
      | apply harmless_emit; discriminate
      | apply harmless_silent; silence; fail
      | apply (launch_reject _)
      | apply (launch_send _ _ _ _)
      | match goal with
        | |- launch (if ?b then _ else _) => destruct b
        | |- harmless (if ?b then _ else _) => destruct b
        end ].
Qed.

Lemma then_once (o : op) (res : reply) : once (on_then (method_of o) res).
Proof.
  destruct o; unfold_methods;
    repeat first
      [ apply once_emit | apply once_throw
      | apply once_bind; [silence; fail|intro]
      | match goal with
        | |- once (if ?b then _ else _) => destruct b
        | |- once (match ?x with _ => _ end) => destruct x
        end ].
Qed.

(** X17.  A method that makes one request - the methods that [op] lists:
    the three logins, [logout], the reads of plants and devices, the
    commands to a data logger and [getDataLogger] - does not leave its
    promise pending, and does not answer twice.  Its executor sends one
    request, or it sends none and the promise is settled at once; when the
    request comes back - with an answer or with a failure - the callbacks
    call [resolve] or [reject] exactly once, and do nothing else: no life
    sign, no second request.  ([comInverter], which may send its request
    again, and the collectors [getDataLoggers] and [getPlantDeviceData],
    which make several calls, are not among these methods.) *)
Theorem plain_calls_are_answered_once (o : op) (a : arrival) (c c' : client) :
  let t := snd (begin (method_of o) c) in
  ((exists q, requests t = [q]) \/
   (requests t = [] /\ exists v, settled t = Some v)) /\
  exists v, snd (complete (method_of o) a c') = [Called v].
Proof.
  cbv zeta. split.
  - pose proof (executors_launch o c) as H. unfold begin.
    destruct (executor (method_of o) c) as [[c1 t] [x|e]]; cbn [snd]; auto.
    right. rewrite requests_app, H, settled_app. split; [reflexivity|].
    destruct (settled t); simpl; eauto.
  - unfold complete. destruct a as [res|e].
    + pose proof (then_once o res c') as H.
      destruct (on_then (method_of o) res c') as [[c1 t] [x|e]]; cbn [snd].
      * exact H.
      * subst t. destruct o; simpl; eauto.
    + destruct o; simpl; eauto.
Qed.

End Answers.

(** ** All data loggers *)

Lemma requests_outward (t : list effect) : requests (outward t) = requests t.
Proof. induction t as [|[f|q|v] t IH]; simpl; auto. now rewrite IH. Qed.

Lemma requests_life (c : client) : requests (life c) = [].
Proof. unfold life. now destruct (lifeSignCallback c). Qed.

Lemma settled_life (c : client) : settled (life c) = None.
Proof. unfold life. now destruct (lifeSignCallback c). Qed.

Lemma begin_getDataLogger (plantId : val) (j : Z) (c : client) :
  signs c ->
  begin (getDataLogger plantId (VNum j)) c
  = (c, life c ++ [Sent (asks c plantId j)]).
Proof.
  intros Hl. unfold getDataLogger, life. run_call.
  destruct Hl as [Hl | (f & Hl)]; rewrite Hl; [|reflexivity].
  destruct (lifeSignCallback c); try reflexivity; discriminate.
Qed.

Lemma begin_getPlantList (c : client) :
  signs c -> begin getPlantList c = (c, life c ++ [Sent (asks_plants c)]).
Proof.
  intros Hl. unfold getPlantList, life. run_call.
  destruct Hl as [Hl | (f & Hl)]; rewrite Hl; [|reflexivity].
  destruct (lifeSignCallback c); try reflexivity; discriminate.
Qed.

(** The loop over the pages of one plant, on the answers of a server that
    pages. *)
Lemma pages_book (book : list (list doc)) :
  forall (j n : Z) (rest : list arrival) (plantId : val) (got : list doc)
         (c : client) (t : list effect),
    signs c -> book <> [] -> 1 <= j ->
    n = j + Z.of_nat (length book) - 1 ->
    exists t',
      pages (leaves n j book ++ rest) plantId (DNum (j - 1)) got c t
      = inl {| loggers := got ++ List.concat book; unread := rest;
               self := c; seen := t' |} /\
      requests t' = requests t ++ asked c plantId j book.
Proof.
  induction book as [|datas book IH]; [congruence|].
  intros j n rest plantId got c t Hl _ Hj Hn. cbn [length] in Hn.
  cbn [leaves app pages add1 argument].
  replace (j - 1 + 1) with j by lia.
  rewrite (begin_getDataLogger plantId j c Hl).
  rewrite requests_app, requests_life. cbn [requests app].
  unfold page at 1. unfold getDataLogger at 1. run_call.
  cbn [body truthy_doc is_object andb].
  rewrite !settled_app, settled_life. cbn [settled].
  cbn [prop assoc String.eqb Ascii.eqb Bool.eqb truthy_doc truthy_prop
       concat less].
  assert (Hj0 : (j =? 0) = false) by (apply Z.eqb_neq; lia).
  assert (Hn0 : (n =? 0) = false) by (apply Z.eqb_neq; lia).
  rewrite Hj0, Hn0. cbn [negb andb].
  destruct book as [|datas' book].
  - assert (Hlt : (j <? n) = false) by (apply Z.ltb_ge; simpl in Hn; lia).
    rewrite Hlt. eexists.
    split;
      [cbn [leaves app List.concat]; rewrite (app_nil_r datas); reflexivity|].
    rewrite !requests_app, !requests_outward, requests_app, requests_life.
    reflexivity.
  - assert (Hlt : (j <? n) = true).
    { apply Z.ltb_lt. cbn [length] in Hn. lia. }
    rewrite Hlt.
    destruct (IH (j + 1) n rest plantId (got ++ datas) c
                (t ++ outward (life c ++ [Sent (asks c plantId j)])
                   ++ outward [Called (Resolved
                        (DObj [("datas", DArr datas); ("currPage", DNum j);
                               ("pages", DNum n)]))]))
      as (t' & E & Hr); auto; try discriminate; try (cbn [length] in *; lia).
    replace (j + 1 - 1) with j in E by lia.
    exists t'. split.
    + rewrite E. simpl. now rewrite <- app_assoc.
    + rewrite Hr, !requests_app, !requests_outward, requests_app,
        requests_life. simpl. now rewrite <- app_assoc.
Qed.

(** The loop over the plants. *)
Lemma plants_shelves (plants : list doc) :
  forall (ids : list Z) (books : list (list (list doc)))
         (rest : list arrival) (got : list doc) (c : client)
         (t : list effect),
    signs c ->
    Forall2 (fun plant id => prop "id" plant = Some (DNum id)) plants ids ->
    length ids = length books ->
    Forall (fun book => book <> []) books ->
    exists t',
      plants_loop plants (shelves ids books ++ rest) got c t
      = (c, t',
         Done (Resolved (DArr (got ++ List.concat (List.concat books))))) /\
      requests t' = requests t ++ fetched c ids books.
Proof.
  induction plants as [|plant plants IH];
    intros ids books rest got c t Hl Hids Hlen Hbooks.
  - inversion Hids; subst. destruct books; [|discriminate].
    exists t. simpl. now rewrite !app_nil_r.
  - inversion Hids as [|? id ? ids' Hid Hids']; subst.
    destruct books as [|book books]; [discriminate|].
    inversion Hbooks as [|? ? Hbook Hbooks']; subst.
    cbn [plants_loop shelves fetched].
    destruct plant; try discriminate. rewrite Hid. cbn [argument].
    rewrite <- app_assoc.
    destruct (pages_book book 1 (Z.of_nat (length book))
                (shelves ids' books ++ rest) (VNum id) got c t)
      as (t1 & E & Hr); auto; try lia.
    change (1 - 1) with 0 in E. rewrite E. cbn [unread loggers self seen].
    destruct (IH ids' books rest (got ++ List.concat book) c t1)
      as (t2 & E2 & Hr2); auto.
    exists t2. split.
    + rewrite E2. simpl. now rewrite concat_app, <- app_assoc.
    + rewrite Hr2, Hr. now rewrite <- app_assoc.
Qed.

(** X18.  [getDataLoggers] reads every page of every plant.  With a
    server that answers the request for the plants with an array of plants
    that have a number as [id], and every request for the loggers of a plant
    with page [j] of [n] - the loggers of the page, [currPage = j] and
    [pages = n], for [j] from 1 up to [n] - the promise is resolved with
    the loggers of all pages of all plants, in the order of the plants and
    pages; the requests are the one for the plants and then, plant by plant,
    one for each page from 1 to [n]; and the client is left as it is. *)
Theorem getDataLoggers_reads_every_page (plants : list doc) (ids : list Z)
    (books : list (list (list doc))) (path : string)
    (cookies : option (list string)) (c : client) :
  signs c ->
  Forall2 (fun plant id => prop "id" plant = Some (DNum id)) plants ids ->
  length ids = length books ->
  Forall (fun book => book <> []) books ->
  exists t,
    getDataLoggers
      (Arrived {| body := DArr plants; request_path := path;
                  set_cookie := cookies |} :: shelves ids books) c
    = (c, t, Done (Resolved (DArr (List.concat (List.concat books))))) /\
    requests t = asks_plants c :: fetched c ids books.
Proof.
  intros Hl Hids Hlen Hbooks. unfold getDataLoggers.
  rewrite (begin_getPlantList c Hl).
  rewrite requests_app, requests_life. cbn [requests app].
  unfold getPlantList at 1. run_call. cbn [body isArray].
  rewrite !settled_app, settled_life. cbn [settled].
  destruct (plants_shelves plants ids books [] [] c
              (outward (life c ++ [Sent (asks_plants c)])
                 ++ outward [Called (Resolved (DArr plants))]))
    as (t & E & Hr); auto.
  rewrite app_nil_r in E. exists t. split; [exact E|].
  rewrite Hr, requests_app, !requests_outward, requests_app, requests_life.
  reflexivity.
Qed.

(** X19.  [getDataLoggers] gives up at the first call that fails, and a
    plant that is [null] stops it for good.  When the request for the
    plants fails, the promise is rejected with the error of the transport
    after that one request; when the request for the first page of a plant
    fails, the promise is rejected with that error and the plants behind it
    are not asked for; both leave the client disconnected.  When the first
    plant of the list is [null], the function throws with the promise
    pending: nothing was asked for but the plants, and the promise is never
    settled. *)
Theorem getDataLoggers_gives_up (plant : doc) (plants : list doc) (id : Z)
    (path : string) (cookies : option (list string)) (e : val)
    (rest : list arrival) (c : client) :
  signs c ->
  prop "id" plant = Some (DNum id) ->
  let listed ps :=
    Arrived {| body := DArr ps; request_path := path;
               set_cookie := cookies |} in
  getDataLoggers (Failed e :: rest) c
  = (with_connected false c, life c ++ [Sent (asks_plants c)],
     Done (Rejected (Thrown e))) /\
  (exists t,
     getDataLoggers (listed (plant :: plants) :: Failed e :: rest) c
     = (with_connected false c, t, Done (Rejected (Thrown e))) /\
     requests t = [asks_plants c; asks c (VNum id) 1]) /\
  getDataLoggers (listed (DNull :: plants) :: rest) c
  = (c, life c ++ [Sent (asks_plants c)], Dead).
Proof.
  intros Hl Hid. cbv zeta.
  assert (Ho : forall t, outward (life c ++ t) = life c ++ outward t).
  { intros t. unfold life. now destruct (lifeSignCallback c). }
  unfold getDataLoggers. rewrite (begin_getPlantList c Hl).
  rewrite requests_app, requests_life. cbn [requests app].
  split; [|split].
  - unfold getPlantList at 1. run_call.
    rewrite !settled_app, settled_life. cbn [settled].
    now rewrite Ho, <- app_assoc.
  - unfold getPlantList at 1. run_call. cbn [body isArray].
    rewrite !settled_app, settled_life. cbn [settled plants_loop].
    destruct plant; try discriminate. rewrite Hid.
    cbn [argument pages add1]. change (0 + 1) with 1.
    rewrite (begin_getDataLogger (VNum id) 1 c Hl).
    rewrite requests_app, requests_life. cbn [requests app].
    unfold getDataLogger at 1. run_call.
    rewrite !settled_app, settled_life. cbn [settled].
    eexists. split; [reflexivity|].
    rewrite !requests_app, !requests_outward, !requests_app, requests_life.
    reflexivity.
  - unfold getPlantList at 1. run_call. cbn [body isArray].
    rewrite !settled_app, settled_life. cbn [settled plants_loop].
    now rewrite Ho, <- app_assoc.
Qed.

(** ** The data of one device *)

Lemma await_sent (m : method) (s : standing) (q : request) (a : arrival)
    (rest : list arrival) (c2 : client) (v : verdict) :
  begin m (now s) = (now s, life (now s) ++ [Sent q]) ->
  answers s = a :: rest ->
  complete m a (now s) = (c2, [Called v]) ->
  await m s
  = Some (match v with
          | Resolved d => Some d
          | _ => None
          end,
          {| answers := rest; now := c2;
             sofar := sofar s ++ life (now s) ++ [Sent q];
             rejected :=
               match rejected s with
               | Some w => Some w
               | None =>
                   match v with
                   | Resolved _ => None
                   | _ => Some v
                   end
               end |}).
Proof.
  intros Hb Ha Hc. unfold await. rewrite Hb, Ha, Hc.
  rewrite requests_app, requests_life. cbn [requests app].
  rewrite !settled_app, settled_life. cbn [settled].
  assert (Ho : outward ((life (now s) ++ [Sent q]) ++ [Called v])
               = life (now s) ++ [Sent q]).
  { unfold life. now destruct (lifeSignCallback (now s)). }
  rewrite Ho. destruct v, (rejected s); reflexivity.
Qed.

Section Device.

Variable r : store.
Variable clock : nat -> string.
Variable Date_toISOString :
  doc -> doc -> doc -> doc -> doc -> doc -> result string.
Variable JSON_stringify : list obj -> string.
Variable yesterday tomorrow : string.

Abbreviation method_of :=
  (Portal.method_of r clock Date_toISOString JSON_stringify).
Abbreviation getPlantDeviceData :=
  (Portal.getPlantDeviceData r clock Date_toISOString yesterday tomorrow).

(** The callbacks of a read settle its promise and leave the client as it
    is, or disconnected. *)
Lemma complete_read (o : op) (a : arrival) (c : client) :
  is_session o = false ->
  exists c2 v,
    complete (method_of o) a c = (c2, [Called v]) /\
    (c2 = c \/ c2 = with_connected false c).
Proof.
  intros Ho. destruct (reads_are_calm r clock Date_toISOString JSON_stringify
                         o Ho) as (_ & Ht & Hc).
  pose proof (complete_calm (method_of o) a c Ht Hc) as Hcalm.
  destruct (complete (method_of o) a c) as [c2 t] eqn:E. cbn [fst] in Hcalm.
  assert (Hv : exists v, t = [Called v]).
  { revert E. unfold complete. destruct a as [res|e].
    - pose proof (then_once r clock Date_toISOString JSON_stringify o res c)
        as H.
      destruct (on_then (method_of o) res c) as [[c1 t1] [x|e]].
      + intros [= <- <-]. exact H.
      + subst t1. destruct o; try discriminate Ho; intros [= <- <-];
          simpl; eauto.
    - destruct o; try discriminate Ho; intros [= <- <-]; simpl; eauto. }
  destruct Hv as (v & ->). eauto.
Qed.

Lemma entry_of (type k : string) (l : loc) (o : obj) :
  inherited k = VUndef ->
  get r GROWATTTYPE type = Ok (VRef l) -> r !! l = Some o ->
  entry r type k = Ok (field k o).
Proof.
  intros Hk Hg Hl. unfold entry. rewrite Hg.
  unfold get, field, obj in *. rewrite Hl, Hk. now destruct (assoc k o).
Qed.

(** X20.  [getPlantDeviceData] does not stop at a call that fails.  For a
    device type of the registry with addresses for the status and for the
    history, and without options, it asks for the total data, the status
    and the history, in this order, also when the first request has
    failed: the promise is then rejected with the error of that request,
    the two other requests are sent all the same, their answers change
    nothing, and the client is left disconnected.  For the empty type and
    for a type that the registry does not know, it sends nothing and
    resolves with the empty object; with [null] for the options it throws
    before it has sent anything, and its promise is never settled. *)
Theorem getPlantDeviceData_goes_on_after_a_failure (plantId invId : val)
    (type sn p1 p2 p3 : string) (l : loc) (o : obj) (e : val)
    (a2 a3 : arrival) (answers : list arrival) (c : client) :
  signs c ->
  get r GROWATTTYPE type = Ok (VRef l) ->
  r !! l = Some o ->
  type <> "" ->
  field "getTotalData" o = VStr p1 ->
  field "getStatusData" o = VStr p2 -> p2 <> "" ->
  field "getHistory" o = VStr p3 -> p3 <> "" ->
  (let out :=
     getPlantDeviceData plantId type (VStr sn) invId NoObject
       [Failed e; a2; a3] c in
   snd out = Done (Rejected (Thrown e)) /\
   connected (fst (fst out)) = false /\
   map url (requests (snd (fst out)))
   = [(server c ++ p1)%string; (server c ++ p2)%string;
      (server c ++ p3)%string]) /\
  getPlantDeviceData plantId "" (VStr sn) invId NoObject answers c
  = (c, [], Done (Resolved (DObj []))) /\
  (forall unknown,
     get r GROWATTTYPE unknown = Ok VUndef ->
     getPlantDeviceData plantId unknown (VStr sn) invId NoObject answers c
     = (c, [], Done (Resolved (DObj [])))) /\
  getPlantDeviceData plantId type (VStr sn) invId Null answers c
  = (c, [], Dead).
Proof.
  intros Hl Hg Ho Hne Hp1 Hp2 Hne2 Hp3 Hne3.
  assert (Hst : truthy (field "getStatusData" o) = true).
  { rewrite Hp2. simpl. now destruct (String.eqb_spec p2 ""). }
  assert (Hhi : truthy (field "getHistory" o) = true).
  { rewrite Hp3. simpl. now destruct (String.eqb_spec p3 ""). }
  split; [|split; [reflexivity|split; [|reflexivity]]].
  2:{ intros unknown Hu. unfold Portal.getPlantDeviceData.
      destruct (String.eqb unknown ""); [reflexivity|].
      cbn [negb]. now rewrite Hu. }
  pose proof (entry_of type) as He.
  specialize (fun k Hk => He k l o Hk Hg Ho).
  assert (Hlife : forall b, life (with_connected b c) = life c)
    by reflexivity.
  assert (Hs : forall b, signs (with_connected b c)) by (intros b; exact Hl).
  (* the three requests *)
  assert (B1 : forall c0, signs c0 -> exists q,
             begin (getTotalData r type plantId (VStr sn) invId) c0
             = (c0, life c0 ++ [Sent q]) /\
             url q = (server c0 ++ to_string (field "getTotalData" o))%string).
  { intros c0 H0. unfold getTotalData, getTotalData_executor, life. run_call.
    cbn [split_of]. rewrite !He by reflexivity.
    destruct (truthy (field "addrParam" o)); cbn [fst snd app];
      [destruct (truthy (field "invIdParam" o))|];
      (destruct H0 as [H0 | (f & H0)]; rewrite H0;
       [destruct (lifeSignCallback c0); try discriminate|];
       eexists; split; reflexivity). }
  assert (B2 : forall c0, signs c0 -> exists q,
             begin (getStatusData r type plantId (VStr sn)) c0
             = (c0, life c0 ++ [Sent q]) /\
             url q = (server c0 ++ to_string (field "getStatusData" o))%string).
  { intros c0 H0. unfold getStatusData, getStatusData_executor, life.
    run_call. cbn [split_of]. rewrite !He by reflexivity.
    destruct (truthy (field "addrParam" o)); cbn [fst snd app];
      (destruct H0 as [H0 | (f & H0)]; rewrite H0;
       [destruct (lifeSignCallback c0); try discriminate|];
       eexists; split; reflexivity). }
  assert (B3 : forall c0 allDatasets, signs c0 -> exists q,
             begin (getHistory r clock Date_toISOString type (VStr sn)
                      yesterday tomorrow (VNum 0) allDatasets) c0
             = (c0, life c0 ++ [Sent q]) /\
             url q = (server c0 ++ to_string (field "getHistory" o))%string).
  { intros c0 allDatasets H0. unfold getHistory, getHistory_executor, life.
    run_call. rewrite !He by reflexivity. rewrite Hhi. cbn [negb fst snd app].
    destruct H0 as [H0 | (f & H0)]; rewrite H0;
      [destruct (lifeSignCallback c0); try discriminate|];
      eexists; split; reflexivity. }
  destruct (B1 c Hl) as (q1 & E1 & U1).
  destruct (B2 (with_connected false c) (Hs false)) as (q2 & E2 & U2).
  destruct (B3 (with_connected false c) (VBool false) (Hs false))
    as (q3 & E3 & U3).
  destruct (complete_read (GetStatusData type plantId (VStr sn)) a2
              (with_connected false c) eq_refl) as (c2 & v2 & C2 & Hc2).
  assert (Ec2 : c2 = with_connected false c) by (destruct Hc2; assumption).
  subst c2.
  destruct (complete_read
              (GetHistory type (VStr sn) yesterday tomorrow (VNum 0)
                 (VBool false)) a3 (with_connected false c) eq_refl)
    as (c3 & v3 & C3 & Hc3).
  assert (Ec3 : c3 = with_connected false c) by (destruct Hc3; assumption).
  subst c3.
  assert (E : getPlantDeviceData plantId type (VStr sn) invId NoObject
                [Failed e; a2; a3] c
              = (with_connected false c,
                 ((life c ++ [Sent q1]) ++ life c ++ [Sent q2])
                   ++ life c ++ [Sent q3],
                 Done (Rejected (Thrown e)))).
  { unfold Portal.getPlantDeviceData.
    apply String.eqb_neq in Hne. rewrite Hne, Hg. cbn [negb andb truthy].
    cbn [with_defaults no_options or_default is_tag typeof totalData truthy
         growattType].
    rewrite (await_sent (getTotalData r type plantId (VStr sn) invId)
               {| answers := [Failed e; a2; a3]; now := c; sofar := [];
                  rejected := None |}
               q1 (Failed e) [a2; a3] (with_connected false c)
               (Rejected (Thrown e)) E1 eq_refl eq_refl).
    unfold gather_status.
    cbn [keep statusData with_defaults no_options or_default is_tag typeof
         truthy now sofar rejected app].
    rewrite !He by reflexivity. rewrite Hst. cbn [andb].
    erewrite await_sent by (first [exact E2 | exact C2 | reflexivity]).
    unfold gather_history.
    cbn [historyLast historyAll historyLastStartDate historyLastEndDate
         historyStart with_defaults no_options or_default is_tag typeof
         truthy orb now sofar rejected].
    erewrite await_sent by (first [exact E3 | exact C3 | reflexivity]).
    reflexivity. }
  cbv zeta. rewrite E. cbn [fst snd].
  split; [reflexivity|]. split; [reflexivity|].
  rewrite !requests_app, !requests_life. cbn [requests app map].
  now rewrite U1, U2, U3, Hp1, Hp2, Hp3.
Qed.

End Device.

(** ** Who opens the session *)

Lemma below_refl (c : client) : below c c.
Proof. now left. Qed.

Lemma below_trans (c2 c1 c : client) : below c2 c1 -> below c1 c -> below c2 c.
Proof. intros [-> | ->] [-> | ->]; unfold below; auto. Qed.

Lemma below_flag (c' c : client) :
  below c' c ->
  (connected c' = true -> connected c = true) /\ cookie c' = cookie c.
Proof. intros [-> | ->]; split; auto; discriminate. Qed.

Section Flag.

Variable r : store.
Variable clock : nat -> string.
Variable Date_toISOString :
  doc -> doc -> doc -> doc -> doc -> doc -> result string.
Variable JSON_stringify : list obj -> string.
Variable yesterday tomorrow : string.

Abbreviation method_of :=
  (Portal.method_of r clock Date_toISOString JSON_stringify).
Abbreviation getPlantDeviceData :=
  (Portal.getPlantDeviceData r clock Date_toISOString yesterday tomorrow).

Lemma read_below (o : op) :
  is_session o = false ->
  (forall c, below (fst (begin (method_of o) c)) c) /\
  (forall a c, below (fst (complete (method_of o) a c)) c).
Proof.
  intros Ho.
  destruct (reads_are_calm r clock Date_toISOString JSON_stringify o Ho)
    as (He & Ht & Hc).
  split.
  - intros c. rewrite begin_client. apply He.
  - intros a c. now apply complete_calm.
Qed.

Lemma pages_below (arrivals : list arrival) :
  forall plantId curPage loggers c t,
    match pages arrivals plantId curPage loggers c t with
    | inl s => below (self s) c
    | inr stop => below (fst (fst stop)) c
    end.
Proof.
  induction arrivals as [|a rest IH]; intros plantId curPage loggers c t;
    cbn [pages];
    (destruct (add1 curPage) as [page|]; [|apply below_refl]);
    (destruct (argument (Some page)) as [pagev|]; [|apply below_refl]);
    destruct (read_below (GetDataLogger plantId pagev) eq_refl) as [Hb Hc];
    change (method_of (GetDataLogger plantId pagev))
      with (getDataLogger plantId pagev) in Hb, Hc;
    specialize (Hb c);
    destruct (begin (getDataLogger plantId pagev) c) as [c1 t1];
    cbn [fst] in Hb;
    (destruct (requests t1); [exact Hb|]); [exact Hb|].
  specialize (Hc a c1).
  destruct (complete (getDataLogger plantId pagev) a c1) as [c2 t2].
  cbn [fst] in Hc.
  assert (H2 : below c2 c) by (eapply below_trans; eauto).
  destruct (settled (t1 ++ t2)) as [[res|d|e]|]; try exact H2.
  cbv zeta.
  destruct (truthy_prop (prop "currPage" res) && truthy_prop (prop "pages" res));
    [|exact H2].
  destruct (less (prop "currPage" res) (prop "pages" res)) as [[|]|];
    try exact H2.
  destruct (prop "currPage" res) as [currPage|]; [|exact H2].
  match goal with
  | |- context [pages rest ?p ?cp ?l ?c0 ?t0] =>
      specialize (IH p cp l c0 t0); destruct (pages rest p cp l c0 t0)
  end; eapply below_trans; eauto.
Qed.

Lemma plants_loop_below (plants : list doc) :
  forall arrivals loggers c t,
    below (fst (fst (plants_loop plants arrivals loggers c t))) c.
Proof.
  induction plants as [|plant plants IH]; intros arrivals loggers c t;
    cbn [plants_loop]; [apply below_refl|].
  destruct plant; try apply below_refl;
    (match goal with
     | |- context [argument ?x] => destruct (argument x) as [plantId|]
     end; [|apply below_refl]);
    pose proof (pages_below arrivals plantId (DNum 0) loggers c t) as Hp;
    (destruct (pages arrivals plantId (DNum 0) loggers c t) as [tn|stop];
     [eapply below_trans; [apply IH|exact Hp] | exact Hp]).
Qed.

Lemma getDataLoggers_below (arrivals : list arrival) (c : client) :
  below (fst (fst (getDataLoggers arrivals c))) c.
Proof.
  unfold getDataLoggers.
  destruct (read_below GetPlantList eq_refl) as [Hb Hc].
  change (method_of GetPlantList) with getPlantList in Hb, Hc.
  specialize (Hb c). destruct (begin getPlantList c) as [c1 t1].
  cbn [fst] in Hb.
  destruct (requests t1); [exact Hb|].
  destruct arrivals as [|a rest]; [exact Hb|].
  specialize (Hc a c1). destruct (complete getPlantList a c1) as [c2 t2].
  cbn [fst] in Hc.
  assert (H2 : below c2 c) by (eapply below_trans; eauto).
  destruct (settled (t1 ++ t2)) as [[res|d|e]|]; try exact H2.
  destruct res; try exact H2.
  eapply below_trans; [apply plants_loop_below|exact H2].
Qed.

Lemma await_below (o : op) (s : standing) (x : option doc) (s' : standing) :
  is_session o = false ->
  await (method_of o) s = Some (x, s') -> below (now s') (now s).
Proof.
  intros Ho. destruct (read_below o Ho) as [Hb Hc]. unfold await.
  specialize (Hb (now s)).
  destruct (begin (method_of o) (now s)) as [c1 t1]. cbn [fst] in Hb.
  destruct (requests t1).
  - destruct (settled t1) as [[res|d|e]|]; intros [= _ <-]; exact Hb.
  - destruct (answers s) as [|a rest]; [discriminate|].
    specialize (Hc a c1). destruct (complete (method_of o) a c1) as [c2 t2].
    cbn [fst] in Hc.
    assert (H2 : below c2 (now s)) by (eapply below_trans; eauto).
    destruct (settled (t1 ++ t2)) as [[res|d|e]|]; intros [= _ <-]; exact H2.
Qed.

Lemma gather_history_below (type : string) (serialNr : val) (o : options)
    (result : list (string * doc)) (s : standing) :
  below (fst (fst (gather_history r clock Date_toISOString type serialNr o
                     result s))) (now s).
Proof.
  unfold gather_history, finish, waiting.
  destruct (truthy (historyLast o) || truthy (historyAll o));
    [|apply below_refl].
  destruct (historyLastStartDate o) as [startDate|]; [|apply below_refl].
  destruct (historyLastEndDate o) as [endDate|]; [|apply below_refl].
  pose proof (await_below
                (GetHistory type serialNr startDate endDate (historyStart o)
                   (historyAll o)) s) as H.
  change (method_of (GetHistory type serialNr startDate endDate
                       (historyStart o) (historyAll o)))
    with (getHistory r clock Date_toISOString type serialNr startDate endDate
            (historyStart o) (historyAll o)) in H.
  destruct (await _ s) as [[x s']|]; [|apply below_refl].
  exact (H x s' eq_refl eq_refl).
Qed.

Lemma gather_status_below (type : string) (plantId serialNr : val)
    (o : options) (result : list (string * doc)) (s : standing) :
  below (fst (fst (gather_status r clock Date_toISOString type plantId
                     serialNr o result s))) (now s).
Proof.
  unfold gather_status, waiting.
  destruct (if truthy (statusData o) then entry r type "getStatusData"
            else Ok (VBool false)) as [supported|]; [|apply below_refl].
  destruct (truthy (statusData o) && truthy supported);
    [|apply gather_history_below].
  pose proof (await_below (GetStatusData type plantId serialNr) s) as H.
  change (method_of (GetStatusData type plantId serialNr))
    with (getStatusData r type plantId serialNr) in H.
  destruct (await _ s) as [[x s']|]; [|apply below_refl].
  eapply below_trans; [apply gather_history_below|].
  exact (H x s' eq_refl eq_refl).
Qed.

Lemma getPlantDeviceData_below (plantId : val) (type : string)
    (serialNr invId : val) (opt : given) (arrivals : list arrival)
    (c : client) :
  below (fst (fst (getPlantDeviceData plantId type serialNr invId opt
                     arrivals c))) c.
Proof.
  unfold Portal.getPlantDeviceData, finish, waiting.
  set (s := {| answers := arrivals; now := c; sofar := [];
               rejected := None |}).
  change c with (now s) at 2 3 4.
  destruct opt as [| |o]; try apply below_refl;
    (destruct (if negb (type =? "")%string then get r GROWATTTYPE type
               else Ok (VBool false)) as [known|]; [|apply below_refl]);
    (destruct (negb (type =? "")%string && truthy known);
     [|apply below_refl]);
    cbv zeta;
    match goal with
    | |- context [if truthy (totalData ?w) then _ else _] =>
        destruct (truthy (totalData w))
    end; try apply gather_status_below;
    pose proof (await_below (GetTotalData type plantId serialNr invId) s) as H;
    change (method_of (GetTotalData type plantId serialNr invId))
      with (getTotalData r type plantId serialNr invId) in H;
    (destruct (await _ s) as [[x s']|]; [|apply below_refl]);
    (eapply below_trans; [apply gather_status_below|]);
    exact (H x s' eq_refl eq_refl).
Qed.

End Flag.

End PortalFacts.


(* ===================================================================== *)
(** * More on the inverter commands *)
(* ===================================================================== *)

(** ** The map of getInverterCommunication *)

Lemma assign_new {A : Type} (k : string) (v : A) (o : list (string * A)) :
  ~ In k (keys o) -> assign k v o = o ++ [(k, v)].
Proof.
  unfold keys. induction o as [|[k' v'] o IH]; simpl; auto.
  intros H. destruct (String.eqb_spec k k') as [->|Hne].
  - exfalso. auto.
  - rewrite IH; auto.
Qed.

Lemma keys_app {A : Type} (o o' : list (string * A)) :
  keys (o ++ o') = keys o ++ keys o'.
Proof. unfold keys. apply map_app. Qed.

(** [Object.assign({}, v)] of an object of the registry is a copy of its
    properties, in order. *)
Lemma assign_all (o acc : obj) :
  NoDup (keys acc ++ keys o) ->
  fold_left (fun t kv => assign (fst kv) (snd kv) t) o acc = acc ++ o.
Proof.
  revert acc. induction o as [|[k v] o IH]; intros acc H; simpl.
  - now rewrite app_nil_r.
  - rewrite assign_new.
    + rewrite IH.
      * now rewrite <- app_assoc.
      * rewrite keys_app. simpl. now rewrite <- app_assoc.
    + simpl in H. apply NoDup_app in H. destruct H as (_ & H & _).
      intros Hin. apply list_elem_of_In in Hin.
      apply (H k Hin), list_elem_of_here.
Qed.

(** The loop over the functions of a device type. *)
Lemma describe_all_spec (r : store) (c : val) (ks : list string)
    (acc ds : list (string * descriptor)) :
  NoDup (keys acc ++ ks) ->
  describe_all r c ks acc = Ok ds ->
  exists ds',
    ds = acc ++ ds' /\ keys ds' = ks /\
    Forall (fun kd => describe r c (fst kd) = Ok (snd kd)) ds'.
Proof.
  revert acc. induction ks as [|k ks IH]; intros acc Hnd; simpl.
  - intros [= <-]. exists []. now rewrite app_nil_r.
  - destruct (describe r c k) as [d|e] eqn:E; [|discriminate].
    intros H. rewrite assign_new in H.
    + apply IH in H.
      * destruct H as (ds' & -> & Hk & Hf).
        exists ((k, d) :: ds'). rewrite <- app_assoc. simpl.
        split; [reflexivity|]. split; [now rewrite Hk|].
        constructor; auto.
      * rewrite keys_app. simpl. now rewrite <- app_assoc.
    + apply NoDup_app in Hnd. destruct Hnd as (_ & Hnd & _).
      intros Hin. apply list_elem_of_In in Hin.
      apply (Hnd k Hin), list_elem_of_here.
Qed.

(** X15.  The map that [getInverterCommunication] returns for a device
    type lists the functions of the registry entry [comInverter], each
    once and in the order of the registry; the entry of a function has
    the [name] of the registry, and its [param] has the properties of the
    registry's own parameter map, in the same order and with the same
    values. *)
Theorem getInverterCommunication_lists_every_function (r : store)
    (type : string) (gt c : val) (ks : list string)
    (ds : list (string * descriptor)) :
  get r GROWATTTYPE type = Ok gt ->
  get r gt "comInverter" = Ok c ->
  is_tag TObject c = true ->
  object_keys r c = Ok ks ->
  NoDup ks ->
  getInverterCommunication r type = Ok ds ->
  keys ds = ks /\
  forall key d,
    In (key, d) ds ->
    exists f,
      get r c key = Ok f /\ get r f "name" = Ok (d_name d) /\
      forall (l : loc) (o : obj),
        get r f "param" = Ok (VRef l) -> r !! l = Some o -> NoDup (keys o) ->
        d_param d = o.
Proof.
  intros Hgt Hc Ho Hks Hnd. unfold getInverterCommunication.
  rewrite Hgt, Hc, Ho, Hks. intros H.
  apply describe_all_spec in H; [|exact Hnd].
  destruct H as (ds' & -> & Hk & Hf). simpl. split; [exact Hk|].
  intros key d Hin. rewrite Forall_forall in Hf.
  specialize (Hf (key, d)). simpl in Hf.
  assert (Hd : describe r c key = Ok d).
  { apply Hf. now apply list_elem_of_In. }
  clear Hf. unfold describe in Hd.
  destruct (get r c key) as [f|e]; [|discriminate].
  exists f. split; [reflexivity|].
  destruct (get r f "name") as [name|e1], (get r f "param") as [param|e2],
           (get r f "isSubread") as [isSubread|e3],
           (get r f "subRead") as [subRead|e4]; try discriminate.
  injection Hd as <-. simpl. split; [reflexivity|].
  intros l o [= ->] Hl Hno. unfold object_assign, own_props.
  rewrite Hl. now rewrite assign_all.
Qed.

(** ** The request of a read *)

Lemma is_string (v : val) : is_tag TString v = true -> exists s, v = VStr s.
Proof. destruct v; try discriminate. eauto. Qed.

(** Lines 846-852 for a read: the action is a string of the registry. *)
Lemma take_action_read (r : store) (type func : string) (serialNum gt : val)
    (o u : obj) (x : unit) :
  take_action r type (read_command func serialNum) gt o = (u, Ok x) ->
  exists action, u = assign "action" (VStr action) o.
Proof.
  unfold take_action. run_shape. cbn [p_action read_command].
  destruct (is_tag TObject gt); [|discriminate].
  destruct (get r gt "readParam") as [act|e]; [|discriminate].
  destruct (is_tag TString act) eqn:E; [|discriminate].
  destruct (is_string act E) as (s & ->). intros [= <-]. eauto.
Qed.

(** Lines 855-858: [paramId] is left, or becomes a string of the
    registry. *)
Lemma take_paramId_string (r : store) (b : val) (o u : obj) (checkRet : val) :
  take_paramId r b o = (u, Ok checkRet) ->
  u = o \/ exists paramId, u = assign "paramId" (VStr paramId) o.
Proof.
  unfold take_paramId. run_shape.
  destruct (negb (is_tag TUndefined (field "paramId" o)));
    [|intros [= <-]; now left].
  destruct (get r b "paramId") as [bid|e]; [|discriminate].
  destruct (is_tag TString bid) eqn:E; [|intros [= <-]; now left].
  destruct (is_string bid E) as (s & ->).
  destruct (get r b "parseRet"); [|discriminate].
  intros [= <- _]. right. eauto.
Qed.

(** Lines 859-877 do nothing for a [param] without [type]. *)
Lemma take_type_absent (PARSEIN : val -> option (val -> val * val))
    (r : store) (type : string) (po : paramorgi) (b : val) (o : obj) :
  field "type" o = VUndef -> take_type PARSEIN r type po b o = (o, Ok tt).
Proof. unfold take_type. run_shape. now intros ->. Qed.

(** X16.  A read of a setting never looks at the converters of
    [PARSEIN]: what [comInverter] makes of the command of
    [getInverterSetting] is the same for every table of converters.  Where
    the command is accepted, its request has the five fields of line 827
    and no other: [action] is a string of the registry, [paramId] is a
    string, [serialNum] is the caller's, and [startAddr] and [endAddr]
    are -1. *)
Theorem a_read_has_five_fields
    (PARSEIN PARSEIN' : val -> option (val -> val * val)) (r : store)
    (type func : string) (serialNum : val) :
  let po := read_command func serialNum in
  shape PARSEIN r type po (p_url po) = shape PARSEIN' r type po (p_url po) /\
  forall u checkRet,
    shape PARSEIN r type po (p_url po) = (u, Ok checkRet) ->
    exists action paramId,
      u = [("action", VStr action); ("paramId", VStr paramId);
           ("serialNum", serialNum); ("startAddr", VNum (-1));
           ("endAddr", VNum (-1))].
Proof.
  cbv zeta. rewrite !shape_unfold. cbn [p_base p_func p_url read_command].
  destruct (get r GROWATTTYPE type) as [gt|e];
    [|split; [reflexivity|intros u ck [=]]].
  destruct (take_action r type (read_command func serialNum) gt _)
    as [o1 [[]|e]] eqn:Ea; [|split; [reflexivity|intros u ck [=]]].
  apply take_action_read in Ea. destruct Ea as (action & ->).
  destruct (get r gt "comInverter") as [base|e];
    [|split; [reflexivity|intros u ck [=]]].
  destruct (is_tag TObject base);
    [|split; [reflexivity|intros u ck [=]]].
  destruct (get r base func) as [b|e];
    [|split; [reflexivity|intros u ck [=]]].
  destruct (is_tag TObject b);
    [|split; [reflexivity|intros u ck [=]]].
  unfold shape_function. run_shape.
  destruct (take_paramId r b _) as [o2 [ck|e]] eqn:Ep;
    [|split; [reflexivity|intros u ck [=]]].
  apply take_paramId_string in Ep.
  assert (Ht : field "type" o2 = VUndef)
    by (destruct Ep as [-> | (paramId & ->)]; reflexivity).
  rewrite !take_type_absent by exact Ht. split; [reflexivity|].
  intros u ck' [= <- _].
  destruct Ep as [-> | (paramId & ->)]; cbn [assign String.eqb Ascii.eqb];
    eauto.
Qed.

(** ** Who opens the session *)

Section Session.

Variable PARSEIN : val -> option (val -> val * val).
Variable PARSERET : string -> json -> result val.

Abbreviation handle := (handle PARSEIN PARSERET).

(** Nothing that [comInverter] and its callbacks do changes the session
    flag. *)
Lemma handle_connected (i : input) (s : growatt) :
  (forall b, i <> Session b) -> connected (handle i s) = connected s.
Proof.
  intros Hi. destruct i as [type func sn|type func sn v|id res|id e|b|]; simpl.
  - apply comInverter_frame.
  - apply comInverter_frame.
  - destruct (take_out id (inflight s)) as [rest|]; [|reflexivity].
    destruct (calls s !! id) as [c|]; [|reflexivity].
    unfold on_answer.
    repeat match goal with
           | |- context [if ?b then _ else _] => destruct b
           | |- context [match ?x with _ => _ end] => destruct x
           end;
    repeat first
      [ match goal with |- context [qsettle ?i ?o ?s'] =>
          destruct (qsettle_frame i o s') as (-> & _) end
      | match goal with |- context [forward ?c ?p ?s'] =>
          destruct (forward_frame c p s') as (-> & _) end
      | match goal with |- context [comInverter _ ?t ?p ?s'] =>
          destruct (comInverter_frame PARSEIN t p s') as (-> & _) end
      | match goal with |- context [taskFinished ?s'] =>
          destruct (taskFinished_frame s') as (-> & _) end ];
    reflexivity.
  - destruct (take_out id (inflight s)) as [rest|]; [|reflexivity].
    unfold on_failure.
    now destruct (qsettle_frame id (Reject (Thrown e)) (set_inflight rest s))
      as (-> & _).
  - now destruct (Hi b).
  - destruct (jobs s) as [|[id|id o] js]; [reflexivity| |]; simpl.
    + destruct (connected s) eqn:E.
      * destruct (post_frame id (set_jobs js s)) as (-> & _). exact E.
      * destruct (qsettle_frame id (Reject NotConnected) (set_jobs js s))
          as (-> & _). exact E.
    + now destruct (qsettle_frame id o (set_jobs js s)) as (-> & _).
Qed.

End Session.

(** X6.  Only a login opens the session.  Nothing else in the client sets
    the flag [connected]: after the executor or a callback of a method of
    one request that is not a login, after [getDeviceChart], and after
    [getDataLoggers] and [getPlantDeviceData], whatever the answers they
    get, the client is connected only if it was connected before; and the
    steps of [comInverter] - the call, the slot being granted, the answer
    or the failure of the transport - leave the flag as it is.  Of the
    methods of one request that are not logins only [logout] changes the
    cookie, and the two collectors leave it as it is. *)
Theorem only_a_login_connects
    (PARSEIN : val -> option (val -> val * val))
    (PARSERET : string -> json -> result val) (r : store)
    (clock : nat -> string)
    (Date_toISOString :
       Portal.doc -> Portal.doc -> Portal.doc -> Portal.doc -> Portal.doc ->
       Portal.doc -> result string)
    (JSON_stringify : list obj -> string)
    (encodeURIComponent_JSON : Portal.crumb -> string)
    (yesterday tomorrow : string) :
  let stays_closed (c' c : Portal.client) :=
    Portal.connected c' = true -> Portal.connected c = true in
  let method_of := Portal.method_of r clock Date_toISOString JSON_stringify in
  (forall o a c,
     Portal.is_login o = false ->
     stays_closed (fst (Portal.begin (method_of o) c)) c /\
     stays_closed (fst (Portal.complete (method_of o) a c)) c /\
     (o <> Portal.Logout ->
      Portal.cookie (fst (Portal.begin (method_of o) c)) = Portal.cookie c /\
      Portal.cookie (fst (Portal.complete (method_of o) a c))
      = Portal.cookie c)) /\
  (forall device date timeframe param c,
     stays_closed
       (fst (fst (Portal.getDeviceChart r JSON_stringify
                    encodeURIComponent_JSON device date timeframe param c)))
       c) /\
  (forall arrivals c,
     stays_closed (fst (fst (Portal.getDataLoggers arrivals c))) c /\
     Portal.cookie (fst (fst (Portal.getDataLoggers arrivals c)))
     = Portal.cookie c) /\
  (forall plantId type serialNr invId opt arrivals c,
     let c' :=
       fst (fst (Portal.getPlantDeviceData r clock Date_toISOString yesterday
                   tomorrow plantId type serialNr invId opt arrivals c)) in
     stays_closed c' c /\ Portal.cookie c' = Portal.cookie c) /\
  (forall i s,
     (forall b, i <> Session b) ->
     connected (handle PARSEIN PARSERET i s) = connected s).
Proof.
  cbv zeta. split; [|split; [|split; [|split]]].
  - intros o a c Ho.
    apply (PortalFacts.others_keep_the_flag r clock Date_toISOString
             JSON_stringify o a c Ho).
  - intros device date timeframe param c.
    apply PortalFacts.getDeviceChart_flag.
  - intros arrivals c.
    apply PortalFacts.below_flag.
    apply (PortalFacts.getDataLoggers_below r clock Date_toISOString
             JSON_stringify).
  - intros plantId type serialNr invId opt arrivals c.
    apply PortalFacts.below_flag.
    apply (PortalFacts.getPlantDeviceData_below r clock Date_toISOString
             JSON_stringify).
  - intros i s Hi. now apply handle_connected.
Qed.


(* ===================================================================== *)
(** * The plain calls on the sample registry *)
(* ===================================================================== *)

Module PortalExamples.

Import Portal PortalSample PortalFacts.

(** X1: the session of a cookie whose first part is another cookie, with
    a value that holds a second [=]. *)
Lemma extractSession_takes_the_last_instance :
  extractSession (with_cookie "lang=en;JSESSIONID=0A1B=2C;Path=/" fresh)
  = VStr "0A1B".
Proof.
  apply (proj1 (extractSession_takes_the_last
                  (with_cookie "lang=en;JSESSIONID=0A1B=2C;Path=/" fresh)
                  ["lang=en"] ["Path=/"] "JSESSIONID=0A1B=2C"
                  ltac:(repeat constructor) ltac:(repeat constructor)
                  ltac:(repeat constructor) eq_refl eq_refl)
          "0A1B" "=2C" eq_refl eq_refl
          (or_intror (ex_intro _ "2C" eq_refl))).
Defined.

(** X2: the headers [session_second] name the session, but behind a
    comma. *)
Lemma extractSession_wants_the_name_first_instance :
  includes "JSESSIONID" (String.concat "," session_second) = true /\
  extractSession (with_cookie (String.concat "," session_second) fresh)
  = VStr "".
Proof.
  split; [reflexivity|].
  apply extractSession_wants_the_name_first; reflexivity.
Defined.

(** X4: a demo login that is answered with [session_second]. *)
Lemma session_without_its_id_instance :
  connected (fst (complete demoLogin (Arrived (accepted session_second)) fresh))
  = true /\
  settled (snd (complete demoLogin (Arrived (accepted session_second)) fresh))
  = Some (Resolved OK) /\
  extractSession
    (fst (complete demoLogin (Arrived (accepted session_second)) fresh))
  = VStr "" /\
  field "cookie"
    (makeCallHeader VUndef
       (fst (complete demoLogin (Arrived (accepted session_second)) fresh)))
  = VStr "SERVERID=n1; Path=/,JSESSIONID=0A1B2C; Path=/; HttpOnly" /\
  field "Referer"
    (makeCallHeader VUndef
       (fst (complete demoLogin (Arrived (accepted session_second)) fresh)))
  = VStr "https://server.growatt.com/index;jsessionid=".
Proof.
  exact (session_without_its_id demoLogin VUndef (accepted session_second)
           session_second fresh (or_introl eq_refl) eq_refl eq_refl eq_refl
           eq_refl).
Defined.

(** X5: a login that is answered with [session_first]. *)
Lemma login_session_reaches_the_headers_instance :
  connected
    (fst (complete (login (VStr "me") (VStr "secret"))
            (Arrived (accepted session_first)) fresh))
  = true /\
  extractSession
    (fst (complete (login (VStr "me") (VStr "secret"))
            (Arrived (accepted session_first)) fresh))
  = VStr "0A1B2C" /\
  field "cookie"
    (makeCallHeader VUndef
       (fst (complete (login (VStr "me") (VStr "secret"))
               (Arrived (accepted session_first)) fresh)))
  = VStr "JSESSIONID=0A1B2C; Path=/; HttpOnly,SERVERID=n1; Path=/" /\
  field "Referer"
    (makeCallHeader VUndef
       (fst (complete (login (VStr "me") (VStr "secret"))
               (Arrived (accepted session_first)) fresh)))
  = VStr "https://server.growatt.com/index;jsessionid=0A1B2C".
Proof.
  exact (login_session_reaches_the_headers (VStr "me") (VStr "secret")
           (accepted session_first) session_first "0A1B2C" ""
           "; Path=/; HttpOnly,SERVERID=n1; Path=/" fresh
           eq_refl eq_refl eq_refl eq_refl eq_refl eq_refl eq_refl
           (or_introl eq_refl)
           (or_intror (ex_intro _ " Path=/; HttpOnly,SERVERID=n1; Path=/" eq_refl))
           eq_refl).
Defined.

(** X8: the registry has no device type [tlx]. *)
Lemma unknown_device_type_is_a_type_error_instance :
  get registry GROWATTTYPE "tlx" = Ok VUndef /\
  begin (getTotalData registry "tlx" (VNum 7) (VStr "SN1") VUndef) fresh
  = (fresh, [Called (Rejected TypeError)]) /\
  getInverterCommunication registry "tlx" = Throw TypeError.
Proof.
  split; [reflexivity|].
  pose proof (unknown_device_type_is_a_type_error registry clock
                Date_toISOString "tlx" (VNum 7) (VStr "SN1") VUndef VUndef
                VUndef VUndef VUndef "" "" fresh eq_refl) as H.
  exact (conj (proj1 H) (proj2 (proj2 (proj2 (proj2 H))))).
Defined.

(** X9: [singleBackflow] has neither a history nor the energy of a day. *)
Lemma unsupported_device_type_instance :
  begin (getHistory registry clock Date_toISOString "singleBackflow"
           (VStr "SN2_1") "2024-05-01T12:00:00.000Z"
           "2024-05-02T12:00:00.000Z" (VNum 0) VUndef) fresh
  = (fresh,
     [Called (Rejected (Thrown (VStr "This device type doesn't support history")))]) /\
  requests
    (snd (begin (getEnergyDay registry "singleBackflow" (VStr "2024-05-01")
                   (VNum 8) (VStr "SN2_1")) fresh))
  = [{| how := POST; url := "https://server.growatt.comundefined";
        form := Some [("date", VStr "2024-05-01"); ("plantId", VNum 8);
                      ("mixSn", VStr "SN2_1")];
        headers := makeCallHeader VUndef fresh |}].
Proof.
  pose proof (unsupported_device_type registry clock Date_toISOString
                "singleBackflow" (VRef 2%nat) VUndef (VStr "SN2_1") (VNum 0)
                VUndef (VStr "2024-05-01") (VNum 8) (VStr "SN2_1")
                "2024-05-01T12:00:00.000Z" "2024-05-02T12:00:00.000Z" fresh
                eq_refl (or_introl eq_refl)) as H.
  exact (conj (proj1 H eq_refl eq_refl)
           (proj1 (proj2 (proj2 (proj2 H eq_refl eq_refl))))).
Defined.

(** X10: the time of [dataset] becomes a string, [pac] and [vpv1] stay. *)
Lemma correctTime_rewrites_two_properties_instance :
  correctTime clock Date_toISOString 0 (DObj dataset)
  = Ok (0%nat, DObj corrected) /\
  exists fs',
    DObj corrected = DObj fs' /\ keys fs' = keys dataset /\
    (forall k, k <> "time" -> k <> "calendar" ->
       assoc k fs' = assoc k dataset) /\
    (forall k, k = "time" \/ k = "calendar" ->
       match assoc k dataset with
       | None => assoc k fs' = None
       | Some _ => exists iso, assoc k fs' = Some (DStr iso)
       end).
Proof.
  split; [reflexivity|].
  exact (correctTime_rewrites_two_properties clock Date_toISOString 0 0
           dataset (DObj corrected) eq_refl).
Defined.

(** X11: all datasets of [history] are asked for, and one is [null]. *)
Lemma getHistory_all_or_nothing_instance :
  In DNull [DNull] /\
  exists e,
    complete
      (getHistory registry clock Date_toISOString "mix" (VStr "SN1")
         "2024-05-01T12:00:00.000Z" "2024-05-02T12:00:00.000Z" (VNum 0)
         (VBool true))
      (Arrived history) (with_connected true fresh)
    = (with_connected false (with_connected true fresh),
       [Called (Rejected e)]).
Proof.
  split; [now left|].
  exact (proj2 (getHistory_all_or_nothing registry clock Date_toISOString
                  "mix" (VStr "SN1") (VNum 0) (VBool true)
                  "2024-05-01T12:00:00.000Z" "2024-05-02T12:00:00.000Z"
                  history (DObj [("datas", DArr [DObj dataset; DNull])])
                  (DObj dataset) [DNull] (with_connected true fresh)
                  eq_refl eq_refl eq_refl eq_refl eq_refl eq_refl)
           (or_introl eq_refl)).
Defined.

(** X12: the serial number [SN2_1] of a [singleBackflow] device, which
    has a parameter for the address and one for the inverter id. *)
Lemma serial_number_is_sent_in_parts_instance :
  requests
    (snd (begin (getStatusData registry "singleBackflow" (VNum 8)
                   (VStr "SN2_1")) fresh))
  = [{| how := POST;
        url := "https://server.growatt.com/panel/singleBackflow/getStatusData";
        form := Some [("plantId", VNum 8); ("sn", VStr "SN2");
                      ("addr", VStr "1")];
        headers := makeCallHeader VUndef fresh |}] /\
  requests
    (snd (begin (getTotalData registry "singleBackflow" (VNum 8)
                   (VStr "SN2_1") VUndef) fresh))
  = [{| how := POST;
        url := "https://server.growatt.com/panel/singleBackflow/getTotalData";
        form := Some [("plantId", VNum 8); ("sn", VStr "SN2");
                      ("addr", VStr "1"); ("invId", VStr "")];
        headers := makeCallHeader VUndef fresh |}].
Proof.
  pose proof (serial_number_is_sent_in_parts registry "singleBackflow"
                (VNum 8) VUndef (VStr "addr") (VStr "invId") "sn"
                "/panel/singleBackflow/getStatusData"
                "/panel/singleBackflow/getTotalData" "SN2" "1" fresh
                (or_introl eq_refl) eq_refl eq_refl eq_refl eq_refl eq_refl
                eq_refl eq_refl eq_refl eq_refl) as H.
  exact (conj (proj1 H) (proj1 (proj2 H))).
Defined.

(** X13: the faults of a day. *)
Lemma fault_log_type_counts_the_parts_instance :
  requests
    (snd (begin (getPlantFaultLog (VNum 7) (VStr "2024-05-01") VUndef) fresh))
  = [{| how := POST;
        url := "https://server.growatt.com/log/getNewPlantFaultLog";
        form := Some [("plantId", VNum 7); ("date", VStr "2024-05-01");
                      ("deviceSn", VStr ""); ("toPageNum", VNum 1);
                      ("type", VNum 1)];
        headers := makeCallHeader VUndef fresh |}].
Proof.
  exact (proj1 (fault_log_type_counts_the_parts (VNum 7) VUndef
                  ["2024"; "05"; "01"] fresh (or_introl eq_refl)
                  ltac:(discriminate) ltac:(repeat constructor))).
Defined.

(** X14: the chart of [other_device] after the chart of [device]. *)
Lemma getDeviceChart_sets_its_cookies_once_instance :
  (exists x1, snd first_chart = Ok x1) /\
  includes "selectedPlantId" (cookie (fst (fst first_chart))) = true /\
  cookie
    (fst (fst (getDeviceChart registry JSON_stringify encodeURIComponent_JSON
                 other_device "2024-06-01T12:00:00.000Z" (VNum 1) VUndef
                 (fst (fst first_chart)))))
  = cookie (fst (fst first_chart)).
Proof.
  split; [eexists; reflexivity|].
  pose proof (getDeviceChart_sets_its_cookies_once registry JSON_stringify
                encodeURIComponent_JSON device other_device
                "2024-05-01T12:00:00.000Z" "2024-06-01T12:00:00.000Z"
                VUndef VUndef (VNum 1) VUndef fresh _ _ _ eq_refl) as H.
  exact (conj (proj1 (proj2 (proj2 (proj2 H))))
           (proj2 (proj2 (proj2 (proj2 H))))).
Defined.

(** X15: the functions of [tlx] in the registry of the inverter
    commands. *)
Lemma getInverterCommunication_lists_every_function_instance :
  exists ds,
    getInverterCommunication Sample.registry "tlx" = Ok ds /\
    keys ds = ["time"; "power"; "plain"].
Proof.
  eexists. split; [reflexivity|].
  refine (proj1 (getInverterCommunication_lists_every_function
                   Sample.registry "tlx" (VRef 1%nat) (VRef 2%nat)
                   ["time"; "power"; "plain"] _
                   eq_refl eq_refl eq_refl eq_refl _ eq_refl)).
  apply NoDup_ListNoDup.
  repeat (constructor; [simpl; intuition discriminate|]). constructor.
Defined.

(** X18: two plants, with two pages and with one. *)
Lemma getDataLoggers_reads_every_page_instance :
  exists t,
    getDataLoggers
      [plant_list plants;
       page [logger "A1"; logger "A2"] 1 2; page [logger "A3"] 2 2;
       page [logger "B1"] 1 1] fresh
    = (fresh, t,
       Done (Resolved (DArr [logger "A1"; logger "A2"; logger "A3";
                             logger "B1"]))) /\
    requests t
    = [asks_plants fresh; asks fresh (VNum 7) 1; asks fresh (VNum 7) 2;
       asks fresh (VNum 8) 1].
Proof.
  exact (getDataLoggers_reads_every_page plants [7; 8] books
           "/index/getPlantListTitle" None fresh (or_introl eq_refl)
           ltac:(repeat constructor) eq_refl
           ltac:(repeat constructor; discriminate)).
Defined.

(** X19: the first page of the first plant fails. *)
Lemma getDataLoggers_gives_up_instance :
  exists t,
    getDataLoggers
      [plant_list plants; Failed (VStr "ETIMEDOUT");
       page [logger "B1"] 1 1] (with_connected true fresh)
    = (with_connected false (with_connected true fresh), t,
       Done (Rejected (Thrown (VStr "ETIMEDOUT")))) /\
    requests t
    = [asks_plants (with_connected true fresh);
       asks (with_connected true fresh) (VNum 7) 1].
Proof.
  exact (proj1 (proj2 (getDataLoggers_gives_up
                         (DObj [("id", DNum 7); ("plantName", DStr "roof")])
                         [DObj [("id", DNum 8); ("plantName", DStr "barn")]]
                         7 "/index/getPlantListTitle" None (VStr "ETIMEDOUT")
                         [page [logger "B1"] 1 1] (with_connected true fresh)
                         (or_introl eq_refl) eq_refl))).
Defined.

(** X20: the data of a [mix] device, when the request for the total data
    fails. *)
Lemma getPlantDeviceData_goes_on_after_a_failure_instance :
  snd (getPlantDeviceData registry clock Date_toISOString
         "2024-04-30T12:00:00.000Z" "2024-05-02T12:00:00.000Z" (VNum 7) "mix"
         (VStr "SN1") VUndef NoObject
         [Failed (VStr "ETIMEDOUT"); Arrived (accepted []); Arrived history]
         (with_connected true fresh))
  = Done (Rejected (Thrown (VStr "ETIMEDOUT"))) /\
  connected
    (fst (fst (getPlantDeviceData registry clock Date_toISOString
                 "2024-04-30T12:00:00.000Z" "2024-05-02T12:00:00.000Z"
                 (VNum 7) "mix" (VStr "SN1") VUndef NoObject
                 [Failed (VStr "ETIMEDOUT"); Arrived (accepted []);
                  Arrived history]
                 (with_connected true fresh))))
  = false /\
  map url
    (requests
       (snd (fst (getPlantDeviceData registry clock Date_toISOString
                    "2024-04-30T12:00:00.000Z" "2024-05-02T12:00:00.000Z"
                    (VNum 7) "mix" (VStr "SN1") VUndef NoObject
                    [Failed (VStr "ETIMEDOUT"); Arrived (accepted []);
                     Arrived history]
                    (with_connected true fresh)))))
  = ["https://server.growatt.com/panel/mix/getMIXTotalData";
     "https://server.growatt.com/panel/mix/getMIXStatusData";
     "https://server.growatt.com/device/getMIXHistory"].
Proof.
  exact (proj1 (getPlantDeviceData_goes_on_after_a_failure registry clock
                  Date_toISOString JSON_stringify
                  "2024-04-30T12:00:00.000Z" "2024-05-02T12:00:00.000Z"
                  (VNum 7) VUndef "mix" "SN1" "/panel/mix/getMIXTotalData"
                  "/panel/mix/getMIXStatusData" "/device/getMIXHistory" 1%nat
                  [("snParam", VStr "mixSn");
                   ("getTotalData", VStr "/panel/mix/getMIXTotalData");
                   ("getHistory", VStr "/device/getMIXHistory");
                   ("getStatusData", VStr "/panel/mix/getMIXStatusData");
                   ("getEnergyDay", VStr "/panel/mix/getMIXEnergyDayChart")]
                  (VStr "ETIMEDOUT") (Arrived (accepted [])) (Arrived history)
                  [] (with_connected true fresh)
                  (or_introl eq_refl) eq_refl eq_refl ltac:(discriminate)
                  eq_refl eq_refl ltac:(discriminate) eq_refl
                  ltac:(discriminate))).
Defined.

End PortalExamples.
